(** * Director network discovery: a shallow embedding of
    [network_scanner.py] ([NetworkScanner]) and [core/rate_limiter.py]
    ([RateLimiter]).

    Conventions of the embedding.
    - Python [int] is [Z]; depths, caps and counts are [Z].
    - A Python [set] of ids is a duplicate-free [list string] ([set_add]);
      membership is [mem].
    - A Python [dict] keyed by strings is an association list in insertion
      order ([dict_set] replaces in place or appends, as CPython does).
    - JSON objects returned by the registry client are records; an absent
      optional key is [None]; [.get(k, '')] on a string field is a
      [string] whose absent value is [""].
    - Strings are byte strings; [str.upper] is ASCII upper-casing.
    - An exception is a value of [exn]; code that can raise returns [res].
      Python [print] calls have no effect on the modelled state and are
      dropped.
    - The registry client (the facade) is a record of four functions that
      thread a facade state [FS] of arbitrary type: its answers may depend on
      anything that happened before (caches, transient failures, logs). *)

From Stdlib Require Import List String Ascii ZArith Lia Bool.
From Stdlib Require Import Sorting.Sorted Sorting.Permutation.
Import ListNotations.
Open Scope Z_scope.

(* ------------------------------------------------------------------ *)
(** ** Python helpers *)

Inductive exn : Type :=
| Exn (msg : string).

Inductive res (A : Type) : Type :=
| Ok (a : A)
| Err (e : exn).
Arguments Ok {A} a.
Arguments Err {A} e.

(** [x in s] for a set or list of strings. *)
Definition mem (x : string) (l : list string) : bool :=
  existsb (String.eqb x) l.

(** [s.add(x)] *)
Definition set_add (x : string) (l : list string) : list string :=
  if mem x l then l else l ++ [x].

(** [k in d] for a dict. *)
Definition dict_mem {V : Type} (k : string) (d : list (string * V)) : bool :=
  existsb (fun kv => String.eqb k (fst kv)) d.

(** [d.get(k)] *)
Fixpoint dict_get {V : Type} (k : string) (d : list (string * V)) : option V :=
  match d with
  | [] => None
  | (k', v) :: t => if String.eqb k k' then Some v else dict_get k t
  end.

(** [d[k] = v]: replaces the value in place, or appends a new key. *)
Fixpoint dict_set {V : Type} (k : string) (v : V) (d : list (string * V))
  : list (string * V) :=
  match d with
  | [] => [(k, v)]
  | (k', v') :: t =>
      if String.eqb k k' then (k, v) :: t else (k', v') :: dict_set k v t
  end.

(** [d[k] = f(d[k])] for a key known to be present. *)
Fixpoint dict_update {V : Type} (k : string) (f : V -> V) (d : list (string * V))
  : list (string * V) :=
  match d with
  | [] => []
  | (k', v') :: t =>
      if String.eqb k k' then (k', f v') :: t else (k', v') :: dict_update k f t
  end.

(** Python truthiness of an optional string ([None] and [''] are falsy). *)
Definition truthy (o : option string) : bool :=
  match o with
  | None => false
  | Some s => negb (String.eqb s "")
  end.

(** [x == 'lit'] for an optional string. *)
Definition opt_eqb (o : option string) (lit : string) : bool :=
  match o with
  | None => false
  | Some s => String.eqb s lit
  end.

Definition upper_char (c : ascii) : ascii :=
  let n := nat_of_ascii c in
  if (97 <=? n)%nat && (n <=? 122)%nat then ascii_of_nat (n - 32) else c.

(** [s.upper()] *)
Fixpoint upper (s : string) : string :=
  match s with
  | EmptyString => EmptyString
  | String c s' => String (upper_char c) (upper s')
  end.

(** [sub in s] (substring test). *)
Fixpoint contains (sub s : string) : bool :=
  prefix sub s ||
  match s with
  | EmptyString => false
  | String _ s' => contains sub s'
  end.

(** [s.split('/')] *)
Fixpoint split_slash (s : string) : list string :=
  match s with
  | EmptyString => [""%string]
  | String c s' =>
      if Ascii.eqb c "/"%char then ""%string :: split_slash s'
      else match split_slash s' with
           | [] => [String c EmptyString]
           | h :: t => String c h :: t
           end
  end.

(** [l[-2]]: raises [IndexError] on a list shorter than two. *)
Definition penultimate (l : list string) : res string :=
  if (2 <=? List.length l)%nat then
    match nth_error l (List.length l - 2) with
    | Some x => Ok x
    | None => Err (Exn "IndexError: list index out of range")
    end
  else Err (Exn "IndexError: list index out of range").

(* ------------------------------------------------------------------ *)
(** ** Registry responses (the JSON the client returns) *)

(** Company profile: [company_name], [company_status], [type],
    [date_of_creation]. *)
Record Profile := mkProfile {
  p_company_name : option string;
  p_company_status : option string;
  p_type : option string;
  p_date_of_creation : option string
}.

(** One entry of [get_officers]: [name] and [officer_role] read with default
    [''], the optional [appointed_on], [resigned_on], [date_of_birth]. *)
Record Officer := mkOfficer {
  o_name : string;
  o_officer_role : string;
  o_appointed_on : option string;
  o_resigned_on : option string;
  o_date_of_birth : option string
}.

(** One entry of [search_officers]: [title] and [links.self], both read with
    default [''].  A result dict is never empty, hence always truthy. *)
Record SearchResult := mkSearchResult {
  sr_title : string;
  sr_self : string
}.

(** One entry of [get_officer_appointments]:
    [appointed_to.company_number], [resigned_on],
    [appointed_to.company_status]. *)
Record Appointment := mkAppointment {
  ap_company_number : option string;
  ap_resigned_on : option string;
  ap_company_status : option string
}.

(** The API client consumed by the scanner. *)
Record Facade (FS : Type) := mkFacade {
  get_company_profile : string -> FS -> res Profile * FS;
  get_officers : string -> FS -> res (list Officer) * FS;
  search_officers : string -> FS -> res (list SearchResult) * FS;
  get_officer_appointments : string -> FS -> res (list Appointment) * FS
}.
Arguments get_company_profile {FS} f _ _.
Arguments get_officers {FS} f _ _.
Arguments search_officers {FS} f _ _.
Arguments get_officer_appointments {FS} f _ _.

(* ------------------------------------------------------------------ *)
(** ** The network snapshot *)

Record CompanyRec := mkCompanyRec {
  cr_company_number : string;
  cr_company_name : option string;
  cr_company_status : option string;
  cr_company_type : option string;
  cr_incorporation_date : option string;
  cr_depth : Z;
  cr_officer_count : Z
}.

Record ApptRec := mkApptRec {
  a_company_number : string;
  a_company_name : option string;
  a_role : string;
  a_appointed_on : option string;
  a_resigned_on : option string;
  a_date_of_birth : option string
}.

Record DirectorRec := mkDirectorRec {
  d_name : string;
  d_appointments : list ApptRec;
  d_company_count : Z
}.

Record Connection := mkConnection {
  c_company_number : string;
  c_company_name : option string;
  c_director_id : string;
  c_director_name : string;
  c_role : string;
  c_depth : Z
}.

Record Statistics := mkStatistics {
  total_companies : Z;
  total_directors : Z;
  total_connections : Z;
  depth_reached : Z
}.

Record Network := mkNetwork {
  n_seed_companies : list string;
  n_max_depth : Z;
  n_companies : list (string * CompanyRec);
  n_directors : list (string * DirectorRec);
  n_connections : list Connection;
  n_statistics : Statistics
}.

(** The [NetworkScanner] instance: its client and its two tracking sets. *)
Record Scanner (FS : Type) := mkScanner {
  api_state : FS;
  scanned_companies : list string;
  scanned_officers : list string
}.
Arguments mkScanner {FS} _ _ _.
Arguments api_state {FS} _.
Arguments scanned_companies {FS} _.
Arguments scanned_officers {FS} _.

(* ------------------------------------------------------------------ *)
(** ** The crawl: [NetworkScanner.scan_network] *)

(** The local state of one [scan_network] call: the [network] dict, the
    [companies_to_scan] list, the instance's [scanned_companies] and
    [scanned_officers] sets, and the client's state. *)
Record St (FS : Type) := mkSt {
  st_net : Network;
  st_queue : list (string * Z);
  st_sc : list string;
  st_so : list string;
  st_fs : FS
}.
Arguments mkSt {FS} _ _ _ _ _.
Arguments st_net {FS} _.
Arguments st_queue {FS} _.
Arguments st_sc {FS} _.
Arguments st_so {FS} _.
Arguments st_fs {FS} _.

Section Crawl.

Context {FS : Type} (api : Facade FS).
Context (max_depth max_companies : Z) (active_only : bool).


(** State and exceptions: a raised exception keeps the mutations done
    before it, as in Python. *)
Definition M (A : Type) : Type := St FS -> res A * St FS.

Definition ret {A : Type} (a : A) : M A := fun s => (Ok a, s).

Definition bind {A B : Type} (m : M A) (k : A -> M B) : M B :=
  fun s => match m s with
           | (Ok a, s') => k a s'
           | (Err e, s') => (Err e, s')
           end.

Local Notation "x <- m ;; k" := (bind m (fun x => k))
  (at level 61, m at next level, right associativity).
Local Notation "m ;;; k" := (bind m (fun _ => k))
  (at level 61, right associativity).

Definition raise {A : Type} (e : exn) : M A := fun s => (Err e, s).

Definition lift_res {A : Type} (r : res A) : M A :=
  fun s => (r, s).

(** [try: m except Exception: h] *)
Definition try_catch {A : Type} (m : M A) (h : exn -> M A) : M A :=
  fun s => match m s with
           | (Err e, s') => h e s'
           | r => r
           end.

Definition gets {A : Type} (f : St FS -> A) : M A := fun s => (Ok (f s), s).

Definition modify (f : St FS -> St FS) : M unit := fun s => (Ok tt, f s).

(** Calling the client threads its state. *)
Definition call {A : Type} (f : FS -> res A * FS) : M A :=
  fun s => let '(r, fs') := f (st_fs s) in
           (r, mkSt (st_net s) (st_queue s) (st_sc s) (st_so s) fs').

Definition set_net (n : Network) (s : St FS) : St FS :=
  mkSt n (st_queue s) (st_sc s) (st_so s) (st_fs s).
Definition set_queue (q : list (string * Z)) (s : St FS) : St FS :=
  mkSt (st_net s) q (st_sc s) (st_so s) (st_fs s).
Definition set_sc (c : list string) (s : St FS) : St FS :=
  mkSt (st_net s) (st_queue s) c (st_so s) (st_fs s).
Definition set_so (o : list string) (s : St FS) : St FS :=
  mkSt (st_net s) (st_queue s) (st_sc s) o (st_fs s).

Definition net_companies (f : list (string * CompanyRec) -> list (string * CompanyRec))
  (n : Network) : Network :=
  mkNetwork (n_seed_companies n) (n_max_depth n) (f (n_companies n))
    (n_directors n) (n_connections n) (n_statistics n).
Definition net_directors (f : list (string * DirectorRec) -> list (string * DirectorRec))
  (n : Network) : Network :=
  mkNetwork (n_seed_companies n) (n_max_depth n) (n_companies n)
    (f (n_directors n)) (n_connections n) (n_statistics n).
Definition net_connections (f : list Connection -> list Connection)
  (n : Network) : Network :=
  mkNetwork (n_seed_companies n) (n_max_depth n) (n_companies n)
    (n_directors n) (f (n_connections n)) (n_statistics n).
Definition net_statistics (f : Statistics -> Statistics) (n : Network) : Network :=
  mkNetwork (n_seed_companies n) (n_max_depth n) (n_companies n)
    (n_directors n) (n_connections n) (f (n_statistics n)).

(** [any(keyword in officer_name.upper() for keyword in [...])] *)
Definition corporate_keywords : list string :=
  ["LIMITED"; "LTD"; "PLC"; "LLP"; "COMPANY"; "CORPORATE"]%string.

Definition is_corporate (officer_name : string) : bool :=
  existsb (fun kw => contains kw (upper officer_name)) corporate_keywords.

(** Lines 159-170: the first of the top five results whose title equals the
    officer's name upper-cased, else the first result. *)
Fixpoint find_exact (officer_name : string) (rs : list SearchResult)
  : option SearchResult :=
  match rs with
  | [] => None
  | r :: t =>
      if String.eqb (upper (sr_title r)) (upper officer_name) then Some r
      else find_exact officer_name t
  end.

Definition best_match (officer_name : string) (officer_results : list SearchResult)
  : option SearchResult :=
  match find_exact officer_name (firstn 5 officer_results) with
  | Some m => Some m
  | None => hd_error officer_results
  end.

(** [officer_id = f"{officer_name}_{officer.get('appointed_on', '')}"] *)
Definition officer_key (o : Officer) : string :=
  (o_name o ++ "_" ++
   match o_appointed_on o with None => "" | Some a => a end)%string.

(** Lines 185-202: the loop over the matched officer's appointments. *)
Definition enqueue_appt (depth : Z) (appt : Appointment) : M unit :=
  sc <- gets st_sc ;;
  match ap_company_number appt with
  | None => ret tt
  | Some appt_company =>
      if String.eqb appt_company "" || mem appt_company sc then ret tt
      else if active_only && truthy (ap_resigned_on appt) then ret tt
      else if active_only && negb (opt_eqb (ap_company_status appt) "active")
      then ret tt
      else modify (fun s => set_queue (st_queue s ++ [(appt_company, depth + 1)]) s)
  end.

Fixpoint enqueue_appts (depth : Z) (appts : list Appointment) : M unit :=
  match appts with
  | [] => ret tt
  | a :: t => enqueue_appt depth a ;;; enqueue_appts depth t
  end.

Definition mark_officer (officer_id : string) : M unit :=
  modify (fun s => set_so (set_add officer_id (st_so s)) s).

(** Lines 149-213: the officer fan-out, inside its [try]. *)
Definition fan_out (depth : Z) (officer_name officer_id : string) : M unit :=
  if is_corporate officer_name then mark_officer officer_id
  else
    officer_results <- call (search_officers api officer_name) ;;
    (match officer_results with
     | [] => ret tt
     | _ :: _ =>
         match best_match officer_name officer_results with
         | None => ret tt
         | Some bm =>
             let match_id := sr_self bm in
             if String.eqb match_id "" then ret tt
             else
               officer_api_id <- lift_res (penultimate (split_slash match_id)) ;;
               try_catch
                 (appointments <- call (get_officer_appointments api officer_api_id) ;;
                  enqueue_appts depth appointments)
                 (fun _ => ret tt)
         end
     end) ;;;
    mark_officer officer_id.

(** Lines 105-213: one iteration of [for officer in officers]. *)
Definition process_officer (company_number : string) (profile : Profile)
  (depth : Z) (officer : Officer) : M unit :=
  let officer_name := o_name officer in
  let officer_role := o_officer_role officer in
  let officer_id := officer_key officer in
  let appointment :=
    mkApptRec company_number (p_company_name profile) officer_role
      (o_appointed_on officer) (o_resigned_on officer) (o_date_of_birth officer) in
  let add_appt (dr : DirectorRec) :=
    let aps := d_appointments dr ++ [appointment] in
    mkDirectorRec (d_name dr) aps (Z.of_nat (List.length aps)) in
  let conn :=
    mkConnection company_number (p_company_name profile) officer_id officer_name
      officer_role depth in
  modify (fun s =>
    set_net
      (net_connections (fun cs => cs ++ [conn])
        (net_directors
          (fun ds =>
             let ds := if dict_mem officer_id ds then ds
                       else dict_set officer_id (mkDirectorRec officer_name [] 0) ds in
             dict_update officer_id add_appt ds)
          (st_net s))) s) ;;;
  so <- gets st_so ;;
  if (depth <? max_depth) && negb (mem officer_id so) then
    try_catch (fan_out depth officer_name officer_id) (fun _ => ret tt)
  else ret tt.

Fixpoint process_officers (company_number : string) (profile : Profile)
  (depth : Z) (officers : list Officer) : M unit :=
  match officers with
  | [] => ret tt
  | o :: t =>
      process_officer company_number profile depth o ;;;
      process_officers company_number profile depth t
  end.

(** Lines 70-213: the body of the outer [try]. *)
Definition expand (company_number : string) (depth : Z) : M unit :=
  profile <- call (get_company_profile api company_number) ;;
  if active_only && negb (opt_eqb (p_company_status profile) "active") then ret tt
  else
    officers <- call (get_officers api company_number) ;;
    let officers :=
      if active_only then filter (fun o => negb (truthy (o_resigned_on o))) officers
      else officers in
    let rec :=
      mkCompanyRec company_number (p_company_name profile)
        (p_company_status profile) (p_type profile) (p_date_of_creation profile)
        depth (Z.of_nat (List.length officers)) in
    modify (fun s => set_net (net_companies (dict_set company_number rec) (st_net s)) s) ;;;
    modify (fun s => set_sc (set_add company_number (st_sc s)) s) ;;;
    modify (fun s => set_net (net_statistics (fun st =>
        mkStatistics (total_companies st) (total_directors st)
          (total_connections st) (Z.max (depth_reached st) depth)) (st_net s)) s) ;;;
    process_officers company_number profile depth officers.

(** [while companies_to_scan and len(self.scanned_companies) < max_companies] *)
Definition loop_cond (s : St FS) : bool :=
  match st_queue s with
  | [] => false
  | _ :: _ => Z.of_nat (List.length (st_sc s)) <? max_companies
  end.

(** Lines 62-216: one iteration of the while loop. *)
Definition iter (s : St FS) : St FS :=
  match st_queue s with
  | [] => s
  | (company_number, depth) :: rest =>
      let s := set_queue rest s in
      if mem company_number (st_sc s) || (max_depth <? depth) then s
      else snd (try_catch (expand company_number depth) (fun _ => ret tt) s)
  end.

(** The while loop, run with a fuel bound; [None] means the fuel ran out
    (the Python loop itself always terminates: see [scan_loop_terminates]). *)
Fixpoint scan_loop (fuel : nat) (s : St FS) : option (St FS) :=
  if loop_cond s then
    match fuel with
    | O => None
    | S f => scan_loop f (iter s)
    end
  else Some s.

End Crawl.

(** Lines 40-59 and 218-223. *)
Definition initial_network (seed_companies : list string) (max_depth : Z) : Network :=
  mkNetwork seed_companies max_depth [] [] [] (mkStatistics 0 0 0 0).

Definition initial_state {FS : Type} (self : Scanner FS)
  (seed_companies : list string) (max_depth : Z) : St FS :=
  mkSt (initial_network seed_companies max_depth)
    (map (fun cnum => (cnum, 0)) seed_companies) [] [] (api_state self).

Definition finalize (n : Network) : Network :=
  net_statistics (fun st =>
    mkStatistics (Z.of_nat (List.length (n_companies n)))
      (Z.of_nat (List.length (n_directors n)))
      (Z.of_nat (List.length (n_connections n))) (depth_reached st)) n.

(** [self.scan_network(seed_companies, max_depth, max_companies, active_only)]:
    the returned network and the instance afterwards. *)
Definition scan_network {FS : Type} (api : Facade FS) (self : Scanner FS)
  (seed_companies : list string) (max_depth max_companies : Z)
  (active_only : bool) (fuel : nat) : option (Network * Scanner FS) :=
  match scan_loop api max_depth max_companies active_only fuel
          (initial_state self seed_companies max_depth) with
  | None => None
  | Some s => Some (finalize (st_net s), mkScanner (st_fs s) (st_sc s) (st_so s))
  end.

(* ------------------------------------------------------------------ *)
(** ** Clients whose answers depend only on the arguments *)

(** A stateless client: every call is a function of its argument only. *)
Record PureFacade := mkPureFacade {
  pf_profile : string -> res Profile;
  pf_officers : string -> res (list Officer);
  pf_search : string -> res (list SearchResult);
  pf_appointments : string -> res (list Appointment)
}.

Definition lift_pure (pf : PureFacade) : Facade unit :=
  mkFacade unit
    (fun c u => (pf_profile pf c, u))
    (fun c u => (pf_officers pf c, u))
    (fun n u => (pf_search pf n, u))
    (fun i u => (pf_appointments pf i, u)).

(** A call log kept next to another client's state. *)
Inductive Call : Type :=
| CallProfile (company_number : string)
| CallOfficers (company_number : string)
| CallSearch (officer_name : string)
| CallAppointments (officer_id : string).

Definition logged {FS : Type} (api : Facade FS) : Facade (FS * list Call) :=
  mkFacade (FS * list Call)
    (fun c '(fs, log) => let '(r, fs') := get_company_profile api c fs in
                        (r, (fs', log ++ [CallProfile c])))
    (fun c '(fs, log) => let '(r, fs') := get_officers api c fs in
                        (r, (fs', log ++ [CallOfficers c])))
    (fun n '(fs, log) => let '(r, fs') := search_officers api n fs in
                        (r, (fs', log ++ [CallSearch n])))
    (fun i '(fs, log) => let '(r, fs') := get_officer_appointments api i fs in
                        (r, (fs', log ++ [CallAppointments i]))).

Definition fresh_scanner {FS : Type} (fs : FS) : Scanner FS := mkScanner fs [] [].

(** The scenario of the spec: seed AA111111, JOHN SMITH is a director of
    AA111111 and BB222222. *)
Definition active_profile (name : string) : Profile :=
  mkProfile (Some name) (Some "active"%string) (Some "ltd"%string) None.

Definition director (name date : string) : Officer :=
  mkOfficer name "director" (Some date) None None.

Definition appt_at (c : string) : Appointment :=
  mkAppointment (Some c) None (Some "active"%string).

Definition officer_link (id : string) : string :=
  ("/officers/" ++ id ++ "/appointments")%string.

Definition scenario_facade : PureFacade :=
  mkPureFacade
    (fun c => Ok (active_profile c))
    (fun c => if String.eqb c "AA111111" then Ok [director "JOHN SMITH" "2020-01-01"]
              else if String.eqb c "BB222222" then Ok [director "JOHN SMITH" "2021-02-02"]
              else Ok [])
    (fun n => if String.eqb n "JOHN SMITH"
              then Ok [mkSearchResult "John Smith" (officer_link "js1")]
              else Ok [])
    (fun i => if String.eqb i "js1" then Ok [appt_at "AA111111"; appt_at "BB222222"]
              else Err (Exn "404")).

(* ------------------------------------------------------------------ *)
(** ** Runs of the while loop *)

(** The states the loop passes through, from the state built at line 59. *)
Inductive Reach {FS : Type} (api : Facade FS) (max_depth max_companies : Z)
  (active_only : bool) (s0 : St FS) : St FS -> Prop :=
| reach_init : Reach api max_depth max_companies active_only s0 s0
| reach_step : forall s,
    Reach api max_depth max_companies active_only s0 s ->
    loop_cond max_companies s = true ->
    Reach api max_depth max_companies active_only s0
      (iter api max_depth active_only s).

(* ------------------------------------------------------------------ *)
(** ** Officer hops of a stateless client *)

Section Hops.

Context (pf : PureFacade) (active_only : bool).

(** [officers] after the [active_only] filter of lines 82-86. *)
Definition kept_officers (officers : list Officer) : list Officer :=
  if active_only then filter (fun o => negb (truthy (o_resigned_on o))) officers
  else officers.

(** A company the crawler records when it dequeues it: its profile and
    officer list are fetched without error and it passes the status filter. *)
Definition expandable (c : string) : Prop :=
  exists profile officers,
    pf_profile pf c = Ok profile /\
    (active_only = true -> opt_eqb (p_company_status profile) "active" = true) /\
    pf_officers pf c = Ok officers.

(** An appointment passing the filters of lines 190-200, apart from the
    "already scanned" test, which depends on the crawl. *)
Definition appt_target (appt : Appointment) (t : string) : Prop :=
  ap_company_number appt = Some t /\ t <> ""%string /\
  (active_only = true -> truthy (ap_resigned_on appt) = false) /\
  (active_only = true -> opt_eqb (ap_company_status appt) "active" = true).

(** The officer search of lines 151-202 leads from officer name [n] to
    company [t]. *)
Definition name_hop (n t : string) : Prop :=
  is_corporate n = false /\
  exists results bm officer_api_id appointments appt,
    pf_search pf n = Ok results /\ results <> [] /\
    best_match n results = Some bm /\ sr_self bm <> ""%string /\
    penultimate (split_slash (sr_self bm)) = Ok officer_api_id /\
    pf_appointments pf officer_api_id = Ok appointments /\
    In appt appointments /\ appt_target appt t.

(** One officer hop: [t] is found through a kept officer of company [c]. *)
Definition hop (c t : string) : Prop :=
  expandable c /\
  exists officers o,
    pf_officers pf c = Ok officers /\ In o (kept_officers officers) /\
    name_hop (o_name o) t.

(** [t] is at most [k] officer hops away from a seed. *)
Inductive hops_from (seeds : list string) : string -> Z -> Prop :=
| hops_seed : forall c, In c seeds -> hops_from seeds c 0
| hops_next : forall c t k, hops_from seeds c k -> hop c t -> hops_from seeds t (k + 1).

(** [k] is the minimum number of officer hops from a seed to [t]. *)
Definition min_hops (seeds : list string) (t : string) (k : Z) : Prop :=
  hops_from seeds t k /\ forall k', hops_from seeds t k' -> k <= k'.

(** Officer identity keys determine officer names (they can collide for
    names that contain ['_'], see [officer_key]). *)
Definition keys_determine_names : Prop :=
  forall c c' officers officers' o o',
    pf_officers pf c = Ok officers -> pf_officers pf c' = Ok officers' ->
    In o officers -> In o' officers' ->
    officer_key o = officer_key o' -> o_name o = o_name o'.

End Hops.

(* ------------------------------------------------------------------ *)
(** ** [find_company_clusters] *)

Section Clusters.

(** The iteration order of a Python [set] is not specified; [order] gives it
    for each neighbour set (any permutation of its elements). *)
Context (order : list string -> list string).

(** Lines 269-284: [graph[company].add(related)] for every pair of
    connections sharing a [director_id]. *)
Definition graph_add (g : list (string * list string)) (a b : string)
  : list (string * list string) :=
  match dict_get a g with
  | Some ns => dict_set a (set_add b ns) g
  | None => dict_set a (set_add b []) g
  end.

Definition build_graph (connections : list Connection) : list (string * list string) :=
  fold_left
    (fun g connection =>
       let company := c_company_number connection in
       let director := c_director_id connection in
       let related_companies :=
         map c_company_number
           (filter (fun c => String.eqb (c_director_id c) director) connections) in
       fold_left
         (fun g related => if String.eqb related company then g else graph_add g company related)
         related_companies g)
    connections [].

(** [graph[node]] on a [defaultdict(set)]. *)
Definition neighbours (g : list (string * list string)) (node : string) : list string :=
  match dict_get node g with Some ns => ns | None => [] end.

(** Lines 290-295: the recursive [dfs], threading the shared [visited] set
    and the [cluster] list; [fuel] bounds the recursion depth. *)
Fixpoint dfs (g : list (string * list string)) (fuel : nat) (node : string)
  (visited cluster : list string) : list string * list string :=
  match fuel with
  | O => (visited, cluster)
  | S f =>
      fold_left
        (fun '(vis, cl) neighbor =>
           if mem neighbor vis then (vis, cl) else dfs g f neighbor vis cl)
        (order (neighbours g node))
        (set_add node visited, cluster ++ [node])
  end.

(** Lines 297-302: the clusters in discovery order. *)
Definition discover_clusters (network : Network) : list (list string) :=
  let g := build_graph (n_connections network) in
  let fuel := S (List.length (n_companies network) + List.length (n_connections network)) in
  snd (fold_left
         (fun '(visited, clusters) company =>
            if mem company visited then (visited, clusters)
            else let '(visited', cluster) := dfs g fuel company visited [] in
                 if (1 <? List.length cluster)%nat then (visited', clusters ++ [cluster])
                 else (visited', clusters))
         (map fst (n_companies network)) ([], [])).

(** [clusters.sort(key=len, reverse=True)]: Python's sort is stable, also
    with [reverse=True]; insertion of each cluster after every cluster at
    least as long. *)
Fixpoint insert_by_len (x : list string) (l : list (list string)) : list (list string) :=
  match l with
  | [] => [x]
  | y :: t =>
      if (List.length y <? List.length x)%nat then x :: y :: t
      else y :: insert_by_len x t
  end.

Definition sort_by_len_desc (l : list (list string)) : list (list string) :=
  fold_left (fun acc x => insert_by_len x acc) l [].

Definition find_company_clusters (network : Network) : list (list string) :=
  sort_by_len_desc (discover_clusters network).

End Clusters.

(** Two companies are adjacent when some director identity has a connection
    to both. *)
Definition shares_director (connections : list Connection) (a b : string) : Prop :=
  exists x y, In x connections /\ In y connections /\
    c_company_number x = a /\ c_company_number y = b /\
    c_director_id x = c_director_id y.

Definition connected (connections : list Connection) : string -> string -> Prop :=
  Relation_Operators.clos_refl_trans string (shares_director connections).

(* ------------------------------------------------------------------ *)
(** ** [RateLimiter] *)

(** Timestamps ([time.time()]) and [period] are numbers of seconds. *)
Record RateLimiter := mkRateLimiter {
  max_requests : Z;
  period : Z;
  requests : list Z
}.

(** [RateLimiter(max_requests, period)]: [x or default] keeps [x] unless it
    is [None] or [0]; the defaults are [Config]'s 600 per 300 seconds. *)
Definition new_rate_limiter (max_requests period : option Z) : RateLimiter :=
  let pick o d := match o with Some x => if x =? 0 then d else x | None => d end in
  mkRateLimiter (pick max_requests 600) (pick period 300) [].

(** [while self.requests and self.requests[0] < now - self.period: popleft()] *)
Fixpoint prune (now per : Z) (rq : list Z) : list Z :=
  match rq with
  | [] => []
  | t :: rest => if t <? now - per then prune now per rest else rq
  end.

(** [acquire()] under the lock; [now0] is the first [time.time()] reading and
    [now1] the reading after [time.sleep] (read only when it sleeps).  The
    result is the limiter afterwards and the recorded grant timestamp;
    [self.requests[0]] on an empty deque raises [IndexError]. *)
Definition acquire (rl : RateLimiter) (now0 now1 : Z) : res (RateLimiter * Z) :=
  let per := period rl in
  let rq := prune now0 per (requests rl) in
  let stamp :=
    if Z.of_nat (List.length rq) >=? max_requests rl then
      match rq with
      | [] => Err (Exn "IndexError: deque index out of range")
      | oldest :: _ =>
          let sleep_time := oldest + per - now0 in
          if 0 <? sleep_time then Ok (now1, prune now1 per rq) else Ok (now0, rq)
      end
    else Ok (now0, rq) in
  match stamp with
  | Err e => Err e
  | Ok (now, rq) => Ok (mkRateLimiter (max_requests rl) per (rq ++ [now]), now)
  end.

(** The sleep time [acquire] would compute on [now0] ([0] when it does not sleep). *)
Definition sleep_needed (rl : RateLimiter) (now0 : Z) : Z :=
  let rq := prune now0 (period rl) (requests rl) in
  if Z.of_nat (List.length rq) >=? max_requests rl then
    match rq with
    | [] => 0
    | oldest :: _ => Z.max 0 (oldest + period rl - now0)
    end
  else 0.

(** A sequence of [acquire()] calls serialized by the lock, each with its
    clock readings; returns the grant timestamps in order. *)
Fixpoint acquire_all (rl : RateLimiter) (clock : list (Z * Z)) : res (RateLimiter * list Z) :=
  match clock with
  | [] => Ok (rl, [])
  | (now0, now1) :: rest =>
      match acquire rl now0 now1 with
      | Err e => Err e
      | Ok (rl', g) =>
          match acquire_all rl' rest with
          | Err e => Err e
          | Ok (rl'', gs) => Ok (rl'', g :: gs)
          end
      end
  end.

(** Clock readings a real clock can give: non-decreasing, and [time.sleep(x)]
    lasts at least [x]. *)
Fixpoint valid_clock (rl : RateLimiter) (last : Z) (clock : list (Z * Z)) : Prop :=
  match clock with
  | [] => True
  | (now0, now1) :: rest =>
      last <= now0 /\ now0 + sleep_needed rl now0 <= now1 /\
      match acquire rl now0 now1 with
      | Ok (rl', g) => valid_clock rl' (Z.max now0 now1) rest
      | Err _ => True
      end
  end.

(** Grants whose timestamps lie in the window [[w, w + per)]. *)
Definition grants_in_window (w per : Z) (grants : list Z) : nat :=
  List.length (filter (fun t => (w <=? t) && (t <? w + per)) grants).

(* ------------------------------------------------------------------ *)
(** ** Concrete clients *)

Definition one_result (name id : string) : res (list SearchResult) :=
  Ok [mkSearchResult name (officer_link id)].

(** Seed [S] has director [A], whose appointments are at [T] and [U];
    [U] has director [B], whose appointment is at [T]. *)
Definition two_paths_facade : PureFacade :=
  mkPureFacade
    (fun c => Ok (active_profile c))
    (fun c => if String.eqb c "S" then Ok [director "A" "2001-01-01"]
              else if String.eqb c "U" then Ok [director "B" "2002-02-02"]
              else Ok [])
    (fun n => if String.eqb n "A" then one_result "A" "a"
              else if String.eqb n "B" then one_result "B" "b"
              else Ok [])
    (fun i => if String.eqb i "a" then Ok [appt_at "T"; appt_at "U"]
              else if String.eqb i "b" then Ok [appt_at "T"]
              else Ok []).

(** The same registry, except that the first profile request for [T] fails
    (a transient error); the state records whether it already failed. *)
Definition flaky_facade : Facade bool :=
  mkFacade bool
    (fun c failed =>
       if String.eqb c "T" && negb failed then (Err (Exn "503 Service Unavailable"), true)
       else (pf_profile two_paths_facade c, failed))
    (fun c failed => (pf_officers two_paths_facade c, failed))
    (fun n failed => (pf_search two_paths_facade n, failed))
    (fun i failed => (pf_appointments two_paths_facade i, failed)).

(** Seed [S] has officers [A] appointed on [B_C] and [A_B] appointed on [C]:
    both have identity key [A_B_C].  [A] leads to [U], [A_B] to [T], and
    [U]'s director [X] to [T]. *)
Definition colliding_keys_facade : PureFacade :=
  mkPureFacade
    (fun c => Ok (active_profile c))
    (fun c => if String.eqb c "S" then Ok [director "A" "B_C"; director "A_B" "C"]
              else if String.eqb c "U" then Ok [director "X" "2003-03-03"]
              else Ok [])
    (fun n => if String.eqb n "A" then one_result "A" "a"
              else if String.eqb n "A_B" then one_result "A_B" "ab"
              else if String.eqb n "X" then one_result "X" "x"
              else Ok [])
    (fun i => if String.eqb i "a" then Ok [appt_at "U"]
              else if String.eqb i "ab" then Ok [appt_at "T"]
              else if String.eqb i "x" then Ok [appt_at "T"]
              else Ok []).

(** Company [X] answers its profile but its officer list always fails. *)
Definition officers_fail_facade : PureFacade :=
  mkPureFacade
    (fun c => Ok (active_profile c))
    (fun c => Err (Exn "500 Internal Server Error"))
    (fun n => Ok [])
    (fun i => Ok []).

(** The search for JOHN SMITH returns five other people first and the exact
    match sixth. *)
Definition six_results : list SearchResult :=
  [mkSearchResult "JOHN SMITHSON" (officer_link "p1");
   mkSearchResult "JOHN SMYTH" (officer_link "p2");
   mkSearchResult "JON SMITH" (officer_link "p3");
   mkSearchResult "JOHN SMITHERS" (officer_link "p4");
   mkSearchResult "JOHNNY SMITH" (officer_link "p5");
   mkSearchResult "John Smith" (officer_link "p6")].

Definition sixth_match_facade : PureFacade :=
  mkPureFacade
    (fun c => Ok (active_profile c))
    (fun c => if String.eqb c "AA111111" then Ok [director "JOHN SMITH" "2020-01-01"]
              else Ok [])
    (fun n => if String.eqb n "JOHN SMITH" then Ok six_results else Ok [])
    (fun i => Ok []).

(** Companies [A] and [B] share the director JOHN SMITH (same appointment
    date, hence the same identity key); the officer search fails. *)
Definition search_fails_facade : PureFacade :=
  mkPureFacade
    (fun c => Ok (active_profile c))
    (fun c => if String.eqb c "A" || String.eqb c "B"
              then Ok [director "JOHN SMITH" "2020-01-01"] else Ok [])
    (fun n => Err (Exn "500 Internal Server Error"))
    (fun i => Ok []).

(** As above, but the search succeeds with a [links.self] without ['/']. *)
Definition bad_link_facade : PureFacade :=
  mkPureFacade
    (fun c => Ok (active_profile c))
    (fun c => if String.eqb c "A" || String.eqb c "B"
              then Ok [director "JOHN SMITH" "2020-01-01"] else Ok [])
    (fun n => Ok [mkSearchResult "JOHN SMITH" "js1"])
    (fun i => Ok []).

(* ------------------------------------------------------------------ *)
(** ** Relations between crawl states used in the proofs *)

(** What processing the officers of company [c] dequeued at depth [d] may
    change: connections of [c] at depth [d] are appended, items at depth
    [d + 1] for companies not yet scanned are enqueued, officer ids are
    added; the companies map and [scanned_companies] are untouched. *)
Definition officer_step {FS : Type} (c : string) (d : Z) (s s' : St FS) : Prop :=
  n_companies (st_net s') = n_companies (st_net s) /\
  st_sc s' = st_sc s /\
  (exists cs, n_connections (st_net s') = n_connections (st_net s) ++ cs /\
              Forall (fun x => c_company_number x = c /\ c_depth x = d) cs) /\
  (exists q, st_queue s' = st_queue s ++ q /\
             Forall (fun it => snd it = d + 1 /\ mem (fst it) (st_sc s) = false) q) /\
  incl (st_so s) (st_so s').

(** The effect of [expand c d]: nothing but the client's state, or the node
    of [c] at depth [d] is stored, [c] is scanned, and its officers are
    processed. *)
Definition expand_effect {FS : Type} (c : string) (d : Z) (s s' : St FS) : Prop :=
  (st_net s' = st_net s /\ st_queue s' = st_queue s /\
   st_sc s' = st_sc s /\ st_so s' = st_so s) \/
  (exists rec s1,
     cr_depth rec = d /\ cr_company_number rec = c /\
     n_companies (st_net s1) = dict_set c rec (n_companies (st_net s)) /\
     n_connections (st_net s1) = n_connections (st_net s) /\
     st_sc s1 = set_add c (st_sc s) /\ st_queue s1 = st_queue s /\
     st_so s1 = st_so s /\
     officer_step c d s1 s').

(** Snapshot consistency (C9): every connection names a stored company and
    carries that company's depth. *)
Definition connections_consistent (n : Network) : Prop :=
  forall x, In x (n_connections n) ->
    exists rec, dict_get (c_company_number x) (n_companies n) = Some rec /\
                cr_depth rec = c_depth x.

(** The keys of the companies map are [scanned_companies], in order. *)
Definition keys_are_scanned {FS : Type} (s : St FS) : Prop :=
  map fst (n_companies (st_net s)) = st_sc s.

(** [m] moves the state along [R], whether it returns or raises. *)
Definition keeps {FS A : Type} (R : St FS -> St FS -> Prop) (m : @M FS A) : Prop :=
  forall s, R s (snd (m s)).

(** Loop invariants that hold with any client. *)
Definition basic_inv {FS : Type} (max_companies : Z) (s : St FS) : Prop :=
  keys_are_scanned s /\ NoDup (st_sc s) /\ connections_consistent (st_net s) /\
  (Z.of_nat (List.length (st_sc s)) <= Z.max 0 max_companies).

(** One edge of the adjacency built by [find_company_clusters]. *)
Definition graph_step (g : list (string * list string)) (a b : string) : Prop :=
  In b (neighbours g a).

(** The order kept by [clusters.sort(key=len, reverse=True)]. *)
Definition longer_or_equal (x y : list string) : Prop := (List.length y <= List.length x)%nat.

Definition of_len (k : nat) (cl : list string) : bool := Nat.eqb (List.length cl) k.

(** ** Breadth-first invariants of a crawl with a stateless client *)

(** [t] is recorded at depth at most [b], or waits in the frontier at depth
    at most [b]. *)
Definition known {FS : Type} (s : St FS) (t : string) (b : Z) : Prop :=
  (exists r, dict_get t (n_companies (st_net s)) = Some r /\ cr_depth r <= b) \/
  (exists e, In (t, e) (st_queue s) /\ e <= b).

(** Frontier depths never decrease along the queue and span at most one
    level. *)
Definition queue_ordered (q : list (string * Z)) : Prop :=
  StronglySorted (fun x y => snd x <= snd y) q /\
  (forall x y, In x q -> In y q -> snd y <= snd x + 1).

Section BfsInv.

Context (pf : PureFacade) (active_only : bool) (max_depth : Z) (seeds : list string).

(** Every company found through an officer with identity key [key] is known
    at depth at most [m + 1]. *)
Definition key_hops_known (s : St unit) (key : string) (m : Z) : Prop :=
  forall c' officers' o',
    pf_officers pf c' = Ok officers' -> In o' officers' -> officer_key o' = key ->
    forall t, name_hop pf active_only (o_name o') t -> expandable pf active_only t ->
    known s t (m + 1).

(** Inside the expansion of a company at depth [d]. *)
Definition so_known_upto (s : St unit) (d : Z) : Prop :=
  forall key, In key (st_so s) ->
    exists m, m < max_depth /\ m <= d /\ key_hops_known s key m.

Definition bfs_inv (s : St unit) : Prop :=
  queue_ordered (st_queue s) /\
  (forall t r, dict_get t (n_companies (st_net s)) = Some r ->
     forall x, In x (st_queue s) -> cr_depth r <= snd x) /\
  (forall t r, dict_get t (n_companies (st_net s)) = Some r ->
     cr_depth r <= max_depth /\ hops_from pf active_only seeds t (cr_depth r) /\
     expandable pf active_only t) /\
  (forall x, In x (st_queue s) -> hops_from pf active_only seeds (fst x) (snd x)) /\
  (forall x, In x seeds -> expandable pf active_only x -> 0 <= max_depth -> known s x 0) /\
  (forall c r, dict_get c (n_companies (st_net s)) = Some r -> cr_depth r < max_depth ->
     forall t, hop pf active_only c t -> expandable pf active_only t ->
     known s t (cr_depth r + 1)) /\
  (forall key, In key (st_so s) ->
     exists m, m < max_depth /\ (forall x, In x (st_queue s) -> m <= snd x) /\
               key_hops_known s key m).

End BfsInv.

(** ** Concrete inputs *)

(** The crawl state after one iteration on the scenario seeded twice. *)
Definition repeated_seed_start : St unit :=
  initial_state (fresh_scanner tt) ["AA111111"; "AA111111"]%string 2.

(** The snapshot of a crawl whose two seeds share a director identity. *)
Definition shared_director_network : Network :=
  match scan_network (lift_pure search_fails_facade) (fresh_scanner tt)
          ["A"; "B"]%string 1 100 true 20 with
  | Some (n, _) => n
  | None => initial_network [] 0
  end.

(* ================================================================== *)
(** * The rest of the scanner, the rate limiter and the registry client *)

(* ------------------------------------------------------------------ *)
(** ** [NetworkScanner.find_shared_directors] *)

(** One entry of [companies] in a shared-director record (lines 244-248). *)
Record SharedCompany := mkSharedCompany {
  sc_company_number : string;
  sc_company_name : option string;
  sc_role : string
}.

(** One element of [shared] (lines 239-251). *)
Record SharedDirector := mkSharedDirector {
  sd_director_id : string;
  sd_director_name : string;
  sd_company_count : Z;
  sd_companies : list SharedCompany
}.

Definition shared_entry (director_id : string) (director_data : DirectorRec) : SharedDirector :=
  mkSharedDirector director_id (d_name director_data) (d_company_count director_data)
    (map (fun appt => mkSharedCompany (a_company_number appt) (a_company_name appt) (a_role appt))
       (d_appointments director_data)).

(** Lines 237-251: the directors with [company_count > 1], in the order of
    the [directors] dict. *)
Definition collect_shared (directors : list (string * DirectorRec)) : list SharedDirector :=
  map (fun kv => shared_entry (fst kv) (snd kv))
    (filter (fun kv => 1 <? d_company_count (snd kv)) directors).

(** [shared.sort(key=lambda x: x['company_count'], reverse=True)]: stable,
    also with [reverse=True]; each entry is inserted after every entry with
    a count at least as large. *)
Fixpoint insert_by_count (x : SharedDirector) (l : list SharedDirector) : list SharedDirector :=
  match l with
  | [] => [x]
  | y :: t =>
      if sd_company_count y <? sd_company_count x then x :: y :: t
      else y :: insert_by_count x t
  end.

Definition sort_by_count_desc (l : list SharedDirector) : list SharedDirector :=
  fold_left (fun acc x => insert_by_count x acc) l [].

(** The order [sort_by_count_desc] establishes, and the entries of a count. *)
Definition count_ge (x y : SharedDirector) : Prop := sd_company_count y <= sd_company_count x.

Definition of_count (k : Z) (e : SharedDirector) : bool := Z.eqb (sd_company_count e) k.

Definition find_shared_directors (network : Network) : list SharedDirector :=
  sort_by_count_desc (collect_shared (n_directors network)).

(* ------------------------------------------------------------------ *)
(** ** The other [RateLimiter] methods *)

(** [get_remaining_requests()]: prunes the deque at [now], then returns
    [max_requests - len(requests)]. *)
Definition get_remaining_requests (rl : RateLimiter) (now : Z) : RateLimiter * Z :=
  let rq := prune now (period rl) (requests rl) in
  (mkRateLimiter (max_requests rl) (period rl) rq,
   max_requests rl - Z.of_nat (List.length rq)).

(** [get_reset_time()]: no pruning; [0] on an empty deque, else
    [max(0, oldest + period - now)]. *)
Definition get_reset_time (rl : RateLimiter) (now : Z) : Z :=
  match requests rl with
  | [] => 0
  | oldest :: _ => Z.max 0 (oldest + period rl - now)
  end.

(** [reset()] *)
Definition reset (rl : RateLimiter) : RateLimiter :=
  mkRateLimiter (max_requests rl) (period rl) [].

(* ------------------------------------------------------------------ *)
(** ** Python's [int(str)] and [str.strip()] on ASCII text *)

(** [str.isspace] on ASCII: space, [\t \n \v \f \r] and [\x1c]-[\x1f]. *)
Definition is_space (c : ascii) : bool :=
  let n := nat_of_ascii c in
  (n =? 32)%nat || ((9 <=? n) && (n <=? 13))%nat || ((28 <=? n) && (n <=? 31))%nat.

Fixpoint drop_spaces (l : list ascii) : list ascii :=
  match l with
  | [] => []
  | c :: t => if is_space c then drop_spaces t else l
  end.

(** [s.strip()] *)
Definition strip (s : string) : string :=
  string_of_list_ascii (rev (drop_spaces (rev (drop_spaces (list_ascii_of_string s))))).

Definition digit_value (c : ascii) : option Z :=
  let n := nat_of_ascii c in
  if ((48 <=? n) && (n <=? 57))%nat then Some (Z.of_nat n - 48) else None.

(** Decimal digits, with single underscores allowed between digits;
    [prev_digit] tells whether the last character was a digit. *)
Fixpoint parse_digits (l : list ascii) (acc : Z) (prev_digit : bool) : option Z :=
  match l with
  | [] => if prev_digit then Some acc else None
  | c :: t =>
      match digit_value c with
      | Some v => parse_digits t (acc * 10 + v) true
      | None =>
          if Ascii.eqb c "_"%char && prev_digit then parse_digits t acc false else None
      end
  end.

(** [int(s)] for a [str]: surrounding whitespace, an optional sign, then
    digits; anything else raises [ValueError]. *)
Definition py_int (s : string) : res Z :=
  let err := Err (Exn ("ValueError: invalid literal for int() with base 10: " ++ s)) in
  let body := list_ascii_of_string (strip s) in
  let signed :=
    match body with
    | c :: t =>
        if Ascii.eqb c "-"%char then option_map Z.opp (parse_digits t 0 false)
        else if Ascii.eqb c "+"%char then parse_digits t 0 false
        else parse_digits body 0 false
    | [] => None
    end in
  match signed with Some z => Ok z | None => err end.

(** [s.split(',')] *)
Fixpoint split_comma (s : string) : list string :=
  match s with
  | EmptyString => [""%string]
  | String c s' =>
      if Ascii.eqb c ","%char then ""%string :: split_comma s'
      else match split_comma s' with
           | [] => [String c EmptyString]
           | h :: t => String c h :: t
           end
  end.

(** [cmd_network], line 138: [[c.strip() for c in args.companies.split(',')]]. *)
Definition seed_list (companies : string) : list string :=
  map strip (split_comma companies).

(* ------------------------------------------------------------------ *)
(** ** [CompaniesHouseClient._make_request] *)

Definition MAX_RETRIES : nat := 3.
Definition RETRY_DELAY : Z := 2.

(** What [self.session.request(method, url, **kwargs)] does on one attempt:
    it raises an exception ([request_exception] tells whether it is a
    [requests.exceptions.RequestException]), or returns a response with a
    status code and, maybe, a [Retry-After] header. *)
Inductive Outcome : Type :=
| Raised (e : exn) (request_exception : bool)
| Responded (status_code : Z) (retry_after : option string).

(** The observable steps of one call. *)
Inductive Event : Type :=
| EvAcquire (grant : Z)
| EvRequest (attempt : nat)
| EvSleep (seconds : Z).

(** [response.raise_for_status()] raises [HTTPError], a [RequestException],
    for the statuses 400 to 599. *)
Definition http_error (status_code : Z) : bool := (400 <=? status_code) && (status_code <? 600).

Definition http_error_exn : exn := Exn "HTTPError".

(** [time.sleep(x)] raises [ValueError] on a negative [x]. *)
Definition sleep_error : exn := Exn "ValueError: sleep length must be non-negative".

(** [int(response.headers.get('Retry-After', Config.RETRY_DELAY))] *)
Definition retry_after_of (ra : option string) : res Z :=
  match ra with None => Ok RETRY_DELAY | Some h => py_int h end.

Section MakeRequest.

(** [url]; the two clock readings of each attempt's [acquire()]; and the
    session's behaviour on each attempt. *)
Context (url : string) (clock : nat -> Z * Z) (session : nat -> Outcome).

Definition failed_exn : exn :=
  Exn ("Failed to request " ++ url ++ " after 3 attempts").

(** Lines 53-76: [for attempt in range(MAX_RETRIES)]; [left] attempts
    remain.  The result is the returned response (its attempt and status),
    the rate limiter afterwards and the events. *)
Fixpoint request_loop (left attempt : nat) (rl : RateLimiter)
  : res (nat * Z) * RateLimiter * list Event :=
  match left with
  | O => (Err failed_exn, rl, [])
  | S left' =>
      match acquire rl (fst (clock attempt)) (snd (clock attempt)) with
      | Err e => (Err e, rl, [])
      | Ok (rl1, g) =>
          let retry (e : exn) :=
            if Nat.eqb attempt (MAX_RETRIES - 1) then (Err e, rl1, [EvAcquire g; EvRequest attempt])
            else
              let '(r, rl2, evs) := request_loop left' (S attempt) rl1 in
              (r, rl2, EvAcquire g :: EvRequest attempt ::
                       EvSleep (RETRY_DELAY * Z.of_nat (S attempt)) :: evs) in
          match session attempt with
          | Raised e true => retry e
          | Raised e false => (Err e, rl1, [EvAcquire g; EvRequest attempt])
          | Responded status ra =>
              if status =? 429 then
                match retry_after_of ra with
                | Err e => (Err e, rl1, [EvAcquire g; EvRequest attempt])
                | Ok retry_after =>
                    if retry_after <? 0 then (Err sleep_error, rl1, [EvAcquire g; EvRequest attempt])
                    else
                      let '(r, rl2, evs) := request_loop left' (S attempt) rl1 in
                      (r, rl2, EvAcquire g :: EvRequest attempt :: EvSleep retry_after :: evs)
                end
              else if http_error status then retry http_error_exn
              else (Ok (attempt, status), rl1, [EvAcquire g; EvRequest attempt])
          end
      end
  end.

Definition make_request (rl : RateLimiter) : res (nat * Z) * RateLimiter * list Event :=
  request_loop MAX_RETRIES 0 rl.

End MakeRequest.

(* ------------------------------------------------------------------ *)
(** ** Paged listings of [CompaniesHouseClient] *)

(** A registry page: [data.get('items', [])] and the total field read with
    default [0]. *)
Record Page (A : Type) := mkPage {
  pg_items : option (list A);
  pg_total : option Z
}.
Arguments mkPage {A} _ _.
Arguments pg_items {A} _.
Arguments pg_total {A} _.

Definition page_items {A : Type} (p : Page A) : list A :=
  match pg_items p with Some l => l | None => [] end.

Definition page_total {A : Type} (p : Page A) : Z :=
  match pg_total p with Some t => t | None => 0 end.

(** Query parameters passed as [params=...]. *)
Inductive Param : Type :=
| PStr (s : string)
| PInt (z : Z).

(** [self._make_request(url, **kwargs).json()] against a registry whose
    answer is a function of the request. *)
Definition Fetch (A : Type) : Type := string -> list (string * Param) -> res (Page A).

(** Lines 211-234 of [get_officers]: line 221 requests [url] without the
    [params] it builds.  One request per unit of [fuel]; [None] when the
    fuel runs out. *)
Fixpoint get_officers_loop (fetch : Fetch Officer) (url : string) (items_per_page : Z)
  (fuel : nat) (start_index : Z) (all_officers : list Officer) : option (res (list Officer)) :=
  match fuel with
  | O => None
  | S f =>
      match fetch url [] with
      | Err e => Some (Err e)
      | Ok data =>
          let items := page_items data in
          let all_officers := all_officers ++ items in
          let total := page_total data in
          if total <=? start_index + Z.of_nat (List.length items) then Some (Ok all_officers)
          else get_officers_loop fetch url items_per_page f (start_index + items_per_page)
                 all_officers
      end
  end.

Definition get_officers_paged (fetch : Fetch Officer) (base_url company_number : string)
  (items_per_page : Z) (fuel : nat) : option (res (list Officer)) :=
  get_officers_loop fetch (base_url ++ "/company/" ++ company_number ++ "/officers")
    items_per_page fuel 0 [].

(** Lines 303-327 of [search_officers]: every request carries [q],
    [items_per_page] and [start_index]; the loop stops once a page reaches
    the total or [start_index >= 200]. *)
Fixpoint search_officers_loop (fetch : Fetch SearchResult) (url officer_name : string)
  (items_per_page : Z) (fuel : nat) (start_index : Z) (all_results : list SearchResult)
  : option (res (list SearchResult)) :=
  match fuel with
  | O => None
  | S f =>
      match fetch url [("q", PStr officer_name); ("items_per_page", PInt items_per_page);
                       ("start_index", PInt start_index)]%string with
      | Err e => Some (Err e)
      | Ok data =>
          let items := page_items data in
          let all_results := all_results ++ items in
          let total := page_total data in
          if (total <=? start_index + Z.of_nat (List.length items)) || (200 <=? start_index)
          then Some (Ok all_results)
          else search_officers_loop fetch url officer_name items_per_page f
                 (start_index + items_per_page) all_results
      end
  end.

Definition search_officers_paged (fetch : Fetch SearchResult) (base_url officer_name : string)
  (items_per_page : Z) (fuel : nat) : option (res (list SearchResult)) :=
  search_officers_loop fetch (base_url ++ "/search/officers") officer_name items_per_page fuel 0 [].

(** Lines 252-289 of [search_companies]: line 270 requests [url] without
    the [params] it builds (so [query], [company_status] and [company_type]
    have no effect); an exception of the request is printed and ends the
    loop.  One request per unit of [fuel]. *)
Fixpoint search_companies_loop {A : Type} (fetch : Fetch A) (url : string)
  (items_per_page : Z) (fuel : nat) (start_index : Z) (all_results : list A)
  : option (list A) :=
  if Z.of_nat (List.length all_results) <? 1000 then
    match fuel with
    | O => None
    | S f =>
        match fetch url [] with
        | Err _ => Some all_results
        | Ok data =>
            match page_items data with
            | [] => Some all_results
            | items =>
                let all_results := all_results ++ items in
                let total := page_total data in
                if (total <=? start_index + Z.of_nat (List.length items)) || (total =? 0)
                then Some all_results
                else search_companies_loop fetch url items_per_page f
                       (start_index + items_per_page) all_results
            end
        end
    end
  else Some all_results.

Definition search_companies_paged {A : Type} (fetch : Fetch A) (base_url : string)
  (items_per_page : Z) (fuel : nat) : option (list A) :=
  search_companies_loop fetch (base_url ++ "/search/companies") items_per_page fuel 0 [].

(* ------------------------------------------------------------------ *)
(** ** The profile cache of [get_company_profile] *)

(** Lines 88-103: the cache directory maps file names to the JSON values
    written by [json.dump] (read back equal by [json.load]); [fetch] is the
    request to the registry. *)
Definition get_company_profile_cached {J : Type} (fetch : string -> res J) (base_url : string)
  (cache : list (string * J)) (company_number : string) : res J * list (string * J) :=
  let cache_file := ("profile_" ++ company_number ++ ".json")%string in
  match dict_get cache_file cache with
  | Some data => (Ok data, cache)
  | None =>
      match fetch (base_url ++ "/company/" ++ company_number)%string with
      | Err e => (Err e, cache)
      | Ok data => (Ok data, dict_set cache_file data cache)
      end
  end.

(* ------------------------------------------------------------------ *)
(** ** Views of a snapshot *)


(** Connections carrying a director id, and connections of a company. *)
Definition count_dir (k : string) (cs : list Connection) : nat :=
  List.length (filter (fun x => String.eqb (c_director_id x) k) cs).

Definition count_comp (k : string) (cs : list Connection) : nat :=
  List.length (filter (fun x => String.eqb (c_company_number x) k) cs).

(** The largest depth of a stored company, [0] for none. *)
Definition max_depth_of (companies : list (string * CompanyRec)) : Z :=
  fold_left (fun m kv => Z.max m (cr_depth (snd kv))) companies 0.

(** The [network] update of lines 106-145 for one officer, as written in
    [process_officer]. *)
Definition officer_net (company_number : string) (profile : Profile)
  (depth : Z) (officer : Officer) (n : Network) : Network :=
  let officer_name := o_name officer in
  let officer_role := o_officer_role officer in
  let officer_id := officer_key officer in
  let appointment :=
    mkApptRec company_number (p_company_name profile) officer_role
      (o_appointed_on officer) (o_resigned_on officer) (o_date_of_birth officer) in
  let add_appt (dr : DirectorRec) :=
    let aps := d_appointments dr ++ [appointment] in
    mkDirectorRec (d_name dr) aps (Z.of_nat (List.length aps)) in
  let conn :=
    mkConnection company_number (p_company_name profile) officer_id officer_name
      officer_role depth in
  net_connections (fun cs => cs ++ [conn])
    (net_directors
      (fun ds =>
         let ds := if dict_mem officer_id ds then ds
                   else dict_set officer_id (mkDirectorRec officer_name [] 0) ds in
         dict_update officer_id add_appt ds) n).

(** The [network] update of lines 89-102. *)
Definition record_net (company_number : string) (depth : Z) (profile : Profile)
  (officers : list Officer) (n : Network) : Network :=
  let rec :=
    mkCompanyRec company_number (p_company_name profile)
      (p_company_status profile) (p_type profile) (p_date_of_creation profile)
      depth (Z.of_nat (List.length officers)) in
  net_statistics (fun st =>
      mkStatistics (total_companies st) (total_directors st)
        (total_connections st) (Z.max (depth_reached st) depth))
    (net_companies (dict_set company_number rec) n).

(** The directors map agrees with the connections. *)
Definition dirs_inv (active_only : bool) (ds : list (string * DirectorRec))
  (cs : list Connection) : Prop :=
  NoDup (map fst ds) /\
  (forall k dr, dict_get k ds = Some dr ->
     d_company_count dr = Z.of_nat (List.length (d_appointments dr)) /\
     (1 <= List.length (d_appointments dr))%nat /\
     List.length (d_appointments dr) = count_dir k cs /\
     (active_only = true ->
        Forall (fun a => truthy (a_resigned_on a) = false) (d_appointments dr))) /\
  (forall x, In x cs -> In (c_director_id x) (map fst ds)).

(** Loop invariant on the snapshot under construction. *)
Definition snap_inv {FS : Type} (max_depth : Z) (active_only : bool) (s : St FS) : Prop :=
  Forall (fun it => 0 <= snd it) (st_queue s) /\
  dirs_inv active_only (n_directors (st_net s)) (n_connections (st_net s)) /\
  (forall k rec, dict_get k (n_companies (st_net s)) = Some rec ->
     cr_company_number rec = k /\ 0 <= cr_depth rec <= max_depth /\
     cr_officer_count rec = Z.of_nat (count_comp k (n_connections (st_net s))) /\
     (active_only = true -> cr_company_status rec = Some "active"%string)) /\
  depth_reached (n_statistics (st_net s)) = max_depth_of (n_companies (st_net s)).


(** The attempts sent, the sleeps and the rate-limiter grants of a
    [_make_request] call, in order. *)
Definition requests_sent (evs : list Event) : list nat :=
  flat_map (fun e => match e with EvRequest a => [a] | _ => [] end) evs.

Definition sleeps (evs : list Event) : list Z :=
  flat_map (fun e => match e with EvSleep x => [x] | _ => [] end) evs.

Definition grants (evs : list Event) : list Z :=
  flat_map (fun e => match e with EvAcquire g => [g] | _ => [] end) evs.

(* ------------------------------------------------------------------ *)
(** ** Concrete registry answers *)

(** [Retry-After] headers of three answers 429: absent, [" 5 "], ["1_0"]. *)
Definition retry_after_three (i : nat) : option string :=
  match i with O => None | 1%nat => Some " 5 "%string | _ => Some "1_0"%string end.

Definition retry_after_secs (i : nat) : Z :=
  match i with O => 2 | 1%nat => 5 | _ => 10 end.

(** A registry answering two officers of five on every request. *)
Definition two_of_five : Fetch Officer :=
  fun _ _ => Ok (mkPage (Some [director "A" "2001-01-01"; director "B" "2002-02-02"]) (Some 5)).

(** A registry claiming a thousand matches, one per page. *)
Definition endless_officers : Fetch SearchResult :=
  fun _ _ => Ok (mkPage (Some [mkSearchResult "JOHN SMITH" (officer_link "p1")]) (Some 1000)).

Definition same_company_page : Fetch string :=
  fun _ _ => Ok (mkPage (Some ["ACME LTD"]%string) (Some 5000)).

(* ================================================================== *)
(** * Proofs *)

Section MonadFacts.

Context {FS : Type}.

Lemma keeps_bind {A B : Type} (R : St FS -> St FS -> Prop)
  (Htr : forall x y z, R x y -> R y z -> R x z) (m : @M FS A) (k : A -> @M FS B) :
  (forall s, R s s) -> keeps R m -> (forall a, keeps R (k a)) -> keeps R (bind m k).
Proof.
  intros Hrefl Hm Hk s. unfold bind. specialize (Hm s).
  destruct (m s) as [[a|e] s'] eqn:E; simpl in *; auto.
  eapply Htr; [exact Hm | apply Hk].
Qed.

Lemma keeps_try {A : Type} (R : St FS -> St FS -> Prop)
  (Htr : forall x y z, R x y -> R y z -> R x z) (m : @M FS A) (h : exn -> @M FS A) :
  keeps R m -> (forall e, keeps R (h e)) -> keeps R (try_catch m h).
Proof.
  intros Hm Hh s. unfold try_catch. specialize (Hm s).
  destruct (m s) as [[a|e] s'] eqn:E; simpl in *; auto.
  eapply Htr; [exact Hm | apply Hh].
Qed.

Lemma keeps_ret {A : Type} (R : St FS -> St FS -> Prop) (a : A) :
  (forall s, R s s) -> keeps R (@ret FS A a).
Proof. intros H s; apply H. Qed.

Lemma keeps_gets {A : Type} (R : St FS -> St FS -> Prop) (f : St FS -> A) :
  (forall s, R s s) -> keeps R (gets f).
Proof. intros H s; apply H. Qed.

Lemma keeps_lift {A : Type} (R : St FS -> St FS -> Prop) (r : res A) :
  (forall s, R s s) -> keeps R (@lift_res FS A r).
Proof. intros H s; apply H. Qed.

Lemma keeps_modify (R : St FS -> St FS -> Prop) (f : St FS -> St FS) :
  (forall s, R s (f s)) -> keeps R (modify f).
Proof. intros H s; apply H. Qed.

Lemma keeps_call {A : Type} (R : St FS -> St FS -> Prop) (f : FS -> res A * FS) :
  (forall s fs', R s (mkSt (st_net s) (st_queue s) (st_sc s) (st_so s) fs')) ->
  keeps R (call f).
Proof.
  intros H s. unfold call. destruct (f (st_fs s)) as [r fs']. apply H.
Qed.

End MonadFacts.

Ltac keeps_split Htr Hrefl :=
  repeat match goal with
  | |- keeps _ (bind _ _) => apply keeps_bind; [exact Htr | exact Hrefl | | intro ]
  | |- keeps _ (try_catch _ _) => apply keeps_try; [exact Htr | | intro ]
  | |- keeps _ (ret _) => apply keeps_ret; exact Hrefl
  | |- keeps _ (gets _) => apply keeps_gets; exact Hrefl
  | |- keeps _ (lift_res _) => apply keeps_lift; exact Hrefl
  | |- keeps _ (if ?b then _ else _) => destruct b
  | |- keeps _ (match ?x with _ => _ end) => destruct x
  end.

Section OfficerFacts.

Context {FS : Type} (api : Facade FS) (max_depth : Z) (active_only : bool).
Context (c : string) (d : Z).

Lemma officer_step_refl (s : St FS) : officer_step c d s s.
Proof.
  repeat split; auto.
  - exists []. rewrite app_nil_r. auto.
  - exists []. rewrite app_nil_r. auto.
  - apply incl_refl.
Qed.

Lemma officer_step_trans (x y z : St FS) :
  officer_step c d x y -> officer_step c d y z -> officer_step c d x z.
Proof.
  intros [H1 [H2 [[cs1 [H3 H3']] [[q1 [H4 H4']] H5]]]]
         [G1 [G2 [[cs2 [G3 G3']] [[q2 [G4 G4']] G5]]]].
  repeat split.
  - congruence.
  - congruence.
  - exists (cs1 ++ cs2). rewrite G3, H3, app_assoc. split; auto.
    apply Forall_app; auto.
  - exists (q1 ++ q2). rewrite G4, H4, app_assoc. split; auto.
    apply Forall_app; split; auto.
    rewrite <- H2. exact G4'.
  - eapply incl_tran; eauto.
Qed.

Lemma officer_step_call (s : St FS) fs' :
  officer_step c d s (mkSt (st_net s) (st_queue s) (st_sc s) (st_so s) fs').
Proof. apply (officer_step_refl (mkSt (st_net s) (st_queue s) (st_sc s) (st_so s) (st_fs s))). Qed.

Lemma officer_step_mark (s : St FS) o :
  officer_step c d s (set_so (set_add o (st_so s)) s).
Proof.
  pose proof (officer_step_refl s) as [H1 [H2 [H3 [H4 _]]]].
  repeat split; auto.
  intros x Hx. unfold set_add. simpl. destruct (mem o (st_so s)); auto.
  apply in_or_app; auto.
Qed.

Lemma enqueue_appt_step a : keeps (officer_step c d) (@enqueue_appt FS active_only d a).
Proof.
  intros s. unfold enqueue_appt, bind, gets.
  destruct (ap_company_number a) as [t|]; [|apply officer_step_refl].
  destruct (String.eqb t "" || mem t (st_sc s)) eqn:E1; [apply officer_step_refl|].
  destruct (active_only && truthy (ap_resigned_on a)); [apply officer_step_refl|].
  destruct (active_only && negb (opt_eqb (ap_company_status a) "active"));
    [apply officer_step_refl|].
  apply orb_false_iff in E1 as [_ E1].
  simpl. repeat split; auto.
  - exists []. rewrite app_nil_r. auto.
  - exists [(t, d + 1)]. split; auto.
  - apply incl_refl.
Qed.

Lemma enqueue_appts_step appts : keeps (officer_step c d) (@enqueue_appts FS active_only d appts).
Proof.
  induction appts as [|a t IH]; simpl.
  - apply keeps_ret, officer_step_refl.
  - apply keeps_bind; [exact officer_step_trans | exact officer_step_refl
                      | apply enqueue_appt_step | intros _; exact IH].
Qed.

Lemma mark_officer_step o : keeps (officer_step c d) (@mark_officer FS o).
Proof. apply keeps_modify. intros s. apply officer_step_mark. Qed.

Lemma fan_out_step name oid :
  keeps (officer_step c d) (fan_out api active_only d name oid).
Proof.
  unfold fan_out.
  destruct (is_corporate name); [apply mark_officer_step|].
  apply keeps_bind; [exact officer_step_trans | exact officer_step_refl
                    | apply keeps_call; intros; apply officer_step_call | intro results].
  apply keeps_bind; [exact officer_step_trans | exact officer_step_refl | | intros _; apply mark_officer_step].
  keeps_split officer_step_trans officer_step_refl.
  - apply keeps_call; intros; apply officer_step_call.
  - apply enqueue_appts_step.
Qed.

Lemma process_officer_step profile o :
  keeps (officer_step c d) (process_officer api max_depth active_only c profile d o).
Proof.
  unfold process_officer.
  apply keeps_bind; [exact officer_step_trans | exact officer_step_refl | | intros _].
  - apply keeps_modify. intros s. simpl. repeat split; auto.
    + eexists. split; [reflexivity|]. repeat constructor.
    + exists []. rewrite app_nil_r. auto.
    + apply incl_refl.
  - keeps_split officer_step_trans officer_step_refl.
    apply fan_out_step.
Qed.

Lemma process_officers_step profile officers :
  keeps (officer_step c d) (process_officers api max_depth active_only c profile d officers).
Proof.
  induction officers as [|o t IH]; simpl.
  - apply keeps_ret, officer_step_refl.
  - apply keeps_bind; [exact officer_step_trans | exact officer_step_refl
                      | apply process_officer_step | intros _; exact IH].
Qed.

End OfficerFacts.

Section ExpandFacts.

Context {FS : Type} (api : Facade FS) (max_depth : Z) (active_only : bool).

Lemma try_ret_snd {A : Type} (m : @M FS A) (a : A) s :
  snd (try_catch m (fun _ => ret a) s) = snd (m s).
Proof. unfold try_catch. destruct (m s) as [[x|e] s']; reflexivity. Qed.

Lemma expand_cases c d (s : St FS) :
  expand_effect c d s (snd (expand api max_depth active_only c d s)).
Proof.
  unfold expand, bind at 1, call at 1.
  destruct (get_company_profile api c (st_fs s)) as [[profile|e] fs1]; simpl;
    [|left; auto].
  destruct (active_only && negb (opt_eqb (p_company_status profile) "active"));
    [left; simpl; auto|].
  unfold bind at 1, call at 1. simpl.
  destruct (get_officers api c fs1) as [[officers|e] fs2]; simpl; [|left; auto].
  unfold bind, modify. simpl.
  right.
  match goal with |- context [dict_set c ?r] => exists r end.
  match goal with |- context [process_officers _ _ _ _ _ _ _ ?s1] => exists s1 end.
  do 7 (split; [reflexivity|]).
  apply (process_officers_step api max_depth active_only c d).
Qed.

End ExpandFacts.

(** ** Lists as sets and dicts *)

Lemma mem_true_iff x l : mem x l = true <-> In x l.
Proof.
  unfold mem. rewrite existsb_exists. split.
  - intros [y [Hy E]]. apply String.eqb_eq in E. subst; auto.
  - intros H. exists x. split; auto. apply String.eqb_refl.
Qed.

Lemma mem_false_iff x l : mem x l = false <-> ~ In x l.
Proof.
  rewrite <- mem_true_iff. destruct (mem x l); split; intros H;
    try congruence; try tauto.
Qed.

Lemma set_add_new x l : mem x l = false -> set_add x l = l ++ [x].
Proof. unfold set_add. intros ->. reflexivity. Qed.

Lemma dict_set_new {V : Type} k (v : V) d :
  ~ In k (map fst d) -> dict_set k v d = d ++ [(k, v)].
Proof.
  induction d as [|[k' v'] t IH]; simpl; auto.
  intros H. destruct (String.eqb k k') eqn:E.
  - apply String.eqb_eq in E. subst. exfalso; auto.
  - rewrite IH; auto.
Qed.

Lemma dict_get_app_found {V : Type} k (v : V) d e :
  dict_get k d = Some v -> dict_get k (d ++ e) = Some v.
Proof.
  induction d as [|[k' v'] t IH]; simpl; [discriminate|].
  destruct (String.eqb k k'); auto.
Qed.

Lemma dict_get_app_new {V : Type} k (v : V) d :
  ~ In k (map fst d) -> dict_get k (d ++ [(k, v)]) = Some v.
Proof.
  induction d as [|[k' v'] t IH]; simpl.
  - rewrite String.eqb_refl. reflexivity.
  - intros H. destruct (String.eqb k k') eqn:E.
    + apply String.eqb_eq in E. subst. exfalso; auto.
    + apply IH. auto.
Qed.

Lemma dict_get_in_keys {V : Type} k (v : V) d :
  dict_get k d = Some v -> In k (map fst d).
Proof.
  induction d as [|[k' v'] t IH]; simpl; [discriminate|].
  destruct (String.eqb k k') eqn:E; auto.
  apply String.eqb_eq in E. auto.
Qed.

(** ** One iteration of the loop *)

Section IterFacts.

Context {FS : Type} (api : Facade FS) (max_depth max_companies : Z) (active_only : bool).


Lemma iter_skip (s : St FS) c d rest :
  st_queue s = (c, d) :: rest ->
  mem c (st_sc s) || (max_depth <? d) = true ->
  iter api max_depth active_only s = set_queue rest s.
Proof. intros Hq Hs. unfold iter. rewrite Hq. simpl. rewrite Hs. reflexivity. Qed.

Lemma iter_expand (s : St FS) c d rest :
  st_queue s = (c, d) :: rest ->
  mem c (st_sc s) || (max_depth <? d) = false ->
  iter api max_depth active_only s =
    snd (expand api max_depth active_only c d (set_queue rest s)).
Proof.
  intros Hq Hs. unfold iter. rewrite Hq. simpl. rewrite Hs.
  apply try_ret_snd.
Qed.

Lemma iter_progress (s : St FS) :
  loop_cond max_companies s = true ->
  (List.length (st_sc (iter api max_depth active_only s)) = List.length (st_sc s) /\
   (List.length (st_queue (iter api max_depth active_only s)) <
    List.length (st_queue s))%nat) \/
  List.length (st_sc (iter api max_depth active_only s)) = S (List.length (st_sc s)).
Proof.
  intros Hc. unfold loop_cond in Hc.
  destruct (st_queue s) as [|[c d] rest] eqn:Hq; [discriminate|].
  destruct (mem c (st_sc s) || (max_depth <? d)) eqn:Hs.
  - left. rewrite (iter_skip s c d rest Hq Hs). simpl. try rewrite Hq. simpl. lia.
  - rewrite (iter_expand s c d rest Hq Hs).
    apply orb_false_iff in Hs as [Hm _].
    destruct (expand_cases api max_depth active_only c d (set_queue rest s))
      as [[_ [Hq' [Hsc _]]] | [rec [s1 [_ [_ [_ [_ [Hsc1 [_ [_ [_ [Hsc' _]]]]]]]]]]]].
    + left. rewrite Hq', Hsc. simpl. try rewrite Hq. simpl. lia.
    + right. rewrite Hsc', Hsc1. simpl. rewrite set_add_new by exact Hm.
      rewrite length_app. simpl. lia.
Qed.

End IterFacts.

(** ** Termination and fuel *)

Section LoopFacts.

Context {FS : Type} (api : Facade FS) (max_depth max_companies : Z) (active_only : bool).

Lemma scan_loop_more_fuel fuel (s s' : St FS) k :
  scan_loop api max_depth max_companies active_only fuel s = Some s' ->
  scan_loop api max_depth max_companies active_only (fuel + k) s = Some s'.
Proof.
  revert s. induction fuel as [|f IH]; intros s H; simpl in *.
  - destruct (loop_cond max_companies s) eqn:Hc; [discriminate|].
    destruct k; simpl; rewrite Hc; exact H.
  - destruct (loop_cond max_companies s); auto.
Qed.

Lemma scan_loop_terminates (s : St FS) :
  exists fuel s', scan_loop api max_depth max_companies active_only fuel s = Some s'.
Proof.
  remember (Z.to_nat (max_companies - Z.of_nat (List.length (st_sc s)))) as n eqn:Hn.
  revert s Hn. induction n as [n IHn] using lt_wf_ind. intros s Hn.
  remember (List.length (st_queue s)) as m eqn:Hm.
  revert s Hn Hm. induction m as [m IHm] using lt_wf_ind. intros s Hn Hm.
  destruct (loop_cond max_companies s) eqn:Hc.
  - assert (Hlt : Z.of_nat (List.length (st_sc s)) < max_companies).
    { unfold loop_cond in Hc. destruct (st_queue s); [discriminate|]. lia. }
    destruct (iter_progress api max_depth max_companies active_only s Hc)
      as [[Hsc Hq] | Hsc].
    + assert (Hlt' : (List.length (st_queue (iter api max_depth active_only s)) < m)%nat)
        by (rewrite Hm; exact Hq).
      destruct (IHm _ Hlt' (iter api max_depth active_only s))
        as [fuel [s' H]]; [rewrite Hsc; exact Hn | reflexivity |].
      exists (S fuel), s'. simpl. rewrite Hc. exact H.
    + destruct (IHn (Z.to_nat (max_companies -
                  Z.of_nat (List.length (st_sc (iter api max_depth active_only s))))))
        with (s := iter api max_depth active_only s) as [fuel [s' H]];
        [rewrite Hsc, Hn; lia | reflexivity |].
      exists (S fuel), s'. simpl. rewrite Hc. exact H.
  - exists O, s. simpl. rewrite Hc. reflexivity.
Qed.

Lemma scan_loop_reach s0 fuel (s s' : St FS) :
  Reach api max_depth max_companies active_only s0 s ->
  scan_loop api max_depth max_companies active_only fuel s = Some s' ->
  Reach api max_depth max_companies active_only s0 s' /\ loop_cond max_companies s' = false.
Proof.
  revert s. induction fuel as [|f IH]; intros s Hr H; simpl in H.
  - destruct (loop_cond max_companies s) eqn:Hc; [discriminate|].
    injection H as <-. auto.
  - destruct (loop_cond max_companies s) eqn:Hc.
    + apply (IH _ (reach_step _ _ _ _ _ _ Hr Hc) H).
    + injection H as <-. auto.
Qed.

Lemma basic_inv_init (self : Scanner FS) seeds :
  basic_inv max_companies (initial_state self seeds max_depth).
Proof.
  repeat split; simpl; try constructor.
  - intros x [].
  - lia.
Qed.

Lemma basic_inv_iter (s : St FS) :
  basic_inv max_companies s -> loop_cond max_companies s = true ->
  basic_inv max_companies (iter api max_depth active_only s).
Proof.
  intros [Hk [Hnd [Hcc Hlen]]] Hc.
  assert (Hlt : Z.of_nat (List.length (st_sc s)) < max_companies).
  { unfold loop_cond in Hc. destruct (st_queue s); [discriminate|]. lia. }
  unfold loop_cond in Hc.
  destruct (st_queue s) as [|[c d] rest] eqn:Hq; [discriminate|].
  destruct (mem c (st_sc s) || (max_depth <? d)) eqn:Hs.
  - rewrite (iter_skip api max_depth active_only s c d rest Hq Hs).
    repeat split; auto.
  - rewrite (iter_expand api max_depth active_only s c d rest Hq Hs).
    apply orb_false_iff in Hs as [Hm _].
    destruct (expand_cases api max_depth active_only c d (set_queue rest s))
      as [[Hn [_ [Hsc _]]] | [rec [s1 [Hd [_ [Hco1 [Hcn1 [Hsc1 [_ [_ Hstep]]]]]]]]]].
    + unfold basic_inv, keys_are_scanned, connections_consistent in *.
      rewrite Hn, Hsc. simpl. auto.
    + destruct Hstep as [Hco [Hsc [[cs [Hcn Hcs]] _]]].
      simpl in *.
      assert (Hnk : ~ In c (map fst (n_companies (st_net s)))).
      { unfold keys_are_scanned in Hk. rewrite Hk. apply mem_false_iff. exact Hm. }
      rewrite dict_set_new in Hco1 by exact Hnk.
      rewrite set_add_new in Hsc1 by exact Hm.
      unfold basic_inv, keys_are_scanned, connections_consistent in *.
      repeat split.
      * rewrite Hco, Hco1, Hsc, Hsc1, map_app, Hk. reflexivity.
      * rewrite Hsc, Hsc1. apply NoDup_app; auto.
        -- repeat constructor. intros [].
        -- intros x Hx [<- | []]. apply mem_false_iff in Hm. auto.
      * intros x Hx. rewrite Hcn, Hcn1 in Hx. rewrite Hco, Hco1.
        apply in_app_or in Hx as [Hx | Hx].
        -- destruct (Hcc x Hx) as [r [Hr Hrd]]. exists r.
           split; auto. apply dict_get_app_found. exact Hr.
        -- rewrite Forall_forall in Hcs. destruct (Hcs x Hx) as [Hxc Hxd].
           exists rec. rewrite Hxc. split; [|congruence].
           apply dict_get_app_new. exact Hnk.
      * rewrite Hsc, Hsc1, length_app. simpl. lia.
Qed.

Lemma basic_inv_reach (self : Scanner FS) seeds (s : St FS) :
  Reach api max_depth max_companies active_only (initial_state self seeds max_depth) s ->
  basic_inv max_companies s.
Proof.
  induction 1.
  - apply basic_inv_init.
  - apply basic_inv_iter; auto.
Qed.

End LoopFacts.

Section RunFacts.

Context {FS : Type} (api : Facade FS) (max_depth max_companies : Z) (active_only : bool).

Lemma expand_records c d (s : St FS) profile fs1 officers fs2 :
  get_company_profile api c (st_fs s) = (Ok profile, fs1) ->
  (active_only = true -> opt_eqb (p_company_status profile) "active" = true) ->
  get_officers api c fs1 = (Ok officers, fs2) ->
  exists rec s1,
     cr_depth rec = d /\ cr_company_number rec = c /\
     n_companies (st_net s1) = dict_set c rec (n_companies (st_net s)) /\
     n_connections (st_net s1) = n_connections (st_net s) /\
     st_sc s1 = set_add c (st_sc s) /\ st_queue s1 = st_queue s /\
     st_so s1 = st_so s /\
     officer_step c d s1 (snd (expand api max_depth active_only c d s)).
Proof.
  intros Hp Ha Ho.
  unfold expand, bind at 1, call at 1. rewrite Hp. simpl.
  replace (active_only && negb (opt_eqb (p_company_status profile) "active")) with false
    by (destruct active_only; simpl; [rewrite Ha by reflexivity|]; reflexivity).
  unfold bind at 1, call at 1. simpl. rewrite Ho. simpl.
  unfold bind, modify. simpl.
  match goal with |- context [dict_set c ?r] => exists r end.
  match goal with |- context [process_officers _ _ _ _ _ _ _ ?s1] => exists s1 end.
  do 7 (split; [reflexivity|]).
  apply (process_officers_step api max_depth active_only c d).
Qed.

Lemma scan_network_final (self : Scanner FS) seeds fuel net self' :
  scan_network api self seeds max_depth max_companies active_only fuel = Some (net, self') ->
  exists sf,
    scan_loop api max_depth max_companies active_only fuel
      (initial_state self seeds max_depth) = Some sf /\
    Reach api max_depth max_companies active_only (initial_state self seeds max_depth) sf /\
    net = finalize (st_net sf) /\ self' = mkScanner (st_fs sf) (st_sc sf) (st_so sf).
Proof.
  unfold scan_network.
  destruct (scan_loop api max_depth max_companies active_only fuel
              (initial_state self seeds max_depth)) as [sf|] eqn:E; [|discriminate].
  intros H. injection H as <- <-. exists sf. split; auto. split; auto.
  apply (scan_loop_reach api max_depth max_companies active_only _ fuel _ _
           (reach_init _ _ _ _ _) E).
Qed.

End RunFacts.

(* ------------------------------------------------------------------ *)
(** ** The crawl: claims over every client *)

(** C9: in every snapshot returned by [scan_network], every connection names
    a company of the companies map and carries the depth stored for it. *)
Theorem C9_connections_match_companies {FS : Type} (api : Facade FS) (self : Scanner FS)
  seeds max_depth max_companies active_only fuel net self' :
  scan_network api self seeds max_depth max_companies active_only fuel = Some (net, self') ->
  forall x, In x (n_connections net) ->
    exists rec, dict_get (c_company_number x) (n_companies net) = Some rec /\
                cr_depth rec = c_depth x.
Proof.
  intros H. destruct (scan_network_final api max_depth max_companies active_only
                        self seeds fuel net self' H) as [sf [_ [Hr [-> _]]]].
  destruct (basic_inv_reach api max_depth max_companies active_only self seeds sf Hr)
    as [_ [_ [Hcc _]]].
  exact Hcc.
Qed.

(** C10: [scan_network] resets both tracking sets, so two calls with equal
    arguments on instances that differ only in the sets left by earlier
    calls, with the client in the same state, return the same result. *)
Theorem C10_independent_of_previous_calls {FS : Type} (api : Facade FS) (fs : FS)
  sc1 so1 sc2 so2 seeds max_depth max_companies active_only fuel :
  scan_network api (mkScanner fs sc1 so1) seeds max_depth max_companies active_only fuel =
  scan_network api (mkScanner fs sc2 so2) seeds max_depth max_companies active_only fuel.
Proof. reflexivity. Qed.

(** C4 (amended): at every iteration boundary and in the returned snapshot
    the companies map has at most [max(max_companies, 0)] entries; with
    [max_companies = 1] and a first seed whose profile (active, when
    [active_only]) and officers are fetched, the snapshot holds exactly that
    seed and the second seed is still at the head of the frontier, never
    dequeued. *)
Theorem C4_companies_capped {FS : Type} (api : Facade FS) (self : Scanner FS)
  seeds max_depth max_companies active_only :
  (forall s,
     Reach api max_depth max_companies active_only (initial_state self seeds max_depth) s ->
     Z.of_nat (List.length (n_companies (st_net s))) <= Z.max 0 max_companies) /\
  (forall fuel net self',
     scan_network api self seeds max_depth max_companies active_only fuel = Some (net, self') ->
     Z.of_nat (List.length (n_companies net)) <= Z.max 0 max_companies) /\
  (forall s1 s2 profile fs1 officers fs2 fuel sf,
     0 <= max_depth ->
     get_company_profile api s1 (api_state self) = (Ok profile, fs1) ->
     (active_only = true -> opt_eqb (p_company_status profile) "active" = true) ->
     get_officers api s1 fs1 = (Ok officers, fs2) ->
     scan_loop api max_depth 1 active_only fuel (initial_state self [s1; s2] max_depth)
       = Some sf ->
     map fst (n_companies (st_net sf)) = [s1] /\ hd_error (st_queue sf) = Some (s2, 0)).
Proof.
  assert (Hlen : forall s,
     Reach api max_depth max_companies active_only (initial_state self seeds max_depth) s ->
     Z.of_nat (List.length (n_companies (st_net s))) <= Z.max 0 max_companies).
  { intros s Hr.
    destruct (basic_inv_reach api max_depth max_companies active_only self seeds s Hr)
      as [Hk [_ [_ Hl]]].
    unfold keys_are_scanned in Hk. rewrite <- (length_map fst), Hk. exact Hl. }
  split; [exact Hlen|]. split.
  - intros fuel net self' H.
    destruct (scan_network_final api max_depth max_companies active_only
                self seeds fuel net self' H) as [sf [_ [Hr [-> _]]]].
    apply Hlen. exact Hr.
  - intros s1 s2 profile fs1 officers fs2 fuel sf Hd Hp Ha Ho Hrun.
    set (s0 := initial_state self [s1; s2] max_depth) in *.
    destruct fuel as [|f]; [discriminate|].
    simpl in Hrun. change (loop_cond 1 s0) with true in Hrun.
    assert (Hs : mem s1 (st_sc s0) || (max_depth <? 0) = false).
    { simpl. apply Z.ltb_ge. exact Hd. }
    pose proof (iter_expand api max_depth active_only s0 s1 0 [(s2, 0)] eq_refl Hs) as Hi.
    destruct (expand_records api max_depth active_only s1 0 (set_queue [(s2, 0)] s0)
                profile fs1 officers fs2 Hp Ha Ho)
      as [rec [m [_ [_ [Hco [_ [Hsc [Hq [_ [Hco' [Hsc' [_ [[q [Hq' _]] _]]]]]]]]]]]]].
    rewrite <- Hi in Hco', Hsc', Hq'.
    assert (Hsf : scan_loop api max_depth 1 active_only f
                    (iter api max_depth active_only s0) =
                  Some (iter api max_depth active_only s0)).
    { assert (Hc1 : loop_cond 1 (iter api max_depth active_only s0) = false).
      { unfold loop_cond. rewrite Hsc', Hsc. simpl.
        destruct (st_queue (iter api max_depth active_only s0)); reflexivity. }
      destruct f; simpl; rewrite Hc1; reflexivity. }
    rewrite Hsf in Hrun. injection Hrun as <-.
    rewrite Hco', Hco, Hq', Hq. simpl. split; reflexivity.
Qed.

(** C3 (amended): at every iteration boundary the keys of the companies map
    are exactly [scanned_companies] and have no duplicates, so a node is
    recorded at most once; an item whose id is already scanned is dropped
    with no client call and no other change; a recorded node is never
    modified by a later iteration.  (A company that is skipped as inactive
    or whose fetch fails is not scanned, and is fetched again when dequeued
    again: see [C3_refetch_after_failure].) *)
Theorem C3_node_recorded_at_most_once {FS : Type} (api : Facade FS) (self : Scanner FS)
  seeds max_depth max_companies active_only s :
  Reach api max_depth max_companies active_only (initial_state self seeds max_depth) s ->
  map fst (n_companies (st_net s)) = st_sc s /\
  NoDup (map fst (n_companies (st_net s))) /\
  (forall c d rest, st_queue s = (c, d) :: rest -> mem c (st_sc s) = true ->
     iter api max_depth active_only s = set_queue rest s) /\
  (forall c rec, dict_get c (n_companies (st_net s)) = Some rec ->
     dict_get c (n_companies (st_net (iter api max_depth active_only s))) = Some rec).
Proof.
  intros Hr.
  destruct (basic_inv_reach api max_depth max_companies active_only self seeds s Hr)
    as [Hk [Hnd _]].
  unfold keys_are_scanned in Hk.
  split; [exact Hk|]. split; [rewrite Hk; exact Hnd|]. split.
  - intros c d rest Hq Hm. apply (iter_skip api max_depth active_only s c d rest Hq).
    rewrite Hm. reflexivity.
  - intros c rec Hg. unfold iter.
    destruct (st_queue s) as [|[c' d] rest] eqn:Hq; [exact Hg|].
    change (st_sc (set_queue rest s)) with (st_sc s).
    destruct (mem c' (st_sc s) || (max_depth <? d)) eqn:Hs; [exact Hg|].
    rewrite try_ret_snd.
    apply orb_false_iff in Hs as [Hm _].
    destruct (expand_cases api max_depth active_only c' d (set_queue rest s))
      as [[Hn _] | [r [s1 [_ [_ [Hco1 [_ [_ [_ [_ [Hco _]]]]]]]]]]].
    + rewrite Hn. exact Hg.
    + rewrite Hco, Hco1. simpl.
      rewrite dict_set_new by (rewrite Hk; apply mem_false_iff; exact Hm).
      apply dict_get_app_found. exact Hg.
Qed.

(** C5: [scan_network] always returns a snapshot (the loop terminates, and
    more fuel gives the same result); a company whose profile or officer
    request raises is consumed with no effect but the client's; an officer
    whose search raises, or whose appointment lookup raises, contributes
    nothing to the network or the frontier. *)
Theorem C5_crawl_never_raises {FS : Type} (api : Facade FS) (self : Scanner FS)
  seeds max_depth max_companies active_only :
  (exists fuel r,
     scan_network api self seeds max_depth max_companies active_only fuel = Some r) /\
  (forall fuel k r,
     scan_network api self seeds max_depth max_companies active_only fuel = Some r ->
     scan_network api self seeds max_depth max_companies active_only (fuel + k) = Some r) /\
  (forall (s : St FS) c d rest e fs',
     st_queue s = (c, d) :: rest -> mem c (st_sc s) || (max_depth <? d) = false ->
     (get_company_profile api c (st_fs s) = (Err e, fs') \/
      exists profile fs1,
        get_company_profile api c (st_fs s) = (Ok profile, fs1) /\
        (active_only = true -> opt_eqb (p_company_status profile) "active" = true) /\
        get_officers api c fs1 = (Err e, fs')) ->
     iter api max_depth active_only s = mkSt (st_net s) rest (st_sc s) (st_so s) fs') /\
  (forall (s : St FS) d officer_name officer_id e fs',
     is_corporate officer_name = false ->
     search_officers api officer_name (st_fs s) = (Err e, fs') ->
     snd (try_catch (fan_out api active_only d officer_name officer_id) (fun _ => ret tt) s)
       = mkSt (st_net s) (st_queue s) (st_sc s) (st_so s) fs') /\
  (forall (s : St FS) d officer_name officer_id results bm officer_api_id e fs1 fs2,
     is_corporate officer_name = false ->
     search_officers api officer_name (st_fs s) = (Ok results, fs1) ->
     results <> [] -> best_match officer_name results = Some bm ->
     sr_self bm <> ""%string ->
     penultimate (split_slash (sr_self bm)) = Ok officer_api_id ->
     get_officer_appointments api officer_api_id fs1 = (Err e, fs2) ->
     snd (try_catch (fan_out api active_only d officer_name officer_id) (fun _ => ret tt) s)
       = mkSt (st_net s) (st_queue s) (st_sc s) (set_add officer_id (st_so s)) fs2).
Proof.
  split; [|split; [|split; [|split]]].
  - destruct (scan_loop_terminates api max_depth max_companies active_only
                (initial_state self seeds max_depth)) as [fuel [s' H]].
    exists fuel. unfold scan_network. rewrite H. eexists. reflexivity.
  - intros fuel k r. unfold scan_network.
    destruct (scan_loop api max_depth max_companies active_only fuel
                (initial_state self seeds max_depth)) eqn:E; [|discriminate].
    rewrite (scan_loop_more_fuel api max_depth max_companies active_only _ _ _ k E).
    auto.
  - intros s c d rest e fs' Hq Hs Hf.
    rewrite (iter_expand api max_depth active_only s c d rest Hq Hs).
    unfold expand, bind at 1, call at 1. simpl.
    destruct Hf as [Hp | [profile [fs1 [Hp [Ha Ho]]]]]; rewrite Hp; [reflexivity|].
    simpl.
    replace (active_only && negb (opt_eqb (p_company_status profile) "active")) with false
      by (destruct active_only; simpl; [rewrite Ha by reflexivity|]; reflexivity).
    unfold bind at 1, call at 1. simpl. rewrite Ho. reflexivity.
  - intros s d officer_name officer_id e fs' Hc Hsr.
    rewrite try_ret_snd. unfold fan_out. rewrite Hc.
    unfold bind at 1, call at 1. rewrite Hsr. reflexivity.
  - intros s d officer_name officer_id results bm officer_api_id e fs1 fs2
      Hc Hsr Hne Hb Hl Hpen Ha.
    rewrite try_ret_snd. unfold fan_out. rewrite Hc.
    unfold bind at 1, call at 1. rewrite Hsr. simpl.
    destruct results as [|r0 rs]; [congruence|].
    rewrite Hb. destruct (String.eqb (sr_self bm) "") eqn:E.
    { apply String.eqb_eq in E. congruence. }
    unfold bind at 1, lift_res. rewrite Hpen. simpl.
    unfold try_catch, bind at 1. unfold bind at 1, call at 1. simpl. rewrite Ha. simpl.
    reflexivity.
Qed.

(** ** The best match of an officer search *)

Lemma nth_error_firstn_lt {A : Type} (l : list A) n i :
  (i < n)%nat -> nth_error (firstn n l) i = nth_error l i.
Proof.
  revert n i. induction l as [|x t IH]; intros n i Hi.
  - destruct n; reflexivity.
  - destruct n as [|n]; [lia|]. destruct i as [|i]; simpl; auto.
    apply IH. lia.
Qed.

Lemma nth_error_firstn_some {A : Type} (l : list A) n i x :
  nth_error (firstn n l) i = Some x -> (i < n)%nat /\ nth_error l i = Some x.
Proof.
  revert n i. induction l as [|y t IH]; intros n i H.
  - destruct n; destruct i; discriminate.
  - destruct n as [|n]; [destruct i; discriminate|].
    destruct i as [|i]; simpl in *.
    + split; [lia | exact H].
    + destruct (IH n i H). split; [lia | auto].
Qed.

Lemma find_exact_first officer_name rs i r :
  nth_error rs i = Some r -> upper (sr_title r) = upper officer_name ->
  (forall j r', (j < i)%nat -> nth_error rs j = Some r' ->
     upper (sr_title r') <> upper officer_name) ->
  find_exact officer_name rs = Some r.
Proof.
  revert i. induction rs as [|x t IH]; intros i Hi Hm Hb; [destruct i; discriminate|].
  simpl. destruct i as [|i].
  - injection Hi as ->. rewrite Hm, String.eqb_refl. reflexivity.
  - destruct (String.eqb (upper (sr_title x)) (upper officer_name)) eqn:E.
    + apply String.eqb_eq in E. exfalso. apply (Hb 0%nat x); auto. lia.
    + apply (IH i Hi Hm). intros j r' Hj Hr'. apply (Hb (S j)); auto. lia.
Qed.

Lemma find_exact_none officer_name rs :
  (forall i r, nth_error rs i = Some r -> upper (sr_title r) <> upper officer_name) ->
  find_exact officer_name rs = None.
Proof.
  induction rs as [|x t IH]; intros H; simpl; auto.
  destruct (String.eqb (upper (sr_title x)) (upper officer_name)) eqn:E.
  - apply String.eqb_eq in E. exfalso. apply (H 0%nat x); auto.
  - apply IH. intros i r Hr. apply (H (S i)). exact Hr.
Qed.

(** C6 (amended): for a non-empty result list, the best match is the first
    of the top five results whose title equals the officer's name
    upper-cased, when there is one, and otherwise the first result. *)
Theorem C6_best_match_in_top_five officer_name officer_results :
  officer_results <> [] ->
  (forall i r, (i < 5)%nat -> nth_error officer_results i = Some r ->
     upper (sr_title r) = upper officer_name ->
     (forall j r', (j < i)%nat -> nth_error officer_results j = Some r' ->
        upper (sr_title r') <> upper officer_name) ->
     best_match officer_name officer_results = Some r) /\
  ((forall i r, (i < 5)%nat -> nth_error officer_results i = Some r ->
      upper (sr_title r) <> upper officer_name) ->
   best_match officer_name officer_results = hd_error officer_results).
Proof.
  intros _. split.
  - intros i r Hi Hr Hm Hb. unfold best_match.
    rewrite (find_exact_first officer_name (firstn 5 officer_results) i r);
      [reflexivity | rewrite nth_error_firstn_lt; auto | exact Hm |].
    intros j r' Hj Hr'. apply (Hb j r' Hj).
    rewrite <- (nth_error_firstn_lt officer_results 5 j); [exact Hr' | lia].
  - intros H. unfold best_match.
    rewrite find_exact_none; [reflexivity|].
    intros i r Hr. apply nth_error_firstn_some in Hr as [Hi Hr].
    apply (H i r Hi Hr).
Qed.

(** ** Clusters *)

Lemma fold_left_inv {A B : Type} (P : A -> Prop) (f : A -> B -> A) (l : list B) (a : A) :
  P a -> (forall acc x, In x l -> P acc -> P (f acc x)) -> P (fold_left f l a).
Proof.
  revert a. induction l as [|x t IH]; intros a Ha Hf; simpl; auto.
  apply IH; [apply Hf; simpl; auto | intros acc y Hy; apply Hf; simpl; auto].
Qed.

Lemma dict_get_set {V : Type} x a (v : V) g :
  dict_get x (dict_set a v g) = if String.eqb x a then Some v else dict_get x g.
Proof.
  induction g as [|[k' v'] t IH]; simpl.
  - destruct (String.eqb x a); reflexivity.
  - destruct (String.eqb_spec a k') as [->|Hne]; simpl.
    + destruct (String.eqb x k'); reflexivity.
    + rewrite IH. destruct (String.eqb_spec x a) as [->|Hxa]; auto.
      destruct (String.eqb_spec a k'); [contradiction | reflexivity].
Qed.

Lemma in_set_add y b l : In y (set_add b l) <-> y = b \/ In y l.
Proof.
  unfold set_add. destruct (mem b l) eqn:E.
  - apply mem_true_iff in E. split; [auto|]. intros [->|H]; auto.
  - rewrite in_app_iff. simpl. split; intros [H|H]; auto; try tauto.
    destruct H as [H|[]]; auto.
Qed.

Lemma neighbours_graph_add g a b x :
  neighbours (graph_add g a b) x =
  if String.eqb x a then set_add b (neighbours g a) else neighbours g x.
Proof.
  unfold graph_add, neighbours.
  destruct (dict_get a g); rewrite dict_get_set; destruct (String.eqb x a); auto.
Qed.

Lemma build_graph_sound connections a b :
  In b (neighbours (build_graph connections) a) -> shares_director connections a b.
Proof.
  unfold build_graph.
  apply (fold_left_inv (fun g => forall a b, In b (neighbours g a) ->
                                   shares_director connections a b)).
  - intros a' b' H. unfold neighbours in H. simpl in H. destruct H.
  - intros g conn Hconn Hg.
    apply fold_left_inv; auto.
    intros g' related Hrel Hg'.
    destruct (String.eqb related (c_company_number conn)); auto.
    intros a' b' H. rewrite neighbours_graph_add in H.
    destruct (String.eqb_spec a' (c_company_number conn)) as [->|Hne]; auto.
    apply in_set_add in H as [->|H]; auto.
    apply in_map_iff in Hrel as [y [Hy Hyin]].
    apply filter_In in Hyin as [Hyin Hd]. apply String.eqb_eq in Hd.
    exists conn, y. repeat split; auto.
Qed.

Lemma connected_sym connections a b :
  connected connections a b -> connected connections b a.
Proof.
  induction 1.
  - destruct H as [u [v [Hu [Hv [Hua [Hvb Huv]]]]]].
    apply Relation_Operators.rt_step. exists v, u. repeat split; auto.
  - apply Relation_Operators.rt_refl.
  - eapply Relation_Operators.rt_trans; eauto.
Qed.

Section DfsFacts.

Context (order : list string -> list string).
Hypothesis order_elems : forall l x, In x (order l) <-> In x l.
Context (g : list (string * list string)).

Lemma dfs_extends fuel node visited cluster :
  exists new, snd (dfs order g fuel node visited cluster) = cluster ++ new /\
    forall x, In x new -> Relation_Operators.clos_refl_trans string (graph_step g) node x.
Proof.
  revert node visited cluster. induction fuel as [|f IH]; intros node visited cluster.
  - exists []. rewrite app_nil_r. split; auto. intros x [].
  - simpl.
    apply (fold_left_inv (fun acc => exists new, snd acc = cluster ++ new /\
             forall x, In x new -> Relation_Operators.clos_refl_trans string (graph_step g) node x)).
    + exists [node]. split; auto. intros x [<-|[]]. apply Relation_Operators.rt_refl.
    + intros [vis cl] nb Hnb [new [Hcl Hnew]]. simpl in Hcl.
      destruct (mem nb vis); [exists new; auto|].
      destruct (IH nb vis cl) as [new2 [Hcl2 Hnew2]].
      exists (new ++ new2). rewrite Hcl2, Hcl, app_assoc. split; auto.
      intros x Hx. apply in_app_or in Hx as [Hx|Hx]; auto.
      eapply Relation_Operators.rt_trans; [|apply Hnew2; exact Hx].
      apply Relation_Operators.rt_step. unfold graph_step.
      apply order_elems. exact Hnb.
Qed.

End DfsFacts.

Lemma graph_steps_connected connections a b :
  Relation_Operators.clos_refl_trans string (graph_step (build_graph connections)) a b ->
  connected connections a b.
Proof.
  induction 1.
  - apply Relation_Operators.rt_step. apply build_graph_sound. exact H.
  - apply Relation_Operators.rt_refl.
  - eapply Relation_Operators.rt_trans; eauto.
Qed.

Lemma discover_clusters_sound order network :
  (forall l x, In x (order l) <-> In x l) ->
  forall cl, In cl (discover_clusters order network) ->
    (2 <= List.length cl)%nat /\
    forall a b, In a cl -> In b cl -> connected (n_connections network) a b.
Proof.
  intros Horder. unfold discover_clusters.
  pattern (fold_left
    (fun '(visited, clusters) company =>
       if mem company visited then (visited, clusters)
       else let '(visited', cluster) :=
              dfs order (build_graph (n_connections network))
                (S (List.length (n_companies network) + List.length (n_connections network)))
                company visited [] in
            if (1 <? List.length cluster)%nat then (visited', clusters ++ [cluster])
            else (visited', clusters))
    (map fst (n_companies network)) ([], [])).
  apply fold_left_inv.
  - intros cl [].
  - intros [vis cls] company _ Hcls. simpl in Hcls.
    destruct (mem company vis); [exact Hcls|].
    destruct (dfs_extends order Horder (build_graph (n_connections network))
                (S (List.length (n_companies network) + List.length (n_connections network)))
                company vis []) as [new [Hnew Hreach]].
    destruct (dfs order _ _ company vis []) as [vis' cluster]. simpl in Hnew. subst cluster.
    destruct (1 <? List.length new)%nat eqn:Hlen; simpl; auto.
    intros cl Hcl. apply in_app_or in Hcl as [Hcl|[<-|[]]]; auto.
    apply Nat.ltb_lt in Hlen. split; [lia|].
    intros a b Ha Hb.
    eapply Relation_Operators.rt_trans.
    + apply connected_sym. apply graph_steps_connected. apply Hreach. exact Ha.
    + apply graph_steps_connected. apply Hreach. exact Hb.
Qed.

Lemma insert_by_len_perm x l : Permutation (insert_by_len x l) (x :: l).
Proof.
  induction l as [|y t IH]; simpl; auto.
  destruct (List.length y <? List.length x)%nat; auto.
  eapply perm_trans; [apply perm_skip; exact IH|]. apply perm_swap.
Qed.

Lemma insert_by_len_sorted x l :
  Sorted longer_or_equal l -> Sorted longer_or_equal (insert_by_len x l).
Proof.
  induction 1 as [|y t Ht IH Hhd]; simpl.
  - auto.
  - destruct (List.length y <? List.length x)%nat eqn:E.
    + apply Nat.ltb_lt in E. constructor; [constructor; auto|].
      constructor. unfold longer_or_equal. lia.
    + apply Nat.ltb_ge in E. constructor; auto.
      destruct t as [|z t']; simpl.
      * constructor. unfold longer_or_equal. lia.
      * inversion Hhd; subst.
        destruct (List.length z <? List.length x)%nat; constructor;
          unfold longer_or_equal in *; lia.
Qed.

Lemma filter_of_len_short k l :
  Forall (fun z => (List.length z < k)%nat) l -> filter (of_len k) l = [].
Proof.
  induction 1; simpl; auto. unfold of_len.
  destruct (Nat.eqb_spec (List.length x) k); [lia | auto].
Qed.

Lemma insert_by_len_filter k x l :
  Sorted longer_or_equal l ->
  filter (of_len k) (insert_by_len x l) =
  filter (of_len k) l ++ (if of_len k x then [x] else []).
Proof.
  intros Hs. induction l as [|y t IH].
  - simpl. destruct (of_len k x); reflexivity.
  - assert (Hst : StronglySorted longer_or_equal (y :: t)).
    { apply Sorted_StronglySorted; auto. unfold Relations_1.Transitive, longer_or_equal. lia. }
    destruct (List.length y <? List.length x)%nat eqn:E.
    + apply Nat.ltb_lt in E. cbn [insert_by_len]. rewrite (proj2 (Nat.ltb_lt _ _) E).
      change (filter (of_len k) (x :: y :: t)) with
        (if of_len k x then x :: filter (of_len k) (y :: t) else filter (of_len k) (y :: t)).
      destruct (of_len k x) eqn:Hx.
      * unfold of_len in Hx. apply Nat.eqb_eq in Hx.
        rewrite (filter_of_len_short k (y :: t)); [reflexivity|].
        inversion Hst; subst. constructor; [lia|].
        eapply Forall_impl; [|eassumption]. unfold longer_or_equal. simpl. intros; lia.
      * rewrite app_nil_r. reflexivity.
    + cbn [insert_by_len]. rewrite E. simpl. inversion Hs; subst. rewrite IH; auto.
      destruct (of_len k y); reflexivity.
Qed.

Lemma sort_by_len_desc_props l :
  Sorted longer_or_equal (sort_by_len_desc l) /\
  Permutation (sort_by_len_desc l) l /\
  forall k, filter (of_len k) (sort_by_len_desc l) = filter (of_len k) l.
Proof.
  unfold sort_by_len_desc.
  assert (H : forall acc, Sorted longer_or_equal acc ->
    Sorted longer_or_equal (fold_left (fun acc x => insert_by_len x acc) l acc) /\
    Permutation (fold_left (fun acc x => insert_by_len x acc) l acc) (acc ++ l) /\
    forall k, filter (of_len k) (fold_left (fun acc x => insert_by_len x acc) l acc) =
              filter (of_len k) acc ++ filter (of_len k) l).
  { induction l as [|x t IH]; intros acc Hacc; simpl.
    - rewrite !app_nil_r. repeat split; auto. intros k. simpl. rewrite app_nil_r. reflexivity.
    - destruct (IH (insert_by_len x acc)) as [H1 [H2 H3]];
        [apply insert_by_len_sorted; auto|].
      repeat split; auto.
      + eapply perm_trans; [exact H2|].
        eapply perm_trans; [apply Permutation_app_tail, insert_by_len_perm|].
        simpl. apply Permutation_middle.
      + intros k. rewrite H3, insert_by_len_filter; auto.
        rewrite <- app_assoc. destruct (of_len k x); reflexivity. }
  destruct (H [] (Sorted_nil _)) as [H1 [H2 H3]]. auto.
Qed.

(** C8: for every snapshot and any iteration order of the neighbour sets,
    every cluster returned by [find_company_clusters] has at least two
    companies, any two companies of one cluster are linked by a chain of the
    shared-director adjacency, and the list is sorted by non-increasing size,
    is a permutation of the clusters in discovery order, and keeps the
    clusters of each size in discovery order. *)
Theorem C8_clusters_sorted_and_connected order network
  (Horder : forall l x, In x (order l) <-> In x l) :
  let clusters := find_company_clusters order network in
  (forall cl, In cl clusters ->
     (2 <= List.length cl)%nat /\
     forall a b, In a cl -> In b cl -> connected (n_connections network) a b) /\
  Sorted (fun x y => (List.length y <= List.length x)%nat) clusters /\
  Permutation clusters (discover_clusters order network) /\
  (forall k, filter (fun cl => Nat.eqb (List.length cl) k) clusters =
             filter (fun cl => Nat.eqb (List.length cl) k) (discover_clusters order network)).
Proof.
  intros clusters. unfold clusters, find_company_clusters.
  destruct (sort_by_len_desc_props (discover_clusters order network)) as [Hs [Hp Hf]].
  split; [|split; [exact Hs | split; [exact Hp | exact Hf]]].
  intros c0 Hc0. apply (discover_clusters_sound order network Horder).
  eapply Permutation_in; [exact Hp | exact Hc0].
Qed.

(* ------------------------------------------------------------------ *)
(** ** Breadth-first order with a stateless client *)

Section EnqueueFacts.

Context {FS : Type} (active_only : bool) (d : Z).

Lemma enqueue_appt_spec a (s : St FS) :
  exists q,
    enqueue_appt active_only d a s = (Ok tt, set_queue (st_queue s ++ q) s) /\
    (forall x, In x q -> snd x = d + 1 /\ appt_target active_only a (fst x)) /\
    (forall t, appt_target active_only a t -> In (t, d + 1) q \/ mem t (st_sc s) = true).
Proof.
  destruct s as [net q0 sc so fs]. unfold enqueue_appt, bind, gets. simpl.
  destruct (ap_company_number a) as [t|] eqn:Hn.
  2:{ exists []. rewrite app_nil_r. split; [reflexivity|]. split; [intros x []|].
      intros t [Ht _]. congruence. }
  destruct (String.eqb t "" || mem t sc) eqn:E1.
  { exists []. rewrite app_nil_r. split; [reflexivity|]. split; [intros x []|].
    intros t' [Ht [Hne _]]. rewrite Hn in Ht. injection Ht as <-. right.
    apply orb_true_iff in E1 as [E1|E1]; auto.
    apply String.eqb_eq in E1. contradiction. }
  destruct (active_only && truthy (ap_resigned_on a)) eqn:E2.
  { exists []. rewrite app_nil_r. split; [reflexivity|]. split; [intros x []|].
    intros t' [_ [_ [Hr _]]]. apply andb_true_iff in E2 as [E2 E2'].
    rewrite Hr in E2' by exact E2. discriminate. }
  destruct (active_only && negb (opt_eqb (ap_company_status a) "active")) eqn:E3.
  { exists []. rewrite app_nil_r. split; [reflexivity|]. split; [intros x []|].
    intros t' [_ [_ [_ Hs]]]. apply andb_true_iff in E3 as [E3 E3'].
    rewrite Hs in E3' by exact E3. discriminate. }
  exists [(t, d + 1)]. split; [reflexivity|]. split.
  - intros x [<-|[]]. simpl. split; [reflexivity|].
    apply orb_false_iff in E1 as [E1 _].
    repeat split; auto.
    + intros Heq. subst t. discriminate.
    + intros Ha. subst active_only. simpl in E2. exact E2.
    + intros Ha. subst active_only. simpl in E3. destruct (opt_eqb _ _); auto.
  - intros t' [Ht _]. rewrite Hn in Ht. injection Ht as <-. left. left. reflexivity.
Qed.

Lemma enqueue_appts_spec appts (s : St FS) :
  exists q,
    enqueue_appts active_only d appts s = (Ok tt, set_queue (st_queue s ++ q) s) /\
    (forall x, In x q -> snd x = d + 1 /\
                         exists a, In a appts /\ appt_target active_only a (fst x)) /\
    (forall a t, In a appts -> appt_target active_only a t ->
                 In (t, d + 1) q \/ mem t (st_sc s) = true).
Proof.
  revert s. induction appts as [|a t IH]; intros s.
  - exists []. destruct s. simpl. rewrite app_nil_r. split; [reflexivity|].
    split; [intros x []|]. intros a' t' [].
  - simpl. unfold bind at 1.
    destruct (enqueue_appt_spec a s) as [q1 [E1 [H1 H1']]]. rewrite E1.
    destruct (IH (set_queue (st_queue s ++ q1) s)) as [q2 [E2 [H2 H2']]]. rewrite E2.
    exists (q1 ++ q2). simpl. rewrite app_assoc. split; [reflexivity|]. split.
    + intros x Hx. apply in_app_or in Hx as [Hx|Hx].
      * destruct (H1 x Hx) as [Hd Ha]. split; auto. exists a. auto.
      * destruct (H2 x Hx) as [Hd [a' [Ha' Ht']]]. split; auto. exists a'. auto.
    + intros a' t' [<-|Ha'] Ht'.
      * destruct (H1' t' Ht') as [Hq|Hm]; auto. left. apply in_or_app. auto.
      * destruct (H2' a' t' Ha' Ht') as [Hq|Hm]; auto. left. apply in_or_app. auto.
Qed.

End EnqueueFacts.

Section PureFanOut.

Context (pf : PureFacade) (active_only : bool).

Lemma fan_out_pure d n key (s : St unit) :
  let s' := snd (fan_out (lift_pure pf) active_only d n key s) in
  st_net s' = st_net s /\ st_sc s' = st_sc s /\
  (st_so s' = st_so s \/ st_so s' = set_add key (st_so s)) /\
  (exists q, st_queue s' = st_queue s ++ q /\
     forall x, In x q -> snd x = d + 1 /\ name_hop pf active_only n (fst x)) /\
  (forall t, name_hop pf active_only n t ->
     In (t, d + 1) (st_queue s') \/ mem t (st_sc s) = true).
Proof.
  destruct s as [net q sc so []]. unfold fan_out.
  assert (Hnil : exists q', st_queue (mkSt net q sc so tt) = q ++ q' /\
            forall x, In x q' -> snd x = d + 1 /\ name_hop pf active_only n (fst x))
    by (exists []; rewrite app_nil_r; split; [reflexivity | intros x []]).
  destruct (is_corporate n) eqn:Hc.
  { simpl. repeat split; auto. intros t [Hc' _]. congruence. }
  unfold bind, call, try_catch, lift_res, ret, mark_officer, modify. simpl.
  destruct (pf_search pf n) as [results|e] eqn:Hs; simpl.
  2:{ repeat split; auto. intros t [_ [rs [_ [_ [_ [_ [Hs' _]]]]]]]. congruence. }
  destruct results as [|r0 rs] eqn:Hr; simpl.
  { repeat split; auto. intros t [_ [rs' [_ [_ [_ [_ [Hs' [Hne _]]]]]]]].
    rewrite Hs in Hs'. injection Hs' as <-. contradiction. }
  destruct (best_match n (r0 :: rs)) as [bm|] eqn:Hb; simpl.
  2:{ repeat split; auto. intros t [_ [rs' [bm' [_ [_ [_ [Hs' [_ [Hb' _]]]]]]]]].
      rewrite Hs in Hs'. injection Hs' as <-. congruence. }
  destruct (String.eqb (sr_self bm) "") eqn:He; simpl.
  { repeat split; auto.
    intros t [_ [rs' [bm' [_ [_ [_ [Hs' [_ [Hb' [Hself _]]]]]]]]]].
    rewrite Hs in Hs'. injection Hs' as <-. rewrite Hb in Hb'. injection Hb' as <-.
    apply String.eqb_eq in He. contradiction. }
  destruct (penultimate (split_slash (sr_self bm))) as [oid|e] eqn:Hp; simpl.
  2:{ repeat split; auto.
      intros t [_ [rs' [bm' [oid' [_ [_ [Hs' [_ [Hb' [_ [Hp' _]]]]]]]]]]].
      rewrite Hs in Hs'. injection Hs' as <-. rewrite Hb in Hb'. injection Hb' as <-.
      congruence. }
  destruct (pf_appointments pf oid) as [appts|e] eqn:Ha; simpl.
  2:{ repeat split; auto.
      intros t [_ [rs' [bm' [oid' [appts' [_ [Hs' [_ [Hb' [_ [Hp' [Ha' _]]]]]]]]]]]].
      rewrite Hs in Hs'. injection Hs' as <-. rewrite Hb in Hb'. injection Hb' as <-.
      rewrite Hp in Hp'. injection Hp' as <-. congruence. }
  destruct (enqueue_appts_spec active_only d appts (mkSt net q sc so tt))
    as [qa [Eq [Hqa Hqa']]].
  rewrite Eq. simpl. repeat split; auto.
  - exists qa. split; auto. intros x Hx. destruct (Hqa x Hx) as [Hd [a [Hin Ht]]].
    split; auto. split; auto.
    exists (r0 :: rs), bm, oid, appts, a.
    split; [auto|]. split; [discriminate|]. split; [exact Hb|].
    split; [intros Heq; rewrite Heq in He; discriminate|].
    split; [exact Hp|]. split; [exact Ha|]. split; [exact Hin | exact Ht].
  - intros t [_ [rs' [bm' [oid' [appts' [a [Hs' [_ [Hb' [_ [Hp' [Ha' [Hin Ht]]]]]]]]]]]]].
    rewrite Hs in Hs'. injection Hs' as <-. rewrite Hb in Hb'. injection Hb' as <-.
    rewrite Hp in Hp'. injection Hp' as <-. rewrite Ha in Ha'. injection Ha' as <-.
    destruct (Hqa' a t Hin Ht) as [H|H]; auto. left. apply in_or_app. auto.
Qed.

End PureFanOut.

Lemma process_officer_unfold {FS : Type} (api : Facade FS) max_depth active_only c profile d o
  (s : St FS) :
  exists sa,
    officer_step c d s sa /\ st_so sa = st_so s /\ st_queue sa = st_queue s /\
    snd (process_officer api max_depth active_only c profile d o s) =
      if (d <? max_depth) && negb (mem (officer_key o) (st_so s))
      then snd (fan_out api active_only d (o_name o) (officer_key o) sa) else sa.
Proof.
  unfold process_officer, bind, modify, gets. simpl.
  match goal with |- context [set_net ?n s] => exists (set_net n s) end.
  split; [|split; [reflexivity | split; [reflexivity|]]].
  - simpl. repeat split; auto.
    + eexists. split; [reflexivity|]. repeat constructor.
    + exists []. rewrite app_nil_r. auto.
    + apply incl_refl.
  - destruct ((d <? max_depth) && negb (mem (officer_key o) (st_so s))).
    + apply try_ret_snd.
    + reflexivity.
Qed.

Lemma known_officer_step {FS : Type} c d (s s' : St FS) t b :
  officer_step c d s s' -> known s t b -> known s' t b.
Proof.
  intros [Hc [_ [_ [[q [Hq _]] _]]]] [[r [Hr Hb]]|[e [He Hb]]].
  - left. exists r. rewrite Hc. auto.
  - right. exists e. rewrite Hq. split; auto. apply in_or_app. auto.
Qed.

Lemma known_le {FS : Type} (s : St FS) t b b' :
  b <= b' -> known s t b -> known s t b'.
Proof.
  intros Hle [[r [Hr Hb]]|[e [He Hb]]].
  - left. exists r. split; auto. lia.
  - right. exists e. split; auto. lia.
Qed.

Section PureOfficers.

Context (pf : PureFacade) (max_depth : Z) (active_only : bool).
Hypothesis keys_ok : keys_determine_names pf.
Context (c : string) (profile : Profile) (d : Z) (officers : list Officer).
Hypothesis officers_ok : pf_officers pf c = Ok officers.

(** What holds of the state while the officers of [c] are processed. *)
Definition during (s : St unit) : Prop :=
  keys_are_scanned s /\
  (forall t r, dict_get t (n_companies (st_net s)) = Some r -> cr_depth r <= d) /\
  so_known_upto pf active_only max_depth s d.

Lemma key_hops_known_step (s s' : St unit) key m :
  officer_step c d s s' -> key_hops_known pf active_only s key m ->
  key_hops_known pf active_only s' key m.
Proof.
  intros Hst Hk c' offs' o' H1 H2 H3 t H4 H5.
  eapply known_officer_step; [exact Hst | eapply Hk; eauto].
Qed.

Lemma during_step (s s' : St unit) :
  officer_step c d s s' -> incl (st_so s') (st_so s) -> during s -> during s'.
Proof.
  intros Hst Hso [Hk [Ha Hq]].
  pose proof Hst as [Hc [Hsc _]].
  split; [|split].
  - unfold keys_are_scanned in *. rewrite Hc, Hsc. exact Hk.
  - intros t r. rewrite Hc. apply Ha.
  - intros key Hkey. destruct (Hq key (Hso key Hkey)) as [m [Hm1 [Hm2 Hm3]]].
    exists m. split; [exact Hm1|]. split; [exact Hm2|].
    eapply key_hops_known_step; eauto.
Qed.

Lemma known_scanned (s : St unit) t :
  keys_are_scanned s ->
  (forall t r, dict_get t (n_companies (st_net s)) = Some r -> cr_depth r <= d) ->
  mem t (st_sc s) = true -> known s t (d + 1).
Proof.
  intros Hk Ha Hm. left. unfold keys_are_scanned in Hk.
  apply mem_true_iff in Hm. rewrite <- Hk in Hm.
  apply in_map_iff in Hm as [[t' r] [Ht' Hin]]. simpl in Ht'. subst t'.
  destruct (dict_get t (n_companies (st_net s))) as [r'|] eqn:E.
  - exists r'. split; auto. specialize (Ha t r' E). lia.
  - exfalso. clear -E Hin. induction (n_companies (st_net s)) as [|[k v] l IH]; simpl in *.
    + exact Hin.
    + destruct Hin as [Heq|Hin].
      * injection Heq as -> ->. rewrite String.eqb_refl in E. discriminate.
      * destruct (String.eqb t k); [discriminate | auto].
Qed.

Lemma process_officer_bfs o (s s' : St unit) :
  In o officers -> during s ->
  s' = snd (process_officer (lift_pure pf) max_depth active_only c profile d o s) ->
  during s' /\
  (exists q, st_queue s' = st_queue s ++ q /\
     forall x, In x q -> snd x = d + 1 /\ name_hop pf active_only (o_name o) (fst x)) /\
  (d < max_depth -> forall t, name_hop pf active_only (o_name o) t ->
     expandable pf active_only t -> known s' t (d + 1)).
Proof.
  intros Ho Hd ->.
  destruct (process_officer_unfold (lift_pure pf) max_depth active_only c profile d o s)
    as [sa [Hst [Hso [Hq Heq]]]].
  rewrite Heq.
  assert (Hda : during sa)
    by (apply (during_step s sa Hst); [rewrite Hso; apply incl_refl | exact Hd]).
  destruct ((d <? max_depth) && negb (mem (officer_key o) (st_so s))) eqn:Hcond.
  - apply andb_true_iff in Hcond as [Hlt _]. apply Z.ltb_lt in Hlt.
    destruct (fan_out_pure pf active_only d (o_name o) (officer_key o) sa)
      as [Hn [Hsc [Hso' [[q [Hq' Hqx]] Hcomp]]]].
    set (s'' := snd (fan_out (lift_pure pf) active_only d (o_name o) (officer_key o) sa)) in *.
    assert (Hst' : officer_step c d sa s'')
      by apply (fan_out_step (lift_pure pf) active_only c d).
    destruct Hda as [Hka [Haa Hqa]].
    assert (Hk'' : keys_are_scanned s'')
      by (unfold keys_are_scanned in *; rewrite Hn, Hsc; exact Hka).
    assert (Ha'' : forall t r, dict_get t (n_companies (st_net s'')) = Some r -> cr_depth r <= d)
      by (rewrite Hn; exact Haa).
    assert (Hkn : forall t, name_hop pf active_only (o_name o) t -> known s'' t (d + 1)).
    { intros t Ht. destruct (Hcomp t Ht) as [Hin|Hm].
      - right. exists (d + 1). split; [exact Hin | lia].
      - apply known_scanned; auto. rewrite Hsc. exact Hm. }
    split; [split; [exact Hk'' | split; [exact Ha''|]]|split].
    + intros key Hkey.
      assert (Hcase : In key (st_so sa) \/ key = officer_key o).
      { destruct Hso' as [E|E]; rewrite E in Hkey; auto.
        apply in_set_add in Hkey as [->|H]; auto. }
      destruct Hcase as [Hold| ->].
      * destruct (Hqa key Hold) as [m [Hm1 [Hm2 Hm3]]]. exists m.
        split; [exact Hm1|]. split; [exact Hm2|].
        eapply key_hops_known_step; eauto.
      * exists d. split; [exact Hlt|]. split; [lia|].
        intros c' offs' o' Hoff' Hin' Hkey' t Ht _.
        apply Hkn.
        rewrite (keys_ok c c' officers offs' o o' officers_ok Hoff' Ho Hin' (eq_sym Hkey')).
        exact Ht.
    + exists q. rewrite Hq', Hq. split; auto.
    + intros _ t Ht _. apply Hkn. exact Ht.
  - split; [exact Hda|]. split.
    + exists []. rewrite app_nil_r. split; [exact Hq | intros x []].
    + intros Hlt t Ht Hexp.
      assert (Hm : mem (officer_key o) (st_so s) = true).
      { apply Z.ltb_lt in Hlt. rewrite Hlt in Hcond. simpl in Hcond.
        destruct (mem (officer_key o) (st_so s)); auto. }
      apply mem_true_iff in Hm.
      destruct Hd as [_ [_ Hqs]].
      destruct (Hqs _ Hm) as [m [_ [Hm2 Hm3]]].
      apply (known_le sa t (m + 1)); [lia|].
      eapply known_officer_step; [exact Hst|].
      exact (Hm3 c officers o officers_ok Ho eq_refl t Ht Hexp).
Qed.

Lemma process_officers_bfs (l : list Officer) (s s' : St unit) :
  incl l officers -> during s ->
  s' = snd (process_officers (lift_pure pf) max_depth active_only c profile d l s) ->
  during s' /\
  (exists q, st_queue s' = st_queue s ++ q /\
     forall x, In x q -> snd x = d + 1 /\
       exists o, In o l /\ name_hop pf active_only (o_name o) (fst x)) /\
  (d < max_depth -> forall o, In o l -> forall t, name_hop pf active_only (o_name o) t ->
     expandable pf active_only t -> known s' t (d + 1)).
Proof.
  revert s s'. induction l as [|o t IH]; intros s s' Hincl Hd ->.
  - split; [exact Hd|]. split; [|intros _ o []].
    exists []. rewrite app_nil_r. split; [reflexivity | intros x []].
  - cbn [process_officers]. unfold bind at 1 2 3.
    destruct (process_officer (lift_pure pf) max_depth active_only c profile d o s)
      as [r s1] eqn:E1.
    assert (Hs1 : s1 = snd (process_officer (lift_pure pf) max_depth active_only c profile d o s))
      by (rewrite E1; reflexivity).
    destruct (process_officer_bfs o s s1 (Hincl o (or_introl eq_refl)) Hd Hs1)
      as [Hd1 [[q1 [Hq1 Hq1x]] Hk1]].
    assert (Hr : r = Ok tt).
    { clear -E1. unfold process_officer, bind, modify, gets in E1. simpl in E1.
      destruct ((d <? max_depth) && negb (mem (officer_key o) (st_so s))).
      - unfold try_catch in E1.
        destruct (fan_out (lift_pure pf) active_only d (o_name o) (officer_key o) _)
          as [[[]|e] s2]; injection E1 as <- _; reflexivity.
      - injection E1 as <- _. reflexivity. }
    subst r. cbv beta iota.
    destruct (IH s1 _ (fun x Hx => Hincl x (or_intror Hx)) Hd1 eq_refl)
      as [Hd2 [[q2 [Hq2 Hq2x]] Hk2]].
    split; [exact Hd2|]. split.
    + exists (q1 ++ q2). rewrite Hq2, Hq1, app_assoc. split; [reflexivity|].
      intros x Hx. apply in_app_or in Hx as [Hx|Hx].
      * destruct (Hq1x x Hx) as [Hdx Hnx]. split; [exact Hdx|]. exists o. simpl. auto.
      * destruct (Hq2x x Hx) as [Hdx [o' [Ho' Hnx]]]. split; [exact Hdx|].
        exists o'. simpl. auto.
    + intros Hlt o' [<-|Ho'] t' Ht' Hexp.
      * eapply known_officer_step;
          [apply (process_officers_step (lift_pure pf) max_depth active_only c d)|].
        apply Hk1; auto.
      * exact (Hk2 Hlt o' Ho' t' Ht' Hexp).
Qed.

End PureOfficers.
Lemma expand_pure_cases pf max_depth active_only c d (s : St unit) :
  (snd (expand (lift_pure pf) max_depth active_only c d s) = s /\
   ~ expandable pf active_only c) \/
  (exists profile officers,
     pf_officers pf c = Ok officers /\ expandable pf active_only c /\
     exists rec s2,
       cr_depth rec = d /\
       n_companies (st_net s2) = dict_set c rec (n_companies (st_net s)) /\
       st_sc s2 = set_add c (st_sc s) /\ st_queue s2 = st_queue s /\
       st_so s2 = st_so s /\
       snd (expand (lift_pure pf) max_depth active_only c d s) =
         snd (process_officers (lift_pure pf) max_depth active_only c profile d
                (kept_officers active_only officers) s2)).
Proof.
  destruct s as [net q sc so []].
  unfold expand, bind, call, modify, ret. simpl.
  destruct (pf_profile pf c) as [profile|e] eqn:Hp; simpl.
  2:{ left. split; [reflexivity|]. intros [p [o [Hp' _]]]. congruence. }
  destruct (active_only && negb (opt_eqb (p_company_status profile) "active")) eqn:Ha; simpl.
  { left. split; [reflexivity|]. intros [p [o [Hp' [Ha' _]]]].
    rewrite Hp in Hp'. injection Hp' as <-.
    apply andb_true_iff in Ha as [Ha1 Ha2]. rewrite Ha' in Ha2 by exact Ha1.
    discriminate. }
  destruct (pf_officers pf c) as [officers|e] eqn:Ho; simpl.
  2:{ left. split; [reflexivity|]. intros [p [o [_ [_ Ho']]]]. congruence. }
  right. exists profile, officers. split; [reflexivity|]. split.
  { exists profile, officers. split; [exact Hp|]. split; [|exact Ho].
    intros ->. simpl in Ha. destruct (opt_eqb _ _); auto. }
  match goal with |- context [dict_set c ?r] => exists r end.
  match goal with |- context [process_officers _ _ _ _ _ _ _ ?s2] => exists s2 end.
  do 5 (split; [reflexivity|]). reflexivity.
Qed.

Lemma scanned_has_record {FS : Type} (s : St FS) t :
  keys_are_scanned s -> mem t (st_sc s) = true ->
  exists r, dict_get t (n_companies (st_net s)) = Some r.
Proof.
  intros Hk Hm. unfold keys_are_scanned in Hk.
  apply mem_true_iff in Hm. rewrite <- Hk in Hm.
  apply in_map_iff in Hm as [[t' r] [Ht' Hin]]. simpl in Ht'. subst t'.
  destruct (dict_get t (n_companies (st_net s))) as [r'|] eqn:E; [eauto|].
  exfalso. clear -E Hin. induction (n_companies (st_net s)) as [|[k v] l IH]; simpl in *.
  - exact Hin.
  - destruct Hin as [Heq|Hin].
    + injection Heq as -> ->. rewrite String.eqb_refl in E. discriminate.
    + destruct (String.eqb t k); [discriminate | auto].
Qed.

Lemma unscanned_no_record {FS : Type} (s : St FS) t :
  keys_are_scanned s -> mem t (st_sc s) = false ->
  dict_get t (n_companies (st_net s)) = None.
Proof.
  intros Hk Hm. destruct (dict_get t (n_companies (st_net s))) as [r|] eqn:E; auto.
  apply dict_get_in_keys in E. unfold keys_are_scanned in Hk. rewrite Hk in E.
  apply mem_false_iff in Hm. contradiction.
Qed.

Lemma known_pop {FS : Type} (s : St FS) c d rest t b :
  st_queue s = (c, d) :: rest -> known s t b ->
  known (set_queue rest s) t b \/ (t = c /\ d <= b).
Proof.
  intros Hq [[r [Hr Hb]]|[e [He Hb]]].
  - left. left. exists r. auto.
  - rewrite Hq in He. destruct He as [He|He].
    + injection He as -> ->. right. auto.
    + left. right. exists e. auto.
Qed.

Lemma queue_ordered_tail x rest :
  queue_ordered (x :: rest) -> queue_ordered rest.
Proof.
  intros [Hs Hsp]. split.
  - inversion Hs; auto.
  - intros a b Ha Hb. apply Hsp; simpl; auto.
Qed.

Lemma queue_ordered_head c d rest :
  queue_ordered ((c, d) :: rest) -> forall x, In x rest -> d <= snd x <= d + 1.
Proof.
  intros [Hs Hsp] x Hx. inversion Hs; subst.
  split.
  - match goal with H : Forall _ rest |- _ => rewrite Forall_forall in H; apply (H x Hx) end.
  - apply (Hsp (c, d) x); simpl; auto.
Qed.

Lemma strongly_sorted_app {A : Type} (R : A -> A -> Prop) l1 l2 :
  StronglySorted R l1 -> StronglySorted R l2 ->
  (forall x y, In x l1 -> In y l2 -> R x y) -> StronglySorted R (l1 ++ l2).
Proof.
  induction 1 as [|a l Hl IH Hf]; intros H2 Hxy; simpl; auto.
  constructor.
  - apply IH; auto. intros x y Hx Hy. apply Hxy; simpl; auto.
  - apply Forall_app. split; auto.
    apply Forall_forall. intros y Hy. apply Hxy; simpl; auto.
Qed.

Lemma queue_ordered_push c d rest q :
  queue_ordered ((c, d) :: rest) -> (forall x, In x q -> snd x = d + 1) ->
  queue_ordered (rest ++ q).
Proof.
  intros Hqo Hq. pose proof (queue_ordered_head c d rest Hqo) as Hr.
  destruct (queue_ordered_tail _ _ Hqo) as [Hs _]. split.
  - apply strongly_sorted_app; auto.
    + clear -Hq. induction q as [|y q IH]; constructor.
      * apply IH. intros x Hx. apply Hq. simpl. auto.
      * apply Forall_forall. intros x Hx.
        rewrite (Hq y (or_introl eq_refl)), (Hq x (or_intror Hx)). lia.
    + intros x y Hx Hy. specialize (Hr x Hx). rewrite (Hq y Hy). lia.
  - intros x y Hx Hy.
    assert (Hb : forall z, In z (rest ++ q) -> d <= snd z <= d + 1).
    { intros z Hz. apply in_app_or in Hz as [Hz|Hz]; auto.
      rewrite (Hq z Hz). lia. }
    pose proof (Hb x Hx). pose proof (Hb y Hy). lia.
Qed.

Section BfsIter.

Context (pf : PureFacade) (active_only : bool) (max_depth max_companies : Z)
  (seeds : list string).
Hypothesis keys_ok : keys_determine_names pf.

Lemma bfs_inv_pop (s : St unit) c d rest :
  bfs_inv pf active_only max_depth seeds s -> st_queue s = (c, d) :: rest ->
  (forall t b, b <= max_depth -> expandable pf active_only t -> t = c -> d <= b ->
     known (set_queue rest s) t b) ->
  bfs_inv pf active_only max_depth seeds (set_queue rest s).
Proof.
  intros [HQO [HR [HD [HH [HS [HP HO]]]]]] Hq Hc.
  assert (Htr : forall t b, b <= max_depth -> expandable pf active_only t ->
                  known s t b -> known (set_queue rest s) t b).
  { intros t b Hb He Hk. destruct (known_pop s c d rest t b Hq Hk) as [H|[-> H]]; auto. }
  simpl. split; [|split; [|split; [|split; [|split; [|split]]]]].
  - rewrite Hq in HQO. exact (queue_ordered_tail _ _ HQO).
  - intros t r Hr x Hx. apply (HR t r Hr x). rewrite Hq. right. exact Hx.
  - exact HD.
  - intros x Hx. apply HH. rewrite Hq. right. exact Hx.
  - intros x Hx He H0. apply Htr; auto.
  - intros c' r Hr Hlt t Hhop He. apply Htr; [lia | exact He |]. eapply HP; eauto.
  - intros key Hkey. destruct (HO key Hkey) as [m [Hm1 [Hm2 Hm3]]].
    exists m. split; [exact Hm1|]. split.
    + intros x Hx. apply Hm2. rewrite Hq. right. exact Hx.
    + intros c' offs' o' H1 H2 H3 t H4 H5. apply Htr; [lia | exact H5 |].
      eapply Hm3; eauto.
Qed.

Lemma bfs_inv_iter (s : St unit) :
  basic_inv max_companies s -> bfs_inv pf active_only max_depth seeds s ->
  loop_cond max_companies s = true ->
  bfs_inv pf active_only max_depth seeds (iter (lift_pure pf) max_depth active_only s).
Proof.
  intros [Hkeys _] Hinv Hc. unfold loop_cond in Hc.
  destruct (st_queue s) as [|[c d] rest] eqn:Hq; [discriminate|].
  pose proof Hinv as [HQO [HR [HD [HH [HS [HP HO]]]]]].
  destruct (mem c (st_sc s) || (max_depth <? d)) eqn:Hskip.
  { rewrite (iter_skip (lift_pure pf) max_depth active_only s c d rest Hq Hskip).
    apply (bfs_inv_pop s c d rest Hinv Hq).
    intros t b Hb _ -> Hdb.
    apply orb_true_iff in Hskip as [Hm|Hlt].
    - destruct (scanned_has_record s c Hkeys Hm) as [r Hr].
      left. exists r. split; [exact Hr|].
      pose proof (HR c r Hr (c, d)) as H. rewrite Hq in H. simpl in H.
      specialize (H (or_introl eq_refl)). lia.
    - apply Z.ltb_lt in Hlt. lia. }
  rewrite (iter_expand (lift_pure pf) max_depth active_only s c d rest Hq Hskip).
  apply orb_false_iff in Hskip as [Hm Hdle]. apply Z.ltb_ge in Hdle.
  destruct (expand_pure_cases pf max_depth active_only c d (set_queue rest s))
    as [[Heq Hne]|[profile [officers [Hoff [Hexp [rec [s2
          [Hrd [Hcomp [Hsc2 [Hq2 [Hso2 Heq]]]]]]]]]]]].
  { rewrite Heq. apply (bfs_inv_pop s c d rest Hinv Hq).
    intros t b _ He -> _. contradiction. }
  rewrite Heq. simpl in Hcomp, Hsc2, Hq2, Hso2.
  set (s' := snd (process_officers (lift_pure pf) max_depth active_only c profile d
                    (kept_officers active_only officers) s2)).
  (* from the state before the dequeue to the state after the new node *)
  assert (Hrec : forall t b, known s t b -> known s2 t b).
  { intros t b [[r [Hr Hb]]|[e [He Hb]]].
    - left. exists r. rewrite Hcomp, dict_get_set.
      destruct (String.eqb_spec t c) as [->|Hne]; [|auto].
      rewrite (unscanned_no_record s c Hkeys Hm) in Hr. discriminate.
    - rewrite Hq in He. destruct He as [He|He].
      + injection He as -> ->. left. exists rec.
        rewrite Hcomp, dict_get_set, String.eqb_refl. split; [reflexivity | lia].
      + right. exists e. rewrite Hq2. auto. }
  assert (Hdur : during pf max_depth active_only d s2).
  { split; [|split].
    - unfold keys_are_scanned in *. rewrite Hcomp, Hsc2.
      rewrite dict_set_new.
      + rewrite map_app, Hkeys, set_add_new by exact Hm. reflexivity.
      + rewrite Hkeys. apply mem_false_iff. exact Hm.
    - intros t r. rewrite Hcomp, dict_get_set.
      destruct (String.eqb t c).
      + intros H. injection H as <-. lia.
      + intros Hr. pose proof (HR t r Hr (c, d)) as H. rewrite Hq in H.
        apply H. left. reflexivity.
    - intros key Hkey. rewrite Hso2 in Hkey.
      destruct (HO key Hkey) as [m [Hm1 [Hm2 Hm3]]].
      exists m. split; [exact Hm1|]. split.
      + apply (Hm2 (c, d)). rewrite Hq. left. reflexivity.
      + intros c' offs' o' H1 H2 H3 t H4 H5. apply Hrec. eapply Hm3; eauto. }
  assert (Hincl : incl (kept_officers active_only officers) officers).
  { unfold kept_officers. destruct active_only; [|apply incl_refl].
    intros x Hx. apply filter_In in Hx. tauto. }
  destruct (process_officers_bfs pf max_depth active_only keys_ok c profile d officers Hoff
              (kept_officers active_only officers) s2 s' Hincl Hdur eq_refl)
    as [Hdur' [[q [Hq' Hqx]] Hk']].
  pose proof (process_officers_step (lift_pure pf) max_depth active_only c d profile
                (kept_officers active_only officers) s2) as Hst.
  fold s' in Hst.
  pose proof Hst as [Hc' [Hsc' [_ [_ Hso']]]].
  destruct Hdur' as [_ [Hle' Hso_up]].
  rewrite Hq2 in Hq'.
  assert (Hbound : forall x, In x (st_queue s') -> d <= snd x).
  { intros x Hx. rewrite Hq' in Hx. apply in_app_or in Hx as [Hx|Hx].
    - rewrite Hq in HQO. apply (queue_ordered_head c d rest HQO x Hx).
    - rewrite (proj1 (Hqx x Hx)). lia. }
  split; [|split; [|split; [|split; [|split; [|split]]]]].
  - rewrite Hq'. rewrite Hq in HQO. apply (queue_ordered_push c d rest q HQO).
    intros x Hx. exact (proj1 (Hqx x Hx)).
  - intros t r Hr x Hx. specialize (Hle' t r Hr). specialize (Hbound x Hx). lia.
  - intros t r Hr. rewrite Hc', Hcomp, dict_get_set in Hr.
    destruct (String.eqb_spec t c) as [->|Hne].
    + injection Hr as <-. rewrite Hrd. split; [lia|]. split; [|exact Hexp].
      apply (HH (c, d)). rewrite Hq. left. reflexivity.
    + apply HD. exact Hr.
  - intros x Hx. rewrite Hq' in Hx. apply in_app_or in Hx as [Hx|Hx].
    + apply HH. rewrite Hq. right. exact Hx.
    + destruct (Hqx x Hx) as [Hdx [o [Ho Hn]]]. rewrite Hdx.
      apply (hops_next pf active_only seeds c (fst x) d).
      * apply (HH (c, d)). rewrite Hq. left. reflexivity.
      * split; [exact Hexp|]. exists officers, o. auto.
  - intros x Hx He H0. eapply known_officer_step; [exact Hst|]. apply Hrec. auto.
  - intros c' r Hr Hlt t Hhop Ht. rewrite Hc', Hcomp, dict_get_set in Hr.
    destruct (String.eqb_spec c' c) as [->|Hne].
    + injection Hr as <-. rewrite Hrd in Hlt |- *.
      destruct Hhop as [_ [offs [o [Hoffs [Ho Hn]]]]].
      rewrite Hoff in Hoffs. injection Hoffs as <-.
      exact (Hk' Hlt o Ho t Hn Ht).
    + eapply known_officer_step; [exact Hst|]. apply Hrec. eapply HP; eauto.
  - intros key Hkey. destruct (Hso_up key Hkey) as [m [Hm1 [Hm2 Hm3]]].
    exists m. split; [exact Hm1|]. split; [|exact Hm3].
    intros x Hx. specialize (Hbound x Hx). lia.
Qed.

End BfsIter.

Section BfsRun.

Context (pf : PureFacade) (active_only : bool) (max_depth max_companies : Z)
  (seeds : list string).
Hypothesis keys_ok : keys_determine_names pf.

Lemma bfs_inv_init (self : Scanner unit) :
  bfs_inv pf active_only max_depth seeds (initial_state self seeds max_depth).
Proof.
  unfold initial_state, initial_network. simpl.
  split; [|split; [|split; [|split; [|split; [|split]]]]];
    try (intros t r Hr; discriminate); try (intros key []).
  - split.
    + clear. induction seeds as [|x l IH]; simpl; constructor; auto.
      apply Forall_forall. intros y Hy. apply in_map_iff in Hy as [z [<- _]]. simpl. lia.
    + intros x y Hx Hy. apply in_map_iff in Hx as [a [<- _]].
      apply in_map_iff in Hy as [b [<- _]]. simpl. lia.
  - intros x Hx. apply in_map_iff in Hx as [a [<- Ha]]. simpl. apply hops_seed. exact Ha.
  - intros x Hx _ _. right. exists 0. split; [|lia].
    apply in_map_iff. exists x. auto.
Qed.

Lemma bfs_inv_reach (self : Scanner unit) (s : St unit) :
  Reach (lift_pure pf) max_depth max_companies active_only
    (initial_state self seeds max_depth) s ->
  bfs_inv pf active_only max_depth seeds s.
Proof.
  induction 1 as [|s Hr IH Hc].
  - apply bfs_inv_init.
  - apply (bfs_inv_iter pf active_only max_depth max_companies seeds keys_ok); auto.
    exact (basic_inv_reach (lift_pure pf) max_depth max_companies active_only self seeds s Hr).
Qed.

Lemma hops_from_nonneg t k : hops_from pf active_only seeds t k -> 0 <= k.
Proof. induction 1; lia. Qed.

Lemma bfs_depth_le (s : St unit) t rt :
  bfs_inv pf active_only max_depth seeds s ->
  dict_get t (n_companies (st_net s)) = Some rt ->
  forall c i, hops_from pf active_only seeds c i -> expandable pf active_only c ->
    cr_depth rt <= i \/
    exists r, dict_get c (n_companies (st_net s)) = Some r /\ cr_depth r <= i.
Proof.
  intros [HQO [HR [HD [HH [HS [HP HO]]]]]] Ht.
  destruct (HD t rt Ht) as [Hmax [Hhops _]].
  pose proof (hops_from_nonneg t _ Hhops) as H0.
  induction 1 as [c Hc|c t' k Hk IH Hhop]; intros Hexp.
  - destruct (HS c Hc Hexp ltac:(lia)) as [[r [Hr Hb]]|[e [He Hb]]].
    + right. eauto.
    + left. specialize (HR t rt Ht (c, e) He). simpl in HR. lia.
  - destruct (IH (proj1 Hhop)) as [Hle|[r [Hr Hb]]]; [left; lia|].
    destruct (Z_lt_le_dec (cr_depth r) max_depth) as [Hlt|Hge]; [|left; lia].
    destruct (HP c r Hr Hlt t' Hhop Hexp) as [[r' [Hr' Hb']]|[e [He Hb']]].
    + right. exists r'. split; [exact Hr' | lia].
    + left. specialize (HR t rt Ht (t', e) He). simpl in HR. lia.
Qed.

End BfsRun.

(** C1 (amended): with a client whose answers depend only on the arguments
    ([lift_pure pf]) and whose officer identity keys determine the officer
    names, every company recorded in the snapshot returned by [scan_network]
    has a depth equal to the minimum number of officer hops from a seed. *)
Theorem C1_depth_min_hops_pure_client (pf : PureFacade) (self : Scanner unit)
  seeds max_depth max_companies active_only fuel net self' :
  keys_determine_names pf ->
  scan_network (lift_pure pf) self seeds max_depth max_companies active_only fuel =
    Some (net, self') ->
  forall c rec, dict_get c (n_companies net) = Some rec ->
    min_hops pf active_only seeds c (cr_depth rec).
Proof.
  intros Hkeys Hrun c rec Hc.
  destruct (scan_network_final (lift_pure pf) max_depth max_companies active_only
              self seeds fuel net self' Hrun) as [sf [_ [Hr [-> _]]]].
  pose proof (bfs_inv_reach pf active_only max_depth max_companies seeds Hkeys self sf Hr)
    as Hinv.
  change (n_companies (finalize (st_net sf))) with (n_companies (st_net sf)) in Hc.
  pose proof Hinv as [_ [_ [HD _]]].
  destruct (HD c rec Hc) as [_ [Hhops Hexp]].
  split; [exact Hhops|].
  intros k' Hk'.
  destruct (bfs_depth_le pf active_only max_depth seeds sf c rec Hinv Hc c k' Hk' Hexp)
    as [Hle|[r [Hr' Hle]]]; [exact Hle|].
  rewrite Hc in Hr'. injection Hr' as <-. exact Hle.
Qed.

(* ================================================================== *)
(** * Snapshot invariants beyond the claims *)

(** ** Dict facts *)

Lemma dict_mem_keys {V : Type} k (d : list (string * V)) :
  dict_mem k d = true <-> In k (map fst d).
Proof.
  unfold dict_mem. rewrite existsb_exists. split.
  - intros [[k' v] [Hin E]]. apply String.eqb_eq in E. simpl in E.
    apply in_map_iff. exists (k', v). rewrite E. auto.
  - intros Hin. apply in_map_iff in Hin as [[k' v] [E Hin]]. simpl in E.
    exists (k', v). split; auto. rewrite E. apply String.eqb_refl.
Qed.

Lemma dict_update_keys {V : Type} k (f : V -> V) d :
  map fst (dict_update k f d) = map fst d.
Proof.
  induction d as [|[k' v'] t IH]; simpl; auto.
  destruct (String.eqb k k'); simpl; congruence.
Qed.

Lemma dict_get_update {V : Type} k k' (f : V -> V) d :
  dict_get k' (dict_update k f d) =
  if String.eqb k' k then option_map f (dict_get k d) else dict_get k' d.
Proof.
  induction d as [|[k1 v1] t IH]; simpl.
  - destruct (String.eqb k' k); reflexivity.
  - destruct (String.eqb k k1) eqn:E1; simpl.
    + apply String.eqb_eq in E1. subst k1.
      destruct (String.eqb k' k); reflexivity.
    + rewrite IH. destruct (String.eqb k' k1) eqn:E2, (String.eqb k' k) eqn:E3;
        auto.
      apply String.eqb_eq in E2, E3. subst. rewrite String.eqb_refl in E1. discriminate.
Qed.

Lemma dict_get_none {V : Type} k (d : list (string * V)) :
  ~ In k (map fst d) -> dict_get k d = None.
Proof.
  intros H. destruct (dict_get k d) eqn:E; auto.
  exfalso. apply H. eapply dict_get_in_keys. exact E.
Qed.

Lemma dict_get_app_other {V : Type} k k' (v : V) d :
  k' <> k -> dict_get k' (d ++ [(k, v)]) = dict_get k' d.
Proof.
  intros Hne. induction d as [|[k1 v1] t IH]; simpl.
  - destruct (String.eqb_spec k' k); [contradiction | reflexivity].
  - destruct (String.eqb k' k1); auto.
Qed.

Lemma count_dir_app k cs x :
  count_dir k (cs ++ [x]) =
  (count_dir k cs + if String.eqb (c_director_id x) k then 1 else 0)%nat.
Proof.
  unfold count_dir. rewrite filter_app, length_app. simpl.
  destruct (String.eqb (c_director_id x) k); reflexivity.
Qed.

Lemma count_comp_app k cs cs' :
  count_comp k (cs ++ cs') = (count_comp k cs + count_comp k cs')%nat.
Proof. unfold count_comp. rewrite filter_app, length_app. reflexivity. Qed.

Lemma count_dir_absent k cs :
  (forall x, In x cs -> c_director_id x <> k) -> count_dir k cs = 0%nat.
Proof.
  intros H. unfold count_dir. induction cs as [|x t IH]; simpl; auto.
  destruct (String.eqb_spec (c_director_id x) k).
  - exfalso. apply (H x); simpl; auto.
  - apply IH. intros y Hy. apply H. simpl; auto.
Qed.

Lemma count_comp_absent k cs :
  (forall x, In x cs -> c_company_number x <> k) -> count_comp k cs = 0%nat.
Proof.
  intros H. unfold count_comp. induction cs as [|x t IH]; simpl; auto.
  destruct (String.eqb_spec (c_company_number x) k).
  - exfalso. apply (H x); simpl; auto.
  - apply IH. intros y Hy. apply H. simpl; auto.
Qed.

Lemma count_comp_all k cs :
  Forall (fun x => c_company_number x = k) cs -> count_comp k cs = List.length cs.
Proof.
  unfold count_comp. induction 1 as [|x t Hx _ IH]; simpl; auto.
  rewrite Hx, String.eqb_refl. simpl. auto.
Qed.

(** ** One officer *)

Lemma officer_net_dirs active_only c profile d o n :
  (active_only = true -> truthy (o_resigned_on o) = false) ->
  dirs_inv active_only (n_directors n) (n_connections n) ->
  dirs_inv active_only (n_directors (officer_net c profile d o n))
    (n_connections (officer_net c profile d o n)).
Proof.
  intros Hres [Hnd [Hrec Hcon]].
  unfold officer_net. cbn [n_directors n_connections net_directors net_connections].
  set (k := officer_key o).
  set (appointment := mkApptRec c (p_company_name profile) (o_officer_role o)
        (o_appointed_on o) (o_resigned_on o) (o_date_of_birth o)).
  set (conn := mkConnection c (p_company_name profile) k (o_name o) (o_officer_role o) d).
  set (ds := n_directors n). set (cs := n_connections n).
  fold ds cs in Hnd, Hrec, Hcon.
  set (add_appt := fun dr : DirectorRec =>
         mkDirectorRec (d_name dr) (d_appointments dr ++ [appointment])
           (Z.of_nat (List.length (d_appointments dr ++ [appointment])))).
  set (ds1 := if dict_mem k ds then ds else dict_set k (mkDirectorRec (o_name o) [] 0) ds).
  assert (Hds1 : (map fst ds1 = map fst ds /\ In k (map fst ds) /\
                  exists dr0, dict_get k ds1 = Some dr0 /\ dict_get k ds = Some dr0) \/
                 (map fst ds1 = map fst ds ++ [k] /\ ~ In k (map fst ds) /\
                  dict_get k ds1 = Some (mkDirectorRec (o_name o) [] 0) /\
                  forall k', k' <> k -> dict_get k' ds1 = dict_get k' ds)).
  { unfold ds1. destruct (dict_mem k ds) eqn:Em.
    - left. apply dict_mem_keys in Em. split; auto. split; auto.
      destruct (dict_get k ds) as [dr0|] eqn:Eg.
      + exists dr0. auto.
      + exfalso. clear -Em Eg. induction ds as [|[k1 v1] t IH]; simpl in *; auto.
        destruct (String.eqb_spec k k1); [discriminate|].
        destruct Em as [E|E]; [congruence|auto].
    - right. assert (Hn : ~ In k (map fst ds)).
      { intros Hin. apply dict_mem_keys in Hin. congruence. }
      rewrite dict_set_new by exact Hn. rewrite map_app. simpl.
      split; auto. split; auto. split.
      + apply dict_get_app_new. exact Hn.
      + intros k' Hk'. apply dict_get_app_other. exact Hk'. }
  assert (Hcount0 : ~ In k (map fst ds) -> count_dir k cs = 0%nat).
  { intros Hn. apply count_dir_absent. intros x Hx E. apply Hn. rewrite <- E. apply Hcon. exact Hx. }
  split; [|split].
  - rewrite dict_update_keys.
    destruct Hds1 as [[-> _] | [-> [Hn _]]]; auto.
    apply NoDup_app; auto.
    + repeat constructor. intros [].
    + intros x Hx [<- | []]. auto.
  - intros k' dr. rewrite dict_get_update. rewrite count_dir_app. simpl.
    destruct (String.eqb_spec k' k) as [-> | Hne].
    + rewrite String.eqb_refl.
      destruct Hds1 as [[_ [_ [dr0 [Hg1 Hg]]]] | [_ [Hn [Hg1 _]]]]; rewrite Hg1; simpl;
        intros E; injection E as <-; unfold add_appt; simpl.
      * destruct (Hrec k dr0 Hg) as [_ [_ [Hl Ha]]].
        rewrite length_app. simpl. split; [reflexivity|]. split; [lia|]. split; [lia|].
        intros Hao. apply Forall_app. split; auto.
      * split; [reflexivity|]. split; [lia|]. split; [rewrite Hcount0 by exact Hn; reflexivity|].
        intros Hao. constructor; auto.
    + destruct (String.eqb_spec k k'); [congruence|]. rewrite Nat.add_0_r.
      intros Hg. apply Hrec.
      unfold ds1 in Hg. destruct (dict_mem k ds) eqn:Em; [exact Hg|].
      rewrite dict_set_new in Hg.
      * rewrite dict_get_app_other in Hg; auto.
      * intros Hin. apply dict_mem_keys in Hin. congruence.
  - intros x Hx. rewrite dict_update_keys. apply in_app_or in Hx as [Hx | [<- | []]].
    + destruct Hds1 as [[-> _] | [-> _]]; [|apply in_or_app; left]; apply Hcon; exact Hx.
    + simpl. destruct Hds1 as [[-> [Hin _]] | [-> _]]; auto.
      apply in_or_app. right. simpl. auto.
Qed.

(** ** The network through the monadic code *)

Section NetFacts.

Context {FS : Type} (api : Facade FS) (max_depth : Z) (active_only : bool).

Definition same_net (s s' : St FS) : Prop := st_net s' = st_net s.

Lemma same_net_trans (x y z : St FS) : same_net x y -> same_net y z -> same_net x z.
Proof. unfold same_net. congruence. Qed.

Lemma same_net_refl (x : St FS) : same_net x x.
Proof. reflexivity. Qed.

Lemma enqueue_appts_net d appts : keeps same_net (@enqueue_appts FS active_only d appts).
Proof.
  induction appts as [|a t IH]; simpl.
  - apply keeps_ret, same_net_refl.
  - apply keeps_bind; [exact same_net_trans | exact same_net_refl | | intros _; exact IH].
    unfold enqueue_appt.
    keeps_split same_net_trans same_net_refl; apply keeps_modify; intros; reflexivity.
Qed.

Lemma fan_out_net d name oid : keeps same_net (fan_out api active_only d name oid).
Proof.
  unfold fan_out, mark_officer.
  destruct (is_corporate name); [apply keeps_modify; intros; reflexivity|].
  keeps_split same_net_trans same_net_refl;
    try (apply keeps_call; intros; reflexivity);
    try (apply keeps_modify; intros; reflexivity).
  apply enqueue_appts_net.
Qed.

Lemma process_officer_spec c profile d o (s : St FS) :
  exists s', process_officer api max_depth active_only c profile d o s = (Ok tt, s') /\
             st_net s' = officer_net c profile d o (st_net s).
Proof.
  unfold process_officer, bind at 1, modify at 1. cbv beta iota.
  unfold bind, gets. cbv beta iota.
  match goal with |- context [if ?b then _ else _] => destruct b end.
  - match goal with |- context [try_catch ?m ?h ?s1] =>
      pose proof (keeps_try same_net same_net_trans m h (fan_out_net _ _ _)
                    (fun e => keeps_ret same_net tt same_net_refl) s1) as Hk;
      unfold try_catch in *; destruct (m s1) as [[[]|e] s2] eqn:E end.
    + exists s2. split; [reflexivity|]. exact Hk.
    + unfold ret in *. exists s2. split; [reflexivity|]. exact Hk.
  - eexists. split; [reflexivity|]. reflexivity.
Qed.

Lemma process_officers_spec c profile d officers (s : St FS) :
  exists s', process_officers api max_depth active_only c profile d officers s = (Ok tt, s') /\
             st_net s' = fold_left (fun n o => officer_net c profile d o n) officers (st_net s).
Proof.
  revert s. induction officers as [|o t IH]; intros s; simpl.
  - exists s. auto.
  - destruct (process_officer_spec c profile d o s) as [s1 [E1 H1]].
    unfold bind. rewrite E1. destruct (IH s1) as [s2 [E2 H2]].
    exists s2. split; auto. rewrite H2, H1. reflexivity.
Qed.

Lemma expand_net c d (s : St FS) :
  st_net (snd (expand api max_depth active_only c d s)) = st_net s \/
  exists profile officers,
    (active_only = true -> opt_eqb (p_company_status profile) "active" = true) /\
    (active_only = true -> Forall (fun o => truthy (o_resigned_on o) = false) officers) /\
    st_net (snd (expand api max_depth active_only c d s)) =
      fold_left (fun n o => officer_net c profile d o n) officers
        (record_net c d profile officers (st_net s)).
Proof.
  cbv [expand bind call modify ret].
  destruct (get_company_profile api c (st_fs s)) as [[profile|e] fs1]; cbv beta iota;
    [|left; reflexivity].
  destruct (active_only && negb (opt_eqb (p_company_status profile) "active")) eqn:Ea;
    [left; reflexivity|].
  cbn [st_fs st_net st_queue st_sc st_so].
  destruct (get_officers api c fs1) as [[officers|e] fs2]; cbv beta iota;
    [|left; reflexivity].
  right. exists profile.
  exists (if active_only then filter (fun o => negb (truthy (o_resigned_on o))) officers
          else officers).
  split; [|split].
  - intros ->. simpl in Ea. destruct (opt_eqb (p_company_status profile) "active"); auto.
  - intros ->. apply Forall_forall. intros x Hx. apply filter_In in Hx as [_ Hx].
    destruct (truthy (o_resigned_on x)); auto.
  - match goal with |- context [process_officers ?a ?b ?c0 ?e ?f ?g ?h ?s1] =>
      destruct (process_officers_spec e f g h s1) as [s2 [E2 H2]] end.
    rewrite E2. simpl. rewrite H2. reflexivity.
Qed.

End NetFacts.

Lemma officers_fold_props active_only c profile d officers n :
  (active_only = true -> Forall (fun o => truthy (o_resigned_on o) = false) officers) ->
  dirs_inv active_only (n_directors n) (n_connections n) ->
  let n' := fold_left (fun n o => officer_net c profile d o n) officers n in
  dirs_inv active_only (n_directors n') (n_connections n') /\
  n_companies n' = n_companies n /\ n_statistics n' = n_statistics n /\
  exists cs, n_connections n' = n_connections n ++ cs /\
             List.length cs = List.length officers /\
             Forall (fun x => c_company_number x = c) cs.
Proof.
  revert n. induction officers as [|o t IH]; intros n Hao Hd; simpl.
  - split; [exact Hd|]. split; [reflexivity|]. split; [reflexivity|].
    exists []. rewrite app_nil_r. auto.
  - assert (Ht : active_only = true -> Forall (fun o => truthy (o_resigned_on o) = false) t)
      by (intros E; specialize (Hao E); inversion Hao; auto).
    assert (Ho : active_only = true -> truthy (o_resigned_on o) = false)
      by (intros E; specialize (Hao E); inversion Hao; auto).
    destruct (IH (officer_net c profile d o n) Ht (officer_net_dirs _ _ _ _ _ _ Ho Hd))
      as [H1 [H2 [H3 [cs [H4 [H5 H6]]]]]].
    split; [exact H1|]. split; [exact H2|]. split; [exact H3|].
    exists ({| c_company_number := c; c_company_name := p_company_name profile;
               c_director_id := officer_key o; c_director_name := o_name o;
               c_role := o_officer_role o; c_depth := d |} :: cs).
    rewrite H4. simpl. rewrite <- app_assoc. split; [reflexivity|]. split; [lia|].
    constructor; auto.
Qed.

Section SnapInv.

Context {FS : Type} (api : Facade FS) (max_depth max_companies : Z) (active_only : bool).

Lemma snap_inv_init (self : Scanner FS) seeds :
  snap_inv max_depth active_only (initial_state self seeds max_depth).
Proof.
  unfold snap_inv, initial_state. simpl. split; [|split; [|split]].
  - apply Forall_forall. intros x Hx. apply in_map_iff in Hx as [y [<- _]]. simpl. lia.
  - repeat split; simpl; try constructor; try discriminate. intros x [].
  - intros k rec H. discriminate.
  - reflexivity.
Qed.

Lemma snap_inv_iter (s : St FS) :
  basic_inv max_companies s -> snap_inv max_depth active_only s ->
  snap_inv max_depth active_only (iter api max_depth active_only s).
Proof.
  intros [Hk [_ [Hcc _]]] [Hq0 [Hd0 [Hc0 Hs0]]].
  destruct (st_queue s) as [|[c d] rest] eqn:Hq.
  { unfold iter. rewrite Hq. unfold snap_inv. rewrite Hq. auto. }
  inversion Hq0 as [|? ? Hd Hrest]; subst. simpl in Hd.
  destruct (mem c (st_sc s) || (max_depth <? d)) eqn:Hs.
  { rewrite (iter_skip api max_depth active_only s c d rest Hq Hs).
    unfold snap_inv. simpl. auto. }
  rewrite (iter_expand api max_depth active_only s c d rest Hq Hs).
  apply orb_false_iff in Hs as [Hm Hmd]. apply Z.ltb_ge in Hmd.
  set (s0 := set_queue rest s).
  assert (Hqueue : Forall (fun it => 0 <= snd it)
                     (st_queue (snd (expand api max_depth active_only c d s0)))).
  { destruct (expand_cases api max_depth active_only c d s0)
      as [[_ [-> _]] | [rec [s1 [_ [_ [_ [_ [_ [Hq1 [_ Hstep]]]]]]]]]]; [exact Hrest|].
    destruct Hstep as [_ [_ [_ [[q [-> Hqf]] _]]]]. rewrite Hq1.
    apply Forall_app. split; [exact Hrest|].
    eapply Forall_impl; [|exact Hqf]. simpl. intros it [-> _]. lia. }
  destruct (expand_net api max_depth active_only c d s0)
    as [Hn | [profile [officers [Hact [Hres Hn]]]]].
  { unfold snap_inv. rewrite Hn. simpl. auto. }
  unfold snap_inv. rewrite Hn. simpl st_net. split; [exact Hqueue|].
  set (n0 := st_net s) in *.
  set (rec := mkCompanyRec c (p_company_name profile) (p_company_status profile)
                (p_type profile) (p_date_of_creation profile) d
                (Z.of_nat (List.length officers))).
  assert (Hnk : ~ In c (map fst (n_companies n0))).
  { unfold keys_are_scanned in Hk. unfold n0. rewrite Hk. apply mem_false_iff. exact Hm. }
  assert (Hco : n_companies (record_net c d profile officers n0) = n_companies n0 ++ [(c, rec)]).
  { unfold record_net. simpl. apply dict_set_new. exact Hnk. }
  destruct (officers_fold_props active_only c profile d officers
              (record_net c d profile officers n0) Hres Hd0)
    as [H1 [H2 [H3 [cs [H4 [H5 H6]]]]]].
  split; [exact H1|]. split.
  - intros k r. rewrite H2, Hco. rewrite H4. simpl n_connections.
    rewrite count_comp_app.
    destruct (String.eqb_spec k c) as [-> | Hne].
    + rewrite dict_get_app_new by exact Hnk. intros E. injection E as <-.
      unfold rec. simpl. split; [reflexivity|]. split; [lia|]. split.
      * rewrite (count_comp_all c cs H6).
        rewrite (count_comp_absent c (n_connections n0)); [simpl; rewrite H5; reflexivity|].
        intros x Hx E. destruct (Hcc x Hx) as [r [Hr _]]. apply Hnk. rewrite <- E.
        eapply dict_get_in_keys. exact Hr.
      * intros Hao. specialize (Hact Hao). destruct (p_company_status profile) as [st|];
          simpl in Hact; [|discriminate]. apply String.eqb_eq in Hact. congruence.
    + rewrite dict_get_app_other by exact Hne. intros Hg.
      destruct (Hc0 k r Hg) as [A [B [C D]]]. split; [exact A|]. split; [exact B|].
      split; [|exact D].
      rewrite (count_comp_absent k cs); [rewrite Nat.add_0_r; exact C|].
      intros x Hx E. rewrite Forall_forall in H6. apply Hne. rewrite <- E. apply H6. exact Hx.
  - rewrite H3, H2, Hco. unfold record_net. simpl. rewrite Hs0.
    unfold max_depth_of. rewrite fold_left_app. reflexivity.
Qed.

Lemma snap_inv_reach (self : Scanner FS) seeds (s : St FS) :
  Reach api max_depth max_companies active_only (initial_state self seeds max_depth) s ->
  snap_inv max_depth active_only s.
Proof.
  intros Hr. induction Hr as [|s Hr IH Hc].
  - apply snap_inv_init.
  - apply snap_inv_iter; auto.
    apply (basic_inv_reach api max_depth max_companies active_only self seeds s Hr).
Qed.

Lemma scan_network_snap (self : Scanner FS) seeds fuel net self' :
  scan_network api self seeds max_depth max_companies active_only fuel = Some (net, self') ->
  exists sf : St FS, snap_inv max_depth active_only sf /\ basic_inv max_companies sf /\
             net = finalize (st_net sf).
Proof.
  intros H. destruct (scan_network_final api max_depth max_companies active_only
                        self seeds fuel net self' H) as [sf [_ [Hr [-> _]]]].
  exists sf. split; [apply (snap_inv_reach self seeds sf Hr)|]. split; auto.
  apply (basic_inv_reach api max_depth max_companies active_only self seeds sf Hr).
Qed.

End SnapInv.

(** ** Snapshot properties of every crawl *)

(** The director entries of every snapshot agree with its connections: each
    [company_count] is the number of recorded appointments, which is at
    least one and equals the number of connections carrying that director
    id, and every connection's [director_id] is a key of [directors]. *)
Theorem scan_network_directors_match_connections {FS : Type} (api : Facade FS)
  (self : Scanner FS) seeds max_depth max_companies active_only fuel net self' :
  scan_network api self seeds max_depth max_companies active_only fuel = Some (net, self') ->
  (forall k dr, dict_get k (n_directors net) = Some dr ->
     d_company_count dr = Z.of_nat (List.length (d_appointments dr)) /\
     (1 <= List.length (d_appointments dr))%nat /\
     List.length (d_appointments dr) = count_dir k (n_connections net)) /\
  (forall x, In x (n_connections net) -> In (c_director_id x) (map fst (n_directors net))).
Proof.
  intros H.
  destruct (scan_network_snap api max_depth max_companies active_only self seeds fuel net self' H)
    as [sf [[_ [[_ [Hrec Hcon]] _]] [_ ->]]].
  simpl. split; [|exact Hcon].
  intros k dr Hg. destruct (Hrec k dr Hg) as [A [B [C _]]]. auto.
Qed.

(** Every company entry of a snapshot is keyed by its own
    [company_number], has a depth between [0] and [max_depth], and its
    [officer_count] equals the number of connections of that company. *)
Theorem scan_network_company_records {FS : Type} (api : Facade FS)
  (self : Scanner FS) seeds max_depth max_companies active_only fuel net self' :
  scan_network api self seeds max_depth max_companies active_only fuel = Some (net, self') ->
  forall k rec, dict_get k (n_companies net) = Some rec ->
    cr_company_number rec = k /\ 0 <= cr_depth rec <= max_depth /\
    cr_officer_count rec = Z.of_nat (count_comp k (n_connections net)).
Proof.
  intros H.
  destruct (scan_network_snap api max_depth max_companies active_only self seeds fuel net self' H)
    as [sf [[_ [_ [Hc _]]] [_ ->]]].
  simpl. intros k rec Hg. destruct (Hc k rec Hg) as [A [B [C _]]]. auto.
Qed.

(** The [statistics] of a snapshot: [depth_reached] is the largest depth of
    a stored company ([0] when none is stored), and the three totals are the
    sizes of [companies], [directors] and [connections]; [seed_companies]
    and [max_depth] are the arguments. *)
Theorem scan_network_statistics {FS : Type} (api : Facade FS)
  (self : Scanner FS) seeds max_depth max_companies active_only fuel net self' :
  scan_network api self seeds max_depth max_companies active_only fuel = Some (net, self') ->
  depth_reached (n_statistics net) = max_depth_of (n_companies net) /\
  total_companies (n_statistics net) = Z.of_nat (List.length (n_companies net)) /\
  total_directors (n_statistics net) = Z.of_nat (List.length (n_directors net)) /\
  total_connections (n_statistics net) = Z.of_nat (List.length (n_connections net)) /\
  n_seed_companies net = seeds /\ n_max_depth net = max_depth.
Proof.
  intros H.
  destruct (scan_network_final api max_depth max_companies active_only self seeds fuel _ self' H)
    as [sf [_ [Hr [-> _]]]].
  destruct (snap_inv_reach api max_depth max_companies active_only self seeds sf Hr)
    as [_ [_ [_ Hs]]].
  assert (Hseed : forall s, Reach api max_depth max_companies active_only
                    (initial_state self seeds max_depth) s ->
                  n_seed_companies (st_net s) = seeds /\ n_max_depth (st_net s) = max_depth).
  { clear. intros s Hr. induction Hr as [|s Hr [IH1 IH2] Hc].
    - simpl. auto.
    - destruct (st_queue s) as [|[c d] rest] eqn:Hq.
      + unfold iter. rewrite Hq. auto.
      + destruct (mem c (st_sc s) || (max_depth <? d)) eqn:Hsk.
        * rewrite (iter_skip api max_depth active_only s c d rest Hq Hsk). simpl. auto.
        * rewrite (iter_expand api max_depth active_only s c d rest Hq Hsk).
          destruct (expand_net api max_depth active_only c d (set_queue rest s))
            as [-> | [profile [officers [_ [_ ->]]]]]; [simpl; auto|].
          assert (G : forall l n, n_seed_companies (fold_left (fun n o => officer_net c profile d o n) l n)
                                  = n_seed_companies n /\
                                  n_max_depth (fold_left (fun n o => officer_net c profile d o n) l n)
                                  = n_max_depth n).
          { induction l as [|o t IHl]; intros n; simpl; auto. rewrite (proj1 (IHl _)), (proj2 (IHl _)).
            auto. }
          rewrite (proj1 (G _ _)), (proj2 (G _ _)). simpl. auto. }
  destruct (Hseed sf Hr) as [A B].
  simpl. rewrite <- Hs. repeat split; auto.
Qed.

(** With [active_only] set, every stored company has status ['active'] and
    no recorded appointment has a (truthy) [resigned_on]. *)
Theorem scan_network_active_only_filters {FS : Type} (api : Facade FS)
  (self : Scanner FS) seeds max_depth max_companies fuel net self' :
  scan_network api self seeds max_depth max_companies true fuel = Some (net, self') ->
  (forall k rec, dict_get k (n_companies net) = Some rec ->
     cr_company_status rec = Some "active"%string) /\
  (forall k dr a, dict_get k (n_directors net) = Some dr -> In a (d_appointments dr) ->
     truthy (a_resigned_on a) = false).
Proof.
  intros H.
  destruct (scan_network_snap api max_depth max_companies true self seeds fuel net self' H)
    as [sf [[_ [[_ [Hrec _]] [Hc _]]] [_ ->]]].
  simpl. split.
  - intros k rec Hg. apply (Hc k rec Hg). reflexivity.
  - intros k dr a Hg Ha. destruct (Hrec k dr Hg) as [_ [_ [_ Hf]]].
    rewrite Forall_forall in Hf. apply (Hf eq_refl a Ha).
Qed.

(** ** [find_shared_directors] *)

Lemma insert_by_count_perm x l : Permutation (insert_by_count x l) (x :: l).
Proof.
  induction l as [|y t IH]; simpl; auto.
  destruct (sd_company_count y <? sd_company_count x); auto.
  eapply perm_trans; [apply perm_skip; exact IH|]. apply perm_swap.
Qed.

Lemma insert_by_count_sorted x l :
  Sorted count_ge l -> Sorted count_ge (insert_by_count x l).
Proof.
  induction 1 as [|y t Ht IH Hhd]; simpl.
  - auto.
  - destruct (sd_company_count y <? sd_company_count x) eqn:E.
    + apply Z.ltb_lt in E. constructor; [constructor; auto|].
      constructor. unfold count_ge. lia.
    + apply Z.ltb_ge in E. constructor; auto.
      destruct t as [|z t']; simpl.
      * constructor. unfold count_ge. lia.
      * inversion Hhd; subst.
        destruct (sd_company_count z <? sd_company_count x); constructor;
          unfold count_ge in *; lia.
Qed.

Lemma filter_of_count_short k l :
  Forall (fun z => sd_company_count z < k) l -> filter (of_count k) l = [].
Proof.
  induction 1; simpl; auto. unfold of_count.
  destruct (Z.eqb_spec (sd_company_count x) k); [lia | auto].
Qed.

Lemma insert_by_count_filter k x l :
  Sorted count_ge l ->
  filter (of_count k) (insert_by_count x l) =
  filter (of_count k) l ++ (if of_count k x then [x] else []).
Proof.
  intros Hs. induction l as [|y t IH].
  - simpl. destruct (of_count k x); reflexivity.
  - assert (Hst : StronglySorted count_ge (y :: t)).
    { apply Sorted_StronglySorted; auto. unfold Relations_1.Transitive, count_ge. lia. }
    destruct (sd_company_count y <? sd_company_count x) eqn:E.
    + apply Z.ltb_lt in E. cbn [insert_by_count]. rewrite (proj2 (Z.ltb_lt _ _) E).
      change (filter (of_count k) (x :: y :: t)) with
        (if of_count k x then x :: filter (of_count k) (y :: t) else filter (of_count k) (y :: t)).
      destruct (of_count k x) eqn:Hx.
      * unfold of_count in Hx. apply Z.eqb_eq in Hx.
        rewrite (filter_of_count_short k (y :: t)); [reflexivity|].
        inversion Hst; subst. constructor; [lia|].
        eapply Forall_impl; [|eassumption]. unfold count_ge. simpl. intros; lia.
      * rewrite app_nil_r. reflexivity.
    + cbn [insert_by_count]. rewrite E. simpl. inversion Hs; subst. rewrite IH; auto.
      destruct (of_count k y); reflexivity.
Qed.

Lemma sort_by_count_desc_props l :
  Sorted count_ge (sort_by_count_desc l) /\
  Permutation (sort_by_count_desc l) l /\
  forall k, filter (of_count k) (sort_by_count_desc l) = filter (of_count k) l.
Proof.
  unfold sort_by_count_desc.
  assert (H : forall acc, Sorted count_ge acc ->
    Sorted count_ge (fold_left (fun acc x => insert_by_count x acc) l acc) /\
    Permutation (fold_left (fun acc x => insert_by_count x acc) l acc) (acc ++ l) /\
    forall k, filter (of_count k) (fold_left (fun acc x => insert_by_count x acc) l acc) =
              filter (of_count k) acc ++ filter (of_count k) l).
  { induction l as [|x t IH]; intros acc Hacc; simpl.
    - rewrite !app_nil_r. repeat split; auto. intros k. simpl. rewrite app_nil_r. reflexivity.
    - destruct (IH (insert_by_count x acc)) as [H1 [H2 H3]];
        [apply insert_by_count_sorted; auto|].
      repeat split; auto.
      + eapply perm_trans; [exact H2|].
        eapply perm_trans; [apply Permutation_app_tail, insert_by_count_perm|].
        simpl. apply Permutation_middle.
      + intros k. rewrite H3, insert_by_count_filter; auto.
        rewrite <- app_assoc. destruct (of_count k x); reflexivity. }
  destruct (H [] (Sorted_nil _)) as [H1 [H2 H3]]. auto.
Qed.

Lemma in_collect_shared e directors :
  In e (collect_shared directors) <->
  exists k dr, In (k, dr) directors /\ 1 < d_company_count dr /\ e = shared_entry k dr.
Proof.
  unfold collect_shared. rewrite in_map_iff. split.
  - intros [[k dr] [<- Hin]]. apply filter_In in Hin as [Hin E]. simpl in E.
    apply Z.ltb_lt in E. exists k, dr. auto.
  - intros [k [dr [Hin [Hc ->]]]]. exists (k, dr). split; [reflexivity|].
    apply filter_In. split; auto. simpl. apply Z.ltb_lt. exact Hc.
Qed.

(** [find_shared_directors] lists exactly the directors whose
    [company_count] exceeds one, each with its id, name, count and one
    company entry per appointment, sorted by non-increasing
    [company_count], with directors of equal count in the order of the
    [directors] dict. *)
Theorem find_shared_directors_spec network :
  let shared := find_shared_directors network in
  (forall e, In e shared <->
     exists k dr, In (k, dr) (n_directors network) /\ 1 < d_company_count dr /\
                  e = shared_entry k dr) /\
  Sorted (fun x y => sd_company_count y <= sd_company_count x) shared /\
  (forall c, filter (fun e => Z.eqb (sd_company_count e) c) shared =
             map (fun kv => shared_entry (fst kv) (snd kv))
               (filter (fun kv => Z.eqb (d_company_count (snd kv)) c)
                  (filter (fun kv => 1 <? d_company_count (snd kv)) (n_directors network)))).
Proof.
  intros shared. unfold shared, find_shared_directors.
  destruct (sort_by_count_desc_props (collect_shared (n_directors network))) as [Hs [Hp Hf]].
  split; [|split; [exact Hs|]].
  - intros e. rewrite <- in_collect_shared. split; intros He.
    + eapply Permutation_in; [exact Hp | exact He].
    + eapply Permutation_in; [apply Permutation_sym; exact Hp | exact He].
  - intros c. change (fun e => Z.eqb (sd_company_count e) c) with (of_count c).
    rewrite Hf. unfold collect_shared.
    generalize (filter (fun kv => 1 <? d_company_count (snd kv)) (n_directors network)).
    induction l as [|[k dr] t IH]; simpl; auto.
    unfold of_count at 1. simpl. destruct (d_company_count dr =? c); simpl; rewrite IH; auto.
Qed.

Lemma dict_get_in_pair {V : Type} k (v : V) d :
  dict_get k d = Some v -> In (k, v) d.
Proof.
  induction d as [|[k' v'] t IH]; simpl; [discriminate|].
  destruct (String.eqb_spec k k') as [-> | _]; auto.
  intros E. injection E as ->. auto.
Qed.

Lemma in_pair_dict_get {V : Type} k (v : V) d :
  NoDup (map fst d) -> In (k, v) d -> dict_get k d = Some v.
Proof.
  induction d as [|[k' v'] t IH]; simpl; [intros _ []|].
  intros Hnd Hin. inversion Hnd as [|? ? Hni Hnd']; subst.
  destruct (String.eqb_spec k k') as [-> | Hne].
  - destruct Hin as [E | Hin]; [injection E as ->; reflexivity|].
    exfalso. apply Hni. apply in_map_iff. exists (k', v). auto.
  - destruct Hin as [E | Hin]; [injection E as -> ->; congruence|]. auto.
Qed.

(** On a snapshot returned by [scan_network], a director id is listed by
    [find_shared_directors] exactly when at least two connections carry it,
    and each listed director has [company_count] company entries. *)
Theorem shared_directors_of_scan {FS : Type} (api : Facade FS)
  (self : Scanner FS) seeds max_depth max_companies active_only fuel net self' :
  scan_network api self seeds max_depth max_companies active_only fuel = Some (net, self') ->
  (forall id, (exists e, In e (find_shared_directors net) /\ sd_director_id e = id) <->
              (2 <= count_dir id (n_connections net))%nat) /\
  (forall e, In e (find_shared_directors net) ->
     Z.of_nat (List.length (sd_companies e)) = sd_company_count e).
Proof.
  intros H.
  destruct (scan_network_snap api max_depth max_companies active_only self seeds fuel net self' H)
    as [sf [[_ [[Hnd [Hrec Hcon]] _]] [_ Hnet]]].
  assert (Hd : n_directors net = n_directors (st_net sf)) by (rewrite Hnet; reflexivity).
  assert (Hc : n_connections net = n_connections (st_net sf)) by (rewrite Hnet; reflexivity).
  destruct (find_shared_directors_spec net) as [Hin _].
  split.
  - intros id. split.
    + intros [e [He <-]]. apply Hin in He as [k [dr [Hkd [Hcnt ->]]]]. simpl.
      rewrite Hd in Hkd. rewrite Hc.
      destruct (Hrec k dr (in_pair_dict_get k dr _ Hnd Hkd)) as [A [_ [C _]]]. lia.
    + intros Hge. rewrite Hc in Hge.
      assert (Hk : In id (map fst (n_directors (st_net sf)))).
      { destruct (filter (fun x => String.eqb (c_director_id x) id) (n_connections (st_net sf)))
          as [|x t] eqn:Ef; unfold count_dir in Hge; rewrite Ef in Hge; simpl in Hge; [lia|].
        assert (Hx : In x (filter (fun x => String.eqb (c_director_id x) id)
                            (n_connections (st_net sf)))) by (rewrite Ef; simpl; auto).
        apply filter_In in Hx as [Hx E]. apply String.eqb_eq in E. rewrite <- E. auto. }
      apply in_map_iff in Hk as [[k dr] [Ek Hkd]]. simpl in Ek. subst k.
      destruct (Hrec id dr (in_pair_dict_get id dr _ Hnd Hkd)) as [A [_ [C _]]].
      exists (shared_entry id dr). split; [|reflexivity].
      apply Hin. exists id, dr. rewrite Hd. split; [exact Hkd|]. split; [lia|reflexivity].
  - intros e He. apply Hin in He as [k [dr [Hkd [Hcnt ->]]]]. simpl.
    rewrite length_map. rewrite Hd in Hkd.
    destruct (Hrec k dr (in_pair_dict_get k dr _ Hnd Hkd)) as [A _]. lia.
Qed.

(* ================================================================== *)
(** * The rate limiter and the registry client *)

(** ** Pruning *)

Lemma prune_suffix now per rq : exists pre, rq = pre ++ prune now per rq.
Proof.
  induction rq as [|t rest IH]; simpl.
  - exists []. reflexivity.
  - destruct (t <? now - per).
    + destruct IH as [pre Hp]. exists (t :: pre). simpl. rewrite <- Hp. reflexivity.
    + exists []. reflexivity.
Qed.

Lemma Forall_suffix {A : Type} (P : A -> Prop) pre l :
  Forall P (pre ++ l) -> Forall P l.
Proof. intros H. apply Forall_app in H. tauto. Qed.

Lemma Sorted_suffix pre l : Sorted Z.le (pre ++ l) -> Sorted Z.le l.
Proof.
  induction pre as [|x pre IH]; simpl; auto.
  intros H. apply Sorted_inv in H. tauto.
Qed.

Lemma prune_sorted now per rq :
  Sorted Z.le rq -> Sorted Z.le (prune now per rq).
Proof.
  destruct (prune_suffix now per rq) as [pre Hp]. intros H.
  rewrite Hp in H. exact (Sorted_suffix _ _ H).
Qed.

Lemma prune_forall (P : Z -> Prop) now per rq :
  Forall P rq -> Forall P (prune now per rq).
Proof.
  destruct (prune_suffix now per rq) as [pre Hp]. intros H.
  rewrite Hp in H. exact (Forall_suffix _ _ _ H).
Qed.

Lemma prune_filter now per rq :
  Sorted Z.le rq -> prune now per rq = filter (fun t => now - per <=? t) rq.
Proof.
  induction rq as [|t rest IH]; intros Hs; simpl; [reflexivity|].
  pose proof (Sorted_StronglySorted Z.le_trans Hs) as Hss.
  apply StronglySorted_inv in Hss as [_ Hall].
  apply Sorted_inv in Hs as [Hs _].
  destruct (t <? now - per) eqn:E.
  - replace (now - per <=? t) with false by (symmetry; apply Z.leb_gt; lia).
    exact (IH Hs).
  - replace (now - per <=? t) with true by (symmetry; apply Z.leb_le; lia).
    f_equal. symmetry. apply forallb_filter_id. apply forallb_forall.
    intros x Hx. rewrite Forall_forall in Hall. specialize (Hall x Hx).
    apply Z.leb_le. lia.
Qed.

Lemma Sorted_app_last l x :
  Sorted Z.le l -> Forall (fun t => t <= x) l -> Sorted Z.le (l ++ [x]).
Proof.
  induction l as [|y l IH]; simpl; intros Hs Hf.
  - constructor; auto.
  - apply Sorted_inv in Hs as [Hs Hh]. inversion Hf; subst.
    constructor; [apply IH; auto|].
    destruct l as [|z l]; simpl; constructor.
    + assumption.
    + inversion Hh; assumption.
Qed.

Lemma acquire_step rl now0 now1 rl' g last :
  acquire rl now0 now1 = Ok (rl', g) ->
  last <= now0 -> now0 + sleep_needed rl now0 <= now1 ->
  Sorted Z.le (requests rl) -> Forall (fun t => t <= last) (requests rl) ->
  Sorted Z.le (requests rl') /\ Forall (fun t => t <= Z.max now0 now1) (requests rl') /\
  now0 <= g <= Z.max now0 now1 /\
  max_requests rl' = max_requests rl /\ period rl' = period rl.
Proof.
  intros Ha Hl Hsl Hs Hf.
  assert (Hsn : 0 <= sleep_needed rl now0).
  { unfold sleep_needed. destruct (_ >=? _); [destruct prune|]; lia. }
  assert (H01 : now0 <= now1) by lia.
  pose proof (prune_sorted now0 (period rl) _ Hs) as Hs1.
  pose proof (prune_forall _ now0 (period rl) _ Hf) as Hf1.
  assert (Hend : forall rq now, Sorted Z.le rq -> Forall (fun t => t <= last) rq ->
            now0 <= now -> now <= Z.max now0 now1 ->
            Sorted Z.le (rq ++ [now]) /\ Forall (fun t => t <= Z.max now0 now1) (rq ++ [now])).
  { intros rq now Ha1 Ha2 Hn1 Hn2. split.
    - apply Sorted_app_last; auto. eapply Forall_impl; [|exact Ha2]; simpl; lia.
    - apply Forall_app. split; [eapply Forall_impl; [|exact Ha2]; simpl; lia|].
      constructor; [lia|constructor]. }
  unfold acquire in Ha.
  set (rq := prune now0 (period rl) (requests rl)) in *.
  destruct (Z.of_nat (List.length rq) >=? max_requests rl).
  - destruct rq as [|oldest rest] eqn:Ep; [discriminate|].
    destruct (0 <? oldest + period rl - now0).
    + injection Ha as <- <-. cbn [requests max_requests period].
      replace (if oldest <? now1 - period rl then prune now1 (period rl) rest else rq)
        with (prune now1 (period rl) rq) by (rewrite Ep; reflexivity).
      pose proof (prune_sorted now1 (period rl) _ Hs1) as Hs2.
      pose proof (prune_forall _ now1 (period rl) _ Hf1) as Hf2.
      destruct (Hend _ now1 Hs2 Hf2) as [Ha1 Ha2]; [lia|lia|].
      repeat split; auto; lia.
    + injection Ha as <- <-. cbn [requests max_requests period].
      destruct (Hend _ now0 Hs1 Hf1) as [Ha1 Ha2]; [lia|lia|].
      repeat split; auto; lia.
  - injection Ha as <- <-. cbn [requests max_requests period].
    destruct (Hend _ now0 Hs1 Hf1) as [Ha1 Ha2]; [lia|lia|].
    repeat split; auto; lia.
Qed.

Lemma acquire_all_props clock : forall rl last rl' gs,
  valid_clock rl last clock ->
  Sorted Z.le (requests rl) -> Forall (fun t => t <= last) (requests rl) ->
  acquire_all rl clock = Ok (rl', gs) ->
  Sorted Z.le (requests rl') /\ Sorted Z.le gs /\ Forall (fun g => last <= g) gs /\
  max_requests rl' = max_requests rl /\ period rl' = period rl.
Proof.
  induction clock as [|[now0 now1] rest IH]; intros rl last rl' gs Hv Hs Hf Ha; simpl in *.
  - injection Ha as <- <-. repeat split; auto.
  - destruct Hv as [Hl [Hsl Hv]].
    destruct (acquire rl now0 now1) as [[rl1 g]|e] eqn:E1; [|discriminate].
    destruct (acquire_all rl1 rest) as [[rl2 gs']|e] eqn:E2; [|discriminate].
    injection Ha as <- <-.
    destruct (acquire_step _ _ _ _ _ _ E1 Hl Hsl Hs Hf) as [Hs1 [Hf1 [Hg [Hm1 Hp1]]]].
    destruct (IH rl1 (Z.max now0 now1) rl2 gs' Hv Hs1 Hf1 E2)
      as [Hs2 [Hsg [Hfg [Hm2 Hp2]]]].
    split; [exact Hs2|]. split.
    + constructor; [exact Hsg|]. destruct gs' as [|g' gs'']; constructor.
      inversion Hfg; subst. lia.
    + split; [constructor; [lia|]; eapply Forall_impl; [|exact Hfg]; simpl; lia|].
      split; congruence.
Qed.

(** ** Rate limiter theorems *)

(** [acquire()] raises exactly when [max_requests <= 0] and no recorded
    request is left after pruning: only then does it read [self.requests[0]]
    of an empty deque. *)
Theorem acquire_raises_iff rl now0 now1 :
  (exists e, acquire rl now0 now1 = Err e) <->
  max_requests rl <= 0 /\ prune now0 (period rl) (requests rl) = [].
Proof.
  unfold acquire.
  destruct (prune now0 (period rl) (requests rl)) as [|oldest rest] eqn:Ep; simpl.
  - destruct (0 >=? max_requests rl) eqn:E; split.
    + intros _. split; [lia|reflexivity].
    + intros _. eexists. reflexivity.
    + intros [e He]. discriminate.
    + intros [Hm _]. lia.
  - destruct (Z.pos (Pos.of_succ_nat (List.length rest)) >=? max_requests rl);
      [destruct (0 <? oldest + period rl - now0)|]; split;
      try (intros [e He]; discriminate); intros [_ H]; discriminate.
Qed.

(** On a deque kept in time order, [get_remaining_requests()] returns
    [max_requests] minus the number of recorded requests not older than
    [now - period], and keeps exactly those. *)
Theorem get_remaining_requests_counts_window rl now :
  Sorted Z.le (requests rl) ->
  let '(rl', remaining) := get_remaining_requests rl now in
  requests rl' = filter (fun t => now - period rl <=? t) (requests rl) /\
  remaining = max_requests rl -
              Z.of_nat (List.length (filter (fun t => now - period rl <=? t) (requests rl))).
Proof.
  intros Hs. unfold get_remaining_requests. simpl.
  rewrite (prune_filter now (period rl) _ Hs). split; reflexivity.
Qed.

(** Successive [acquire()] calls on a real clock keep the deque in time
    order, hand out non-decreasing grant times no earlier than the last
    clock reading, and leave [max_requests] and [period] unchanged. *)
Theorem acquire_all_time_ordered rl last clock rl' grants :
  valid_clock rl last clock ->
  Sorted Z.le (requests rl) -> Forall (fun t => t <= last) (requests rl) ->
  acquire_all rl clock = Ok (rl', grants) ->
  Sorted Z.le (requests rl') /\ Sorted Z.le grants /\ Forall (fun g => last <= g) grants /\
  max_requests rl' = max_requests rl /\ period rl' = period rl.
Proof. exact (acquire_all_props clock rl last rl' grants). Qed.

(** When no recorded request lies in the future, both [get_reset_time()]
    and the sleep an [acquire()] computes lie between [0] and [period]
    (or [0] if [period] is negative). *)
Theorem waits_bounded_by_period rl now :
  Forall (fun t => t <= now) (requests rl) ->
  0 <= get_reset_time rl now <= Z.max 0 (period rl) /\
  0 <= sleep_needed rl now <= Z.max 0 (period rl).
Proof.
  intros Hf. split.
  - unfold get_reset_time. destruct (requests rl) as [|oldest rest]; [lia|].
    inversion Hf; subst. lia.
  - unfold sleep_needed. pose proof (prune_forall _ now (period rl) _ Hf) as Hf1.
    destruct (_ >=? _); [|lia].
    destruct (prune now (period rl) (requests rl)) as [|oldest rest]; [lia|].
    inversion Hf1; subst. lia.
Qed.

(** ** [_make_request] *)

Ltac shape_one :=
  exists 1%nat; unfold requests_sent, grants, sleeps; cbn [flat_map app List.length seq];
  repeat split; auto; try lia; try discriminate.

Ltac shape_rec IH attempt rl1 :=
  let r := fresh "r" in let rl2 := fresh "rl2" in let evs := fresh "evs" in
  let k := fresh "k" in
  specialize (IH (S attempt) rl1);
  destruct (request_loop _ _ _ _ (S attempt) rl1) as [[r rl2] evs];
  destruct IH as [k [Hk1 [Hk2 [Hk3 [Hk4 [Hk5 Hk6]]]]]];
  exists (S k); unfold requests_sent, grants, sleeps in *; cbn [flat_map app List.length seq] in *;
  rewrite ?Hk2, ?Hk3; repeat split; auto; try lia;
  try (constructor; [lia|exact Hk5]);
  try (match goal with H : r = Ok _ |- _ => destruct (Hk6 _ _ H) as [? [? ?]] end; auto; lia).

Lemma request_loop_shape url clock session left : forall attempt rl,
  let '(r, rl', evs) := request_loop url clock session left attempt rl in
  exists k, (k <= left)%nat /\ requests_sent evs = seq attempt k /\
    List.length (grants evs) = k /\ (List.length (sleeps evs) <= k)%nat /\
    Forall (fun x => 0 <= x) (sleeps evs) /\
    (forall i st, r = Ok (i, st) -> (attempt + k = S i)%nat /\ http_error st = false /\ st <> 429).
Proof.
  induction left as [|left IH]; intros attempt rl; simpl.
  - exists O. repeat split; auto; try lia; discriminate.
  - destruct (acquire rl _ _) as [[rl1 g]|e].
    2:{ exists O. repeat split; auto; try lia; discriminate. }
    destruct (session attempt) as [e [|]|st ra].
    + destruct (Nat.eqb attempt 2); [shape_one|shape_rec IH attempt rl1].
    + shape_one.
    + destruct (st =? 429) eqn:E429.
      * destruct (retry_after_of ra) as [n|e];
          [|shape_one].
        destruct (n <? 0) eqn:En; [shape_one|].
        apply Z.ltb_ge in En. shape_rec IH attempt rl1.
      * destruct (http_error st) eqn:Eh.
        -- destruct (Nat.eqb attempt 2); [shape_one|shape_rec IH attempt rl1].
        -- exists 1%nat; unfold requests_sent, grants, sleeps; cbn [flat_map app List.length seq];
             repeat split; auto; try lia.
           all: match goal with H : Ok _ = Ok _ |- _ => injection H as <- <- end;
             auto; try lia; apply Z.eqb_neq; exact E429.
Qed.

Lemma acquire_ok_of_pos rl now0 now1 :
  0 < max_requests rl ->
  exists rl' g, acquire rl now0 now1 = Ok (rl', g) /\ max_requests rl' = max_requests rl.
Proof.
  intros Hm. unfold acquire.
  destruct (Z.of_nat (List.length (prune now0 (period rl) (requests rl))) >=? max_requests rl)
    eqn:E.
  - destruct (prune now0 (period rl) (requests rl)) as [|oldest rest].
    + simpl in E. apply Z.geb_le in E. lia.
    + destruct (0 <? oldest + period rl - now0); eauto.
  - eauto.
Qed.

(** One attempt with a retried failure (a [RequestException] or an HTTP
    error other than 429), before the last attempt. *)
Lemma request_loop_retry url clock session left attempt rl e :
  0 < max_requests rl -> Nat.eqb attempt 2 = false ->
  (session attempt = Raised e true \/
   exists st ra, session attempt = Responded st ra /\ http_error st = true /\ st <> 429 /\
                 e = http_error_exn) ->
  exists rl1 g, max_requests rl1 = max_requests rl /\
    request_loop url clock session (S left) attempt rl =
    let '(r, rl2, evs) := request_loop url clock session left (S attempt) rl1 in
    (r, rl2, EvAcquire g :: EvRequest attempt ::
             EvSleep (RETRY_DELAY * Z.of_nat (S attempt)) :: evs).
Proof.
  intros Hm Ha Hs.
  destruct (acquire_ok_of_pos rl (fst (clock attempt)) (snd (clock attempt)) Hm)
    as [rl1 [g [E1 M1]]].
  exists rl1, g. split; [exact M1|]. simpl. rewrite E1, Ha.
  destruct Hs as [-> | [st [ra [-> [Hh [Hn ->]]]]]]; [reflexivity|].
  rewrite (proj2 (Z.eqb_neq st 429) Hn), Hh. reflexivity.
Qed.

Lemma request_loop_retry_last url clock session left rl e :
  0 < max_requests rl ->
  (session 2%nat = Raised e true \/
   exists st ra, session 2%nat = Responded st ra /\ http_error st = true /\ st <> 429 /\
                 e = http_error_exn) ->
  exists rl1 g,
    request_loop url clock session (S left) 2 rl = (Err e, rl1, [EvAcquire g; EvRequest 2]).
Proof.
  intros Hm Hs.
  destruct (acquire_ok_of_pos rl (fst (clock 2%nat)) (snd (clock 2%nat)) Hm)
    as [rl1 [g [E1 M1]]].
  exists rl1, g. simpl. rewrite E1.
  destruct Hs as [-> | [st [ra [-> [Hh [Hn ->]]]]]]; [reflexivity|].
  rewrite (proj2 (Z.eqb_neq st 429) Hn), Hh. reflexivity.
Qed.

(** One attempt answered 429 with a usable [Retry-After]. *)
Lemma request_loop_429 url clock session left attempt rl ra n :
  0 < max_requests rl ->
  session attempt = Responded 429 ra -> retry_after_of ra = Ok n -> 0 <= n ->
  exists rl1 g, max_requests rl1 = max_requests rl /\
    request_loop url clock session (S left) attempt rl =
    let '(r, rl2, evs) := request_loop url clock session left (S attempt) rl1 in
    (r, rl2, EvAcquire g :: EvRequest attempt :: EvSleep n :: evs).
Proof.
  intros Hm Hs Hr Hn.
  destruct (acquire_ok_of_pos rl (fst (clock attempt)) (snd (clock attempt)) Hm)
    as [rl1 [g [E1 M1]]].
  exists rl1, g. split; [exact M1|]. simpl. rewrite E1, Hs, Hr.
  replace (n <? 0) with false by (symmetry; apply Z.ltb_ge; exact Hn). reflexivity.
Qed.

(** When every attempt fails with a [RequestException] or an HTTP error
    other than 429, [_make_request] sends three requests, sleeps 2 then 4
    seconds between them, and re-raises the error of the third attempt. *)
Theorem make_request_gives_up_after_three_errors url clock session rl :
  0 < max_requests rl ->
  (forall i, (i < 3)%nat ->
     (exists e, session i = Raised e true) \/
     (exists st ra, session i = Responded st ra /\ http_error st = true /\ st <> 429)) ->
  let '(r, _, evs) := make_request url clock session rl in
  requests_sent evs = [0; 1; 2]%nat /\ sleeps evs = [2; 4] /\
  r = Err (match session 2%nat with Raised e _ => e | _ => http_error_exn end).
Proof.
  intros Hm Hs.
  assert (Hr : forall i, (i < 3)%nat ->
            session i = Raised (match session i with Raised e _ => e | _ => http_error_exn end) true \/
            exists st ra, session i = Responded st ra /\ http_error st = true /\ st <> 429 /\
              match session i with Raised e _ => e | _ => http_error_exn end = http_error_exn).
  { intros i Hi. destruct (Hs i Hi) as [[e He]|[st [ra [He Hh]]]]; rewrite He.
    - left. reflexivity.
    - right. exists st, ra. destruct Hh. repeat split; auto. }
  unfold make_request, MAX_RETRIES.
  destruct (request_loop_retry url clock session 2 0 rl _ Hm eq_refl (Hr 0%nat ltac:(lia)))
    as [rl1 [g1 [M1 E1]]]. rewrite E1.
  destruct (request_loop_retry url clock session 1 1 rl1 _ ltac:(lia) eq_refl (Hr 1%nat ltac:(lia)))
    as [rl2 [g2 [M2 E2]]]. rewrite E2.
  destruct (request_loop_retry_last url clock session 0 rl2 _ ltac:(lia) (Hr 2%nat ltac:(lia)))
    as [rl3 [g3 E3]]. rewrite E3.
  repeat split; reflexivity.
Qed.

(** When every attempt is answered 429 with a usable [Retry-After],
    [_make_request] sends three requests, sleeps the [Retry-After] of each,
    and raises [Failed to request <url> after 3 attempts]. *)
Theorem make_request_429_three_times url clock session rl (ra : nat -> option string) (n : nat -> Z) :
  0 < max_requests rl ->
  (forall i, (i < 3)%nat ->
     session i = Responded 429 (ra i) /\ retry_after_of (ra i) = Ok (n i) /\ 0 <= n i) ->
  let '(r, _, evs) := make_request url clock session rl in
  r = Err (failed_exn url) /\ requests_sent evs = [0; 1; 2]%nat /\
  sleeps evs = [n 0%nat; n 1%nat; n 2%nat].
Proof.
  intros Hm Hs. unfold make_request, MAX_RETRIES.
  destruct (Hs 0%nat ltac:(lia)) as [S0 [R0 N0]].
  destruct (request_loop_429 url clock session 2 0 rl _ _ Hm S0 R0 N0) as [rl1 [g1 [M1 E1]]].
  rewrite E1.
  destruct (Hs 1%nat ltac:(lia)) as [S1 [R1 N1]].
  destruct (request_loop_429 url clock session 1 1 rl1 _ _ ltac:(lia) S1 R1 N1)
    as [rl2 [g2 [M2 E2]]]. rewrite E2.
  destruct (Hs 2%nat ltac:(lia)) as [S2 [R2 N2]].
  destruct (request_loop_429 url clock session 0 2 rl2 _ _ ltac:(lia) S2 R2 N2)
    as [rl3 [g3 [M3 E3]]]. rewrite E3.
  repeat split; reflexivity.
Qed.

(** A first answer 429 whose [Retry-After] is not an integer, or is
    negative, raises at once ([ValueError] of [int()] or of [time.sleep])
    without a retry: one request, no sleep. *)
Theorem make_request_bad_retry_after url clock session rl ra :
  0 < max_requests rl ->
  session 0%nat = Responded 429 ra ->
  (forall n, retry_after_of ra = Ok n -> n < 0) ->
  let '(r, _, evs) := make_request url clock session rl in
  r = match retry_after_of ra with Err e => Err e | Ok _ => Err sleep_error end /\
  requests_sent evs = [0%nat] /\ sleeps evs = [].
Proof.
  intros Hm Hs Hn. unfold make_request, MAX_RETRIES.
  destruct (acquire_ok_of_pos rl (fst (clock 0%nat)) (snd (clock 0%nat)) Hm)
    as [rl1 [g [E1 M1]]].
  simpl. rewrite E1, Hs.
  destruct (retry_after_of ra) as [n|e] eqn:Er.
  - rewrite (proj2 (Z.ltb_lt n 0) (Hn n eq_refl)). repeat split; reflexivity.
  - repeat split; reflexivity.
Qed.

(** Whatever the session does, [_make_request] sends at most three
    requests, numbered [0, 1, ...] in order, each after one rate-limiter
    grant, sleeps at most once per request and never a negative time, and
    a response it returns comes from its last request, with a status that
    is neither 429 nor in 400-599. *)
Theorem make_request_at_most_three_attempts url clock session rl :
  let '(r, _, evs) := make_request url clock session rl in
  exists k, (k <= 3)%nat /\ requests_sent evs = seq 0 k /\
    List.length (grants evs) = k /\ (List.length (sleeps evs) <= k)%nat /\
    Forall (fun x => 0 <= x) (sleeps evs) /\
    (forall i st, r = Ok (i, st) -> S i = k /\ http_error st = false /\ st <> 429).
Proof.
  pose proof (request_loop_shape url clock session 3 0 rl) as H.
  unfold make_request, MAX_RETRIES.
  destruct (request_loop url clock session 3 0 rl) as [[r rl'] evs].
  destruct H as [k [H1 [H2 [H3 [H4 [H5 H6]]]]]].
  exists k. do 5 (split; [assumption|]).
  intros i st Hr. destruct (H6 i st Hr) as [Ha Hb]. split; [lia|exact Hb].
Qed.

(** ** Paged listings *)

Lemma ceil_div_step a b :
  0 < b -> 1 <= a -> Z.to_nat ((a + b - 1) / b) = S (Z.to_nat ((a - b + b - 1) / b)).
Proof.
  intros Hb Ha.
  replace (a + b - 1) with ((a - 1) + 1 * b) by lia.
  rewrite Z.div_add by lia.
  replace (a - b + b - 1) with (a - 1) by lia.
  assert (0 <= (a - 1) / b) by (apply Z.div_pos; lia).
  rewrite Z2Nat.inj_add by lia. simpl. lia.
Qed.

Lemma ceil_div_zero a b : 0 < b -> a <= 0 -> Z.to_nat ((a + b - 1) / b) = O.
Proof.
  intros Hb Ha.
  assert ((a + b - 1) / b < 1) by (apply Z.div_lt_upper_bound; lia).
  lia.
Qed.

Lemma get_officers_loop_repeat (fetch : Fetch Officer) url ipp page :
  fetch url [] = Ok page -> 0 < ipp ->
  forall fuel start all_officers,
  let m := Z.to_nat ((page_total page - Z.of_nat (List.length (page_items page)) - start
                      + ipp - 1) / ipp) in
  ((m < fuel)%nat ->
   get_officers_loop fetch url ipp fuel start all_officers =
     Some (Ok (all_officers ++ List.concat (repeat (page_items page) (S m))))) /\
  ((fuel <= m)%nat -> get_officers_loop fetch url ipp fuel start all_officers = None).
Proof.
  intros Hf Hi fuel. induction fuel as [|fuel IH]; intros start all m.
  { split; [lia|reflexivity]. }
  simpl. rewrite Hf.
  destruct (page_total page <=? start + Z.of_nat (List.length (page_items page))) eqn:E.
  - apply Z.leb_le in E.
    unfold m. rewrite ceil_div_zero by lia. split; [|lia].
    intros _. simpl. rewrite app_nil_r. reflexivity.
  - apply Z.leb_gt in E.
    unfold m. rewrite ceil_div_step by lia.
    replace (page_total page - Z.of_nat (List.length (page_items page)) - start - ipp)
      with (page_total page - Z.of_nat (List.length (page_items page)) - (start + ipp))
      by lia.
    destruct (IH (start + ipp) (all ++ page_items page)) as [IH1 IH2].
    split; intros Hm.
    + rewrite IH1 by lia. simpl. rewrite <- !app_assoc. reflexivity.
    + apply IH2. lia.
Qed.

(** [get_officers] never asks for a later page: against a registry that
    answers the officers URL with a page of [n] items and a total of [t],
    and a page size [items_per_page > 0], it returns the first page
    repeated [k = 1 + max(0, ceil((t - n) / items_per_page))] times, and
    it needs [k] requests to return. *)
Theorem get_officers_repeats_first_page fetch base_url company_number items_per_page page fuel :
  fetch (base_url ++ "/company/" ++ company_number ++ "/officers")%string [] = Ok page ->
  0 < items_per_page ->
  let k := S (Z.to_nat ((page_total page - Z.of_nat (List.length (page_items page))
                         + items_per_page - 1) / items_per_page)) in
  ((fuel < k)%nat -> get_officers_paged fetch base_url company_number items_per_page fuel = None) /\
  ((k <= fuel)%nat ->
   get_officers_paged fetch base_url company_number items_per_page fuel =
     Some (Ok (List.concat (repeat (page_items page) k)))).
Proof.
  intros Hf Hi k. unfold get_officers_paged.
  destruct (get_officers_loop_repeat fetch _ items_per_page page Hf Hi fuel 0 [])
    as [H1 H2].
  rewrite Z.sub_0_r in H1, H2. split; intros Hk.
  - apply H2. unfold k in Hk. lia.
  - rewrite H1 by (unfold k in Hk; lia). reflexivity.
Qed.

Lemma get_officers_loop_stuck (fetch : Fetch Officer) url ipp page :
  fetch url [] = Ok page -> ipp <= 0 ->
  Z.of_nat (List.length (page_items page)) < page_total page ->
  forall fuel start all_officers, start <= 0 ->
  get_officers_loop fetch url ipp fuel start all_officers = None.
Proof.
  intros Hf Hi Ht fuel. induction fuel as [|fuel IH]; intros start all Hs; [reflexivity|].
  simpl. rewrite Hf.
  replace (page_total page <=? start + Z.of_nat (List.length (page_items page))) with false
    by (symmetry; apply Z.leb_gt; lia).
  apply IH. lia.
Qed.

(** With [items_per_page <= 0], [get_officers] never returns once the
    first page falls short of its total: every request gets the same page
    and [start_index] never grows. *)
Theorem get_officers_nonpositive_page_size_diverges fetch base_url company_number
    items_per_page page fuel :
  fetch (base_url ++ "/company/" ++ company_number ++ "/officers")%string [] = Ok page ->
  items_per_page <= 0 ->
  Z.of_nat (List.length (page_items page)) < page_total page ->
  get_officers_paged fetch base_url company_number items_per_page fuel = None.
Proof.
  intros Hf Hi Ht. unfold get_officers_paged.
  apply (get_officers_loop_stuck fetch _ items_per_page page Hf Hi Ht); lia.
Qed.

Lemma search_officers_loop_bounded (fetch : Fetch SearchResult) url name ipp :
  0 < ipp -> forall fuel start all_results,
  (Z.to_nat ((200 - start + ipp - 1) / ipp) < fuel)%nat ->
  exists r, search_officers_loop fetch url name ipp fuel start all_results = Some r.
Proof.
  intros Hi fuel. induction fuel as [|fuel IH]; intros start all Hm; [lia|].
  simpl. destruct (fetch _ _) as [data|e]; [|eauto].
  destruct (_ || (200 <=? start)) eqn:E; [eauto|].
  apply orb_false_iff in E as [_ E]. apply Z.leb_gt in E.
  apply IH. rewrite ceil_div_step in Hm by lia.
  replace (200 - (start + ipp)) with (200 - start - ipp) by lia. lia.
Qed.

(** [search_officers] with [items_per_page > 0] returns (a result or the
    exception of a request) within [1 + ceil(200 / items_per_page)]
    requests, whatever the registry answers: 5 with the default page size
    of 50. *)
Theorem search_officers_request_bound fetch base_url officer_name items_per_page fuel :
  0 < items_per_page ->
  (S (Z.to_nat ((200 + items_per_page - 1) / items_per_page)) <= fuel)%nat ->
  exists r, search_officers_paged fetch base_url officer_name items_per_page fuel = Some r.
Proof.
  intros Hi Hf. unfold search_officers_paged.
  apply search_officers_loop_bounded; [exact Hi|]. rewrite Z.sub_0_r. lia.
Qed.

Lemma search_companies_loop_bounded {A : Type} (fetch : Fetch A) url ipp :
  forall fuel start all_results,
  (Z.to_nat (1000 - Z.of_nat (List.length all_results)) <= fuel)%nat ->
  exists r, search_companies_loop fetch url ipp fuel start all_results = Some r.
Proof.
  intros fuel. induction fuel as [|fuel IH]; intros start all Hm;
    simpl; destruct (Z.of_nat (List.length all) <? 1000) eqn:El; eauto.
  - apply Z.ltb_lt in El. lia.
  - destruct (fetch _ _) as [data|e]; [|eauto].
    destruct (page_items data) as [|x rest] eqn:Ei; [eauto|].
    destruct (_ || _); [eauto|].
    apply IH. rewrite length_app. simpl List.length.
    apply Z.ltb_lt in El. clear - Hm El. revert Hm El.
    generalize (List.length all). generalize (List.length rest). intros. lia.
Qed.

(** [search_companies] never raises and always returns within 1000
    requests, whatever the registry answers: an exception ends the loop
    with the results gathered so far, and every page that does not stop
    the loop adds at least one result toward the cap of 1000. *)
Theorem search_companies_request_bound {A : Type} (fetch : Fetch A) base_url items_per_page fuel :
  (1000 <= fuel)%nat ->
  exists results, search_companies_paged fetch base_url items_per_page fuel = Some results.
Proof.
  intros Hf. unfold search_companies_paged.
  apply search_companies_loop_bounded. simpl. exact Hf.
Qed.

(** ** The profile cache *)

Lemma string_length_app (a b : string) : String.length (a ++ b) = (String.length a + String.length b)%nat.
Proof. induction a as [|c a IH]; simpl; auto. Qed.

Lemma string_app_inv_r (a b s : string) : (a ++ s)%string = (b ++ s)%string -> a = b.
Proof.
  revert b. induction a as [|c a IH]; intros [|c' b] H; simpl in H.
  - reflexivity.
  - apply (f_equal String.length) in H. simpl in H. rewrite string_length_app in H. lia.
  - apply (f_equal String.length) in H. simpl in H. rewrite string_length_app in H. lia.
  - injection H as -> H. f_equal. apply IH. exact H.
Qed.

Lemma string_app_inv_l (p a b : string) : (p ++ a)%string = (p ++ b)%string -> a = b.
Proof. induction p as [|c p IH]; simpl; intros H; [exact H|]. injection H. exact IH. Qed.

(** Once [get_company_profile(c)] has returned [data], every later call
    for [c] returns [data] from the cache without a request, whatever the
    registry would answer; the cache entries of other companies are
    unchanged. *)
Theorem get_company_profile_cache_serves {J : Type} (fetch : string -> res J) base_url cache
    company_number data cache' :
  get_company_profile_cached fetch base_url cache company_number = (Ok data, cache') ->
  (forall fetch', get_company_profile_cached fetch' base_url cache' company_number = (Ok data, cache')) /\
  (forall c, c <> company_number ->
     dict_get ("profile_" ++ c ++ ".json")%string cache' =
     dict_get ("profile_" ++ c ++ ".json")%string cache).
Proof.
  unfold get_company_profile_cached.
  destruct (dict_get ("profile_" ++ company_number ++ ".json")%string cache) as [d|] eqn:Eg.
  - intros H. injection H as -> <-. split; [intros; rewrite Eg; reflexivity|]. auto.
  - destruct (fetch _) as [d|e]; intros H; [|discriminate].
    injection H as -> <-. split.
    + intros fetch'. rewrite dict_get_set, String.eqb_refl. reflexivity.
    + intros c Hc. rewrite dict_get_set.
      match goal with |- context [String.eqb ?a ?b] => destruct (String.eqb_spec a b) as [E|E] end;
        [|reflexivity].
      change (("profile_" ++ c ++ ".json")%string =
              ("profile_" ++ company_number ++ ".json")%string) in E.
      apply string_app_inv_l, string_app_inv_r in E. contradiction.
Qed.

(** A failed fetch leaves the cache as it was, so the next call for the
    same company asks the registry again. *)
Theorem get_company_profile_error_not_cached {J : Type} (fetch : string -> res J) base_url cache
    company_number e cache' :
  get_company_profile_cached fetch base_url cache company_number = (Err e, cache') ->
  cache' = cache /\ dict_get ("profile_" ++ company_number ++ ".json")%string cache = None.
Proof.
  unfold get_company_profile_cached.
  destruct (dict_get _ cache) as [d|] eqn:Eg; [discriminate|].
  destruct (fetch _) as [d|e']; intros H; [discriminate|]. injection H as _ <-. auto.
Qed.

(** ** Seed parsing of [cmd_network] *)

Lemma drop_spaces_suffix l : exists pre, l = pre ++ drop_spaces l.
Proof.
  induction l as [|c t IH]; simpl; [exists []; reflexivity|].
  destruct (is_space c); [|exists []; reflexivity].
  destruct IH as [pre Hp]. exists (c :: pre). simpl. rewrite <- Hp. reflexivity.
Qed.

Lemma drop_spaces_incl l x : In x (drop_spaces l) -> In x l.
Proof.
  destruct (drop_spaces_suffix l) as [pre Hp]. intros H. rewrite Hp. apply in_or_app. auto.
Qed.

Lemma strip_incl s x : In x (list_ascii_of_string (strip s)) -> In x (list_ascii_of_string s).
Proof.
  unfold strip. rewrite list_ascii_of_string_of_list_ascii.
  intros H. apply in_rev in H. apply drop_spaces_incl in H. apply in_rev in H.
  apply drop_spaces_incl in H. exact H.
Qed.

Lemma split_comma_props s :
  List.length (split_comma s) = S (count_occ ascii_dec (list_ascii_of_string s) ","%char) /\
  Forall (fun f => ~ In ","%char (list_ascii_of_string f)) (split_comma s).
Proof.
  induction s as [|c s [IH1 IH2]]; simpl.
  - split; [reflexivity|]. constructor; [simpl; tauto|constructor].
  - destruct (Ascii.eqb_spec c ","%char) as [->|Hc].
    + simpl. split; [rewrite IH1; reflexivity|]. constructor; [simpl; tauto|exact IH2].
    + destruct (ascii_dec c ","%char) as [E|_]; [contradiction|].
      destruct (split_comma s) as [|h t] eqn:Es; [discriminate|].
      simpl in IH1 |- *. split; [exact IH1|].
      inversion IH2; subst. constructor; [|assumption].
      simpl. intros [E|E]; [congruence|contradiction].
Qed.

(** [--companies] is split at every comma: there is one seed per comma
    plus one, no seed contains a comma, and fields left empty by the user
    (e.g. in [A,,B]) stay in the list as seeds. *)
Theorem seed_list_fields companies :
  List.length (seed_list companies) =
    S (count_occ ascii_dec (list_ascii_of_string companies) ","%char) /\
  Forall (fun seed => ~ In ","%char (list_ascii_of_string seed)) (seed_list companies) /\
  seed_list ("A,,B")%string = ["A"; ""; "B"]%string.
Proof.
  destruct (split_comma_props companies) as [H1 H2]. unfold seed_list.
  split; [rewrite length_map; exact H1|]. split; [|reflexivity].
  apply Forall_map. eapply Forall_impl; [|exact H2].
  intros f Hf Hin. apply Hf. apply strip_incl. exact Hin.
Qed.

(* ------------------------------------------------------------------ *)
(** ** Instances of the snapshot, rate-limiter and client theorems *)

(** The scenario snapshot: director records agree with the connections. *)
Lemma scan_network_directors_match_connections_witness :
  exists net self',
    scan_network (lift_pure scenario_facade) (fresh_scanner tt) ["AA111111"]%string
      2 100 true 20 = Some (net, self') /\
    (forall k dr, dict_get k (n_directors net) = Some dr ->
       d_company_count dr = Z.of_nat (List.length (d_appointments dr)) /\
       (1 <= List.length (d_appointments dr))%nat /\
       List.length (d_appointments dr) = count_dir k (n_connections net)) /\
    (forall x, In x (n_connections net) -> In (c_director_id x) (map fst (n_directors net))).
Proof.
  destruct (scan_network (lift_pure scenario_facade) (fresh_scanner tt)
              ["AA111111"]%string 2 100 true 20) as [[net self']|] eqn:E.
  - exists net, self'. split; [reflexivity|].
    exact (scan_network_directors_match_connections (lift_pure scenario_facade)
             (fresh_scanner tt) ["AA111111"]%string 2 100 true 20 net self' E).
  - vm_compute in E. discriminate.
Defined.

(** The scenario snapshot: company records. *)
Lemma scan_network_company_records_witness :
  exists net self',
    scan_network (lift_pure scenario_facade) (fresh_scanner tt) ["AA111111"]%string
      2 100 true 20 = Some (net, self') /\
    forall k rec, dict_get k (n_companies net) = Some rec ->
      cr_company_number rec = k /\ 0 <= cr_depth rec <= 2 /\
      cr_officer_count rec = Z.of_nat (count_comp k (n_connections net)).
Proof.
  destruct (scan_network (lift_pure scenario_facade) (fresh_scanner tt)
              ["AA111111"]%string 2 100 true 20) as [[net self']|] eqn:E.
  - exists net, self'. split; [reflexivity|].
    exact (scan_network_company_records (lift_pure scenario_facade)
             (fresh_scanner tt) ["AA111111"]%string 2 100 true 20 net self' E).
  - vm_compute in E. discriminate.
Defined.

(** The scenario snapshot: statistics. *)
Lemma scan_network_statistics_witness :
  exists net self',
    scan_network (lift_pure scenario_facade) (fresh_scanner tt) ["AA111111"]%string
      2 100 true 20 = Some (net, self') /\
    depth_reached (n_statistics net) = max_depth_of (n_companies net) /\
    total_companies (n_statistics net) = Z.of_nat (List.length (n_companies net)) /\
    total_directors (n_statistics net) = Z.of_nat (List.length (n_directors net)) /\
    total_connections (n_statistics net) = Z.of_nat (List.length (n_connections net)) /\
    n_seed_companies net = ["AA111111"]%string /\ n_max_depth net = 2.
Proof.
  destruct (scan_network (lift_pure scenario_facade) (fresh_scanner tt)
              ["AA111111"]%string 2 100 true 20) as [[net self']|] eqn:E.
  - exists net, self'. split; [reflexivity|].
    exact (scan_network_statistics (lift_pure scenario_facade)
             (fresh_scanner tt) ["AA111111"]%string 2 100 true 20 net self' E).
  - vm_compute in E. discriminate.
Defined.

(** The scenario snapshot with [active_only]. *)
Lemma scan_network_active_only_filters_witness :
  exists net self',
    scan_network (lift_pure scenario_facade) (fresh_scanner tt) ["AA111111"]%string
      2 100 true 20 = Some (net, self') /\
    (forall k rec, dict_get k (n_companies net) = Some rec ->
       cr_company_status rec = Some "active"%string) /\
    (forall k dr a, dict_get k (n_directors net) = Some dr -> In a (d_appointments dr) ->
       truthy (a_resigned_on a) = false).
Proof.
  destruct (scan_network (lift_pure scenario_facade) (fresh_scanner tt)
              ["AA111111"]%string 2 100 true 20) as [[net self']|] eqn:E.
  - exists net, self'. split; [reflexivity|].
    exact (scan_network_active_only_filters (lift_pure scenario_facade)
             (fresh_scanner tt) ["AA111111"]%string 2 100 20 net self' E).
  - vm_compute in E. discriminate.
Defined.

(** The snapshot whose two seeds share a director. *)
Lemma shared_directors_of_scan_witness :
  exists net self',
    scan_network (lift_pure search_fails_facade) (fresh_scanner tt) ["A"; "B"]%string
      1 100 true 20 = Some (net, self') /\
    (forall id, (exists e, In e (find_shared_directors net) /\ sd_director_id e = id) <->
                (2 <= count_dir id (n_connections net))%nat) /\
    (forall e, In e (find_shared_directors net) ->
       Z.of_nat (List.length (sd_companies e)) = sd_company_count e).
Proof.
  destruct (scan_network (lift_pure search_fails_facade) (fresh_scanner tt)
              ["A"; "B"]%string 1 100 true 20) as [[net self']|] eqn:E.
  - exists net, self'. split; [reflexivity|].
    exact (shared_directors_of_scan (lift_pure search_fails_facade)
             (fresh_scanner tt) ["A"; "B"]%string 1 100 true 20 net self' E).
  - vm_compute in E. discriminate.
Defined.

(** Two requests of three still in the window at [500]. *)
Lemma get_remaining_requests_counts_window_witness :
  Sorted Z.le (requests (mkRateLimiter 2 300 [10; 250; 400])) /\
  let '(rl', remaining) := get_remaining_requests (mkRateLimiter 2 300 [10; 250; 400]) 500 in
  requests rl' = filter (fun t => 500 - 300 <=? t) [10; 250; 400] /\
  remaining = 2 - Z.of_nat (List.length (filter (fun t => 500 - 300 <=? t) [10; 250; 400])).
Proof.
  assert (H : Sorted Z.le (requests (mkRateLimiter 2 300 [10; 250; 400])))
    by (simpl; repeat constructor; lia).
  split; [exact H|].
  exact (get_remaining_requests_counts_window (mkRateLimiter 2 300 [10; 250; 400]) 500 H).
Defined.

(** Three calls on a limiter of 2 per 10 seconds; the third sleeps. *)
Lemma acquire_all_time_ordered_witness :
  exists rl' grants,
    valid_clock (new_rate_limiter (Some 2) (Some 10)) 0 [(0, 0); (1, 1); (2, 12)] /\
    Sorted Z.le (requests (new_rate_limiter (Some 2) (Some 10))) /\
    Forall (fun t => t <= 0) (requests (new_rate_limiter (Some 2) (Some 10))) /\
    acquire_all (new_rate_limiter (Some 2) (Some 10)) [(0, 0); (1, 1); (2, 12)]
      = Ok (rl', grants) /\
    Sorted Z.le (requests rl') /\ Sorted Z.le grants /\ Forall (fun g => 0 <= g) grants /\
    max_requests rl' = 2 /\ period rl' = 10.
Proof.
  assert (Hv : valid_clock (new_rate_limiter (Some 2) (Some 10)) 0 [(0, 0); (1, 1); (2, 12)])
    by (vm_compute; repeat split; discriminate).
  assert (Hs : Sorted Z.le (requests (new_rate_limiter (Some 2) (Some 10))))
    by (simpl; constructor).
  assert (Hf : Forall (fun t => t <= 0) (requests (new_rate_limiter (Some 2) (Some 10))))
    by (simpl; constructor).
  destruct (acquire_all (new_rate_limiter (Some 2) (Some 10)) [(0, 0); (1, 1); (2, 12)])
    as [[rl' grants]|e] eqn:E.
  - exists rl', grants. do 4 (split; [assumption || reflexivity|]).
    exact (acquire_all_time_ordered (new_rate_limiter (Some 2) (Some 10)) 0
             [(0, 0); (1, 1); (2, 12)] rl' grants Hv Hs Hf E).
  - vm_compute in E. discriminate.
Defined.

(** A full limiter of 1 per 300 seconds at [300]. *)
Lemma waits_bounded_by_period_witness :
  Forall (fun t => t <= 300) (requests (mkRateLimiter 1 300 [100; 250])) /\
  0 <= get_reset_time (mkRateLimiter 1 300 [100; 250]) 300 <= Z.max 0 300 /\
  0 <= sleep_needed (mkRateLimiter 1 300 [100; 250]) 300 <= Z.max 0 300.
Proof.
  assert (H : Forall (fun t => t <= 300) (requests (mkRateLimiter 1 300 [100; 250])))
    by (simpl; repeat constructor; lia).
  split; [exact H|].
  exact (waits_bounded_by_period (mkRateLimiter 1 300 [100; 250]) 300 H).
Defined.

(** Three answers 503. *)
Lemma make_request_gives_up_after_three_errors_witness :
  0 < max_requests (new_rate_limiter None None) /\
  (forall i, (i < 3)%nat ->
     (exists e, (fun _ : nat => Responded 503 None) i = Raised e true) \/
     (exists st ra, (fun _ : nat => Responded 503 None) i = Responded st ra /\
                    http_error st = true /\ st <> 429)) /\
  let '(r, _, evs) := make_request "https://api/company/C"%string (fun _ => (0, 0))
                        (fun _ => Responded 503 None) (new_rate_limiter None None) in
  requests_sent evs = [0; 1; 2]%nat /\ sleeps evs = [2; 4] /\ r = Err http_error_exn.
Proof.
  assert (H1 : 0 < max_requests (new_rate_limiter None None)) by (vm_compute; reflexivity).
  assert (H2 : forall i, (i < 3)%nat ->
     (exists e, (fun _ : nat => Responded 503 None) i = Raised e true) \/
     (exists st ra, (fun _ : nat => Responded 503 None) i = Responded st ra /\
                    http_error st = true /\ st <> 429)).
  { intros i _. right. exists 503, None. split; [reflexivity|]. split; [reflexivity|lia]. }
  split; [exact H1|]. split; [exact H2|].
  exact (make_request_gives_up_after_three_errors "https://api/company/C"%string
           (fun _ => (0, 0)) (fun _ => Responded 503 None) (new_rate_limiter None None) H1 H2).
Defined.

(** Three answers 429 with [Retry-After] absent, [" 5 "] and ["1_0"]. *)
Lemma make_request_429_three_times_witness :
  0 < max_requests (new_rate_limiter None None) /\
  (forall i, (i < 3)%nat ->
     (fun j => Responded 429 (retry_after_three j)) i = Responded 429 (retry_after_three i) /\
     retry_after_of (retry_after_three i) = Ok (retry_after_secs i) /\ 0 <= retry_after_secs i) /\
  let '(r, _, evs) := make_request "https://api/company/C"%string (fun _ => (0, 0))
                        (fun j => Responded 429 (retry_after_three j))
                        (new_rate_limiter None None) in
  r = Err (failed_exn "https://api/company/C"%string) /\ requests_sent evs = [0; 1; 2]%nat /\
  sleeps evs = [2; 5; 10].
Proof.
  assert (H1 : 0 < max_requests (new_rate_limiter None None)) by (vm_compute; reflexivity).
  assert (H2 : forall i, (i < 3)%nat ->
     (fun j => Responded 429 (retry_after_three j)) i = Responded 429 (retry_after_three i) /\
     retry_after_of (retry_after_three i) = Ok (retry_after_secs i) /\ 0 <= retry_after_secs i).
  { intros i Hi. destruct i as [|[|[|i]]]; [| | |lia];
      (split; [reflexivity|split; [vm_compute; reflexivity|simpl; lia]]). }
  split; [exact H1|]. split; [exact H2|].
  exact (make_request_429_three_times "https://api/company/C"%string (fun _ => (0, 0))
           (fun j => Responded 429 (retry_after_three j)) (new_rate_limiter None None)
           retry_after_three retry_after_secs H1 H2).
Defined.

(** A [Retry-After] given as an HTTP date. *)
Lemma make_request_bad_retry_after_witness :
  0 < max_requests (new_rate_limiter None None) /\
  (fun _ : nat => Responded 429 (Some "Wed, 21 Oct 2015 07:28:00 GMT"%string)) 0%nat =
    Responded 429 (Some "Wed, 21 Oct 2015 07:28:00 GMT"%string) /\
  (forall n, retry_after_of (Some "Wed, 21 Oct 2015 07:28:00 GMT"%string) = Ok n -> n < 0) /\
  let '(r, _, evs) := make_request "https://api/company/C"%string (fun _ => (0, 0))
                        (fun _ => Responded 429 (Some "Wed, 21 Oct 2015 07:28:00 GMT"%string))
                        (new_rate_limiter None None) in
  r = match retry_after_of (Some "Wed, 21 Oct 2015 07:28:00 GMT"%string) with
      | Err e => Err e | Ok _ => Err sleep_error end /\
  requests_sent evs = [0%nat] /\ sleeps evs = [].
Proof.
  assert (H1 : 0 < max_requests (new_rate_limiter None None)) by (vm_compute; reflexivity).
  assert (H3 : forall n, retry_after_of (Some "Wed, 21 Oct 2015 07:28:00 GMT"%string) = Ok n ->
                         n < 0) by (intros n H; vm_compute in H; discriminate).
  split; [exact H1|]. split; [reflexivity|]. split; [exact H3|].
  exact (make_request_bad_retry_after "https://api/company/C"%string (fun _ => (0, 0))
           (fun _ => Responded 429 (Some "Wed, 21 Oct 2015 07:28:00 GMT"%string))
           (new_rate_limiter None None) _ H1 eq_refl H3).
Defined.

(** Two officers of five on every page. *)
Lemma get_officers_repeats_first_page_witness :
  two_of_five ("https://api" ++ "/company/" ++ "C" ++ "/officers")%string [] =
    Ok (mkPage (Some [director "A" "2001-01-01"; director "B" "2002-02-02"]) (Some 5)) /\
  0 < 2 /\
  ((2 < 3)%nat -> get_officers_paged two_of_five "https://api" "C" 2 2 = None) /\
  ((3 <= 3)%nat -> get_officers_paged two_of_five "https://api" "C" 2 3 =
     Some (Ok (List.concat (repeat [director "A" "2001-01-01"; director "B" "2002-02-02"] 3)))).
Proof.
  assert (H1 : two_of_five ("https://api" ++ "/company/" ++ "C" ++ "/officers")%string [] =
    Ok (mkPage (Some [director "A" "2001-01-01"; director "B" "2002-02-02"]) (Some 5)))
    by reflexivity.
  split; [exact H1|]. split; [lia|]. split.
  - exact (proj1 (get_officers_repeats_first_page two_of_five "https://api" "C" 2 _ 2 H1
                    ltac:(lia))).
  - exact (proj2 (get_officers_repeats_first_page two_of_five "https://api" "C" 2 _ 3 H1
                    ltac:(lia))).
Defined.

Lemma get_officers_nonpositive_page_size_diverges_witness :
  two_of_five ("https://api" ++ "/company/" ++ "C" ++ "/officers")%string [] =
    Ok (mkPage (Some [director "A" "2001-01-01"; director "B" "2002-02-02"]) (Some 5)) /\
  0 <= 0 /\
  Z.of_nat (List.length (page_items
    (mkPage (Some [director "A" "2001-01-01"; director "B" "2002-02-02"]) (Some 5)))) <
    page_total (mkPage (Some [director "A" "2001-01-01"; director "B" "2002-02-02"]) (Some 5)) /\
  get_officers_paged two_of_five "https://api" "C" 0 50 = None.
Proof.
  assert (H1 : two_of_five ("https://api" ++ "/company/" ++ "C" ++ "/officers")%string [] =
    Ok (mkPage (Some [director "A" "2001-01-01"; director "B" "2002-02-02"]) (Some 5)))
    by reflexivity.
  assert (H3 : Z.of_nat (List.length (page_items
    (mkPage (Some [director "A" "2001-01-01"; director "B" "2002-02-02"]) (Some 5)))) <
    page_total (mkPage (Some [director "A" "2001-01-01"; director "B" "2002-02-02"]) (Some 5)))
    by (vm_compute; reflexivity).
  split; [exact H1|]. split; [lia|]. split; [exact H3|].
  exact (get_officers_nonpositive_page_size_diverges two_of_five "https://api" "C" 0 _ 50
           H1 ltac:(lia) H3).
Defined.

(** A registry claiming a thousand matches, one per page. *)
Lemma search_officers_request_bound_witness :
  0 < 50 /\ (S (Z.to_nat ((200 + 50 - 1) / 50)) <= 5)%nat /\
  exists r, search_officers_paged endless_officers "https://api" "JOHN SMITH" 50 5 = Some r.
Proof.
  split; [lia|]. split; [vm_compute; lia|].
  exact (search_officers_request_bound endless_officers "https://api" "JOHN SMITH" 50 5
           ltac:(lia) ltac:(vm_compute; lia)).
Defined.

Lemma search_companies_request_bound_witness :
  (1000 <= 1000)%nat /\
  exists results, search_companies_paged same_company_page "https://api" 100 1000 = Some results.
Proof.
  split; [lia|].
  exact (search_companies_request_bound same_company_page "https://api" 100 1000 ltac:(lia)).
Defined.

(** A first fetch of [C] into an empty cache. *)
Lemma get_company_profile_cache_serves_witness :
  get_company_profile_cached (fun _ => Ok 7) "https://api" [] "C"%string =
    (Ok 7, [("profile_C.json"%string, 7)]) /\
  (forall fetch', get_company_profile_cached fetch' "https://api" [("profile_C.json"%string, 7)]
                    "C"%string = (Ok 7, [("profile_C.json"%string, 7)])) /\
  (forall c, c <> "C"%string ->
     dict_get ("profile_" ++ c ++ ".json")%string [("profile_C.json"%string, 7)] =
     dict_get ("profile_" ++ c ++ ".json")%string ([] : list (string * Z))).
Proof.
  assert (H : get_company_profile_cached (fun _ => Ok 7) "https://api" [] "C"%string =
              (Ok 7, [("profile_C.json"%string, 7)])) by reflexivity.
  split; [exact H|].
  exact (get_company_profile_cache_serves (fun _ => Ok 7) "https://api" [] "C"%string 7 _ H).
Defined.

(* ------------------------------------------------------------------ *)
(** ** Instances of the claims on concrete runs *)

Lemma two_paths_officers c officers o :
  pf_officers two_paths_facade c = Ok officers -> In o officers ->
  o = director "A" "2001-01-01" \/ o = director "B" "2002-02-02".
Proof.
  simpl. destruct (String.eqb c "S"); [|destruct (String.eqb c "U")];
    intros H; injection H as <-; simpl; intros Ho; intuition.
Qed.

Lemma two_paths_keys_ok : keys_determine_names two_paths_facade.
Proof.
  intros c c' officers officers' o o' H1 H2 Hi Hi' Hk.
  destruct (two_paths_officers c officers o H1 Hi) as [->| ->];
  destruct (two_paths_officers c' officers' o' H2 Hi') as [->| ->];
  try reflexivity; vm_compute in Hk; discriminate.
Qed.

(** C1 (instance): on the two-path scenario [S -> T] and [S -> U -> T], the
    stateless client satisfies the hypotheses, and every recorded depth is the
    minimum number of hops. *)
Lemma C1_witness :
  keys_determine_names two_paths_facade /\
  exists net self',
    scan_network (lift_pure two_paths_facade) (fresh_scanner tt) ["S"]%string 2 100 true 20
      = Some (net, self') /\
    forall c rec, dict_get c (n_companies net) = Some rec ->
      min_hops two_paths_facade true ["S"]%string c (cr_depth rec).
Proof.
  split; [exact two_paths_keys_ok|].
  destruct (scan_network (lift_pure two_paths_facade) (fresh_scanner tt) ["S"]%string
              2 100 true 20) as [[net self']|] eqn:E.
  - exists net, self'. split; [reflexivity|].
    exact (C1_depth_min_hops_pure_client two_paths_facade (fresh_scanner tt) ["S"]%string
             2 100 true 20 net self' two_paths_keys_ok E).
  - vm_compute in E. discriminate.
Defined.

(** C3 (instance): after the first iteration on the scenario seeded twice,
    the repeated seed waits at the head of the frontier and is skipped. *)
Lemma C3_witness :
  Reach (lift_pure scenario_facade) 2 100 true repeated_seed_start
    (iter (lift_pure scenario_facade) 2 true repeated_seed_start) /\
  (let s := iter (lift_pure scenario_facade) 2 true repeated_seed_start in
   map fst (n_companies (st_net s)) = st_sc s /\
   NoDup (map fst (n_companies (st_net s))) /\
   (forall c d rest, st_queue s = (c, d) :: rest -> mem c (st_sc s) = true ->
      iter (lift_pure scenario_facade) 2 true s = set_queue rest s) /\
   (forall c rec, dict_get c (n_companies (st_net s)) = Some rec ->
      dict_get c (n_companies (st_net (iter (lift_pure scenario_facade) 2 true s)))
        = Some rec)).
Proof.
  assert (H : Reach (lift_pure scenario_facade) 2 100 true repeated_seed_start
                (iter (lift_pure scenario_facade) 2 true repeated_seed_start)).
  { apply reach_step; [apply reach_init | vm_compute; reflexivity]. }
  split; [exact H|].
  exact (C3_node_recorded_at_most_once (lift_pure scenario_facade) (fresh_scanner tt)
           ["AA111111"; "AA111111"]%string 2 100 true _ H).
Defined.

(** C6 (instance): with an exact match at the second place of the search
    results, [best_match] picks it. *)
Lemma C6_witness :
  [mkSearchResult "JON SMITH" (officer_link "p1");
   mkSearchResult "John Smith" (officer_link "p2")] <> [] /\
  (forall i r, (i < 5)%nat ->
     nth_error [mkSearchResult "JON SMITH" (officer_link "p1");
                mkSearchResult "John Smith" (officer_link "p2")] i = Some r ->
     upper (sr_title r) = upper "JOHN SMITH" ->
     (forall j r', (j < i)%nat ->
        nth_error [mkSearchResult "JON SMITH" (officer_link "p1");
                   mkSearchResult "John Smith" (officer_link "p2")] j = Some r' ->
        upper (sr_title r') <> upper "JOHN SMITH") ->
     best_match "JOHN SMITH" [mkSearchResult "JON SMITH" (officer_link "p1");
                              mkSearchResult "John Smith" (officer_link "p2")] = Some r) /\
  ((forall i r, (i < 5)%nat ->
      nth_error [mkSearchResult "JON SMITH" (officer_link "p1");
                 mkSearchResult "John Smith" (officer_link "p2")] i = Some r ->
      upper (sr_title r) <> upper "JOHN SMITH") ->
   best_match "JOHN SMITH" [mkSearchResult "JON SMITH" (officer_link "p1");
                            mkSearchResult "John Smith" (officer_link "p2")] =
   hd_error [mkSearchResult "JON SMITH" (officer_link "p1");
             mkSearchResult "John Smith" (officer_link "p2")]).
Proof.
  split; [discriminate|].
  apply C6_best_match_in_top_five. discriminate.
Defined.

(** C8 (instance): the clusters of the snapshot where the two seeds share a
    director, with neighbours visited in insertion order. *)
Lemma C8_witness :
  (forall l x, In x ((fun l : list string => l) l) <-> In x l) /\
  (let clusters := find_company_clusters (fun l => l) shared_director_network in
   (forall cl, In cl clusters ->
      (2 <= List.length cl)%nat /\
      forall a b, In a cl -> In b cl ->
        connected (n_connections shared_director_network) a b) /\
   Sorted (fun x y => (List.length y <= List.length x)%nat) clusters /\
   Permutation clusters (discover_clusters (fun l => l) shared_director_network) /\
   (forall k, filter (fun cl => Nat.eqb (List.length cl) k) clusters =
              filter (fun cl => Nat.eqb (List.length cl) k)
                (discover_clusters (fun l => l) shared_director_network))).
Proof.
  assert (H : forall l x, In x ((fun l : list string => l) l) <-> In x l)
    by (intros; reflexivity).
  split; [exact H|].
  exact (C8_clusters_sorted_and_connected (fun l => l) shared_director_network H).
Defined.

(** C9 (instance): the snapshot of the scenario of the spec. *)
Lemma C9_witness :
  exists net self',
    scan_network (lift_pure scenario_facade) (fresh_scanner tt) ["AA111111"]%string
      2 100 true 20 = Some (net, self') /\
    forall x, In x (n_connections net) ->
      exists rec, dict_get (c_company_number x) (n_companies net) = Some rec /\
                  cr_depth rec = c_depth x.
Proof.
  destruct (scan_network (lift_pure scenario_facade) (fresh_scanner tt)
              ["AA111111"]%string 2 100 true 20) as [[net self']|] eqn:E.
  - exists net, self'. split; [reflexivity|].
    exact (C9_connections_match_companies (lift_pure scenario_facade) (fresh_scanner tt)
             ["AA111111"]%string 2 100 true 20 net self' E).
  - vm_compute in E. discriminate.
Defined.

(* ================================================================== *)
(** * Concrete runs *)

Ltac hop_by := 
  repeat (eexists || split); simpl; try reflexivity; try (left; reflexivity);
  try discriminate; try (intros; reflexivity).

(** ** C1 *)

(** C1 (counterexample): the recorded depth of a company is not always its
    minimum number of officer hops from a seed.  With a transient failure of
    the first profile request for [T], [T] (one hop from seed [S]) is recorded
    at depth 2; with two officers of [S] sharing the identity key [A_B_C],
    [T] (one hop from [S] through [A_B]) is recorded at depth 2 too. *)
Lemma C1_depth_not_min_hops :
  (exists net self',
     scan_network flaky_facade (fresh_scanner false) ["S"%string] 2 100 true 10
       = Some (net, self') /\
     option_map cr_depth (dict_get "T" (n_companies net)) = Some 2 /\
     hops_from two_paths_facade true ["S"%string] "T" 1) /\
  (exists net self',
     scan_network (lift_pure colliding_keys_facade) (fresh_scanner tt)
       ["S"%string] 2 100 true 10 = Some (net, self') /\
     option_map cr_depth (dict_get "T" (n_companies net)) = Some 2 /\
     hops_from colliding_keys_facade true ["S"%string] "T" 1).
Proof.
  split.
  - eexists; eexists; split; [vm_compute; reflexivity|]. split; [reflexivity|].
    change 1 with (0 + 1). apply hops_next with (c := "S"%string).
    + constructor; simpl; auto.
    + split.
      * exists (active_profile "S"), [director "A" "2001-01-01"]; hop_by.
      * exists [director "A" "2001-01-01"], (director "A" "2001-01-01").
        split; [reflexivity|]. split; [simpl; auto|].
        split; [reflexivity|].
        exists [mkSearchResult "A" (officer_link "a")], (mkSearchResult "A" (officer_link "a")),
          "a"%string, [appt_at "T"; appt_at "U"], (appt_at "T").
        repeat split; simpl; auto; try discriminate.
  - eexists; eexists; split; [vm_compute; reflexivity|]. split; [reflexivity|].
    change 1 with (0 + 1). apply hops_next with (c := "S"%string).
    + constructor; simpl; auto.
    + split.
      * exists (active_profile "S"), [director "A" "B_C"; director "A_B" "C"]; hop_by.
      * exists [director "A" "B_C"; director "A_B" "C"], (director "A_B" "C").
        split; [reflexivity|]. split; [simpl; auto|].
        split; [reflexivity|].
        exists [mkSearchResult "A_B" (officer_link "ab")], (mkSearchResult "A_B" (officer_link "ab")),
          "ab"%string, [appt_at "T"], (appt_at "T").
        repeat split; simpl; auto; try discriminate.
Qed.

(** ** C2 *)

(** C2 (failing input): with [max_requests = 1] and [period = 10], three
    [acquire()] calls whose clock reads 0, 10 and 10 are all granted without
    sleeping, at 0, 10 and 10: the window [[10, 20)] holds two grants. *)
Lemma C2_rate_gate_over_admits :
  let rl := new_rate_limiter (Some 1) (Some 10) in
  let clock := [(0, 0); (10, 10); (10, 10)] in
  valid_clock rl 0 clock /\
  exists rl' grants,
    acquire_all rl clock = Ok (rl', grants) /\ grants = [0; 10; 10] /\
    (grants_in_window 10 (period rl) grants > Z.to_nat (max_requests rl))%nat.
Proof.
  simpl. split.
  - vm_compute. repeat split; discriminate.
  - eexists; eexists; split; [reflexivity|]. split; [reflexivity|].
    vm_compute. lia.
Qed.

(** ** C3 *)

(** C3 (counterexample): with seeds [X; X], [active_only = False] and an
    officer list request for [X] that fails, the profile and the officers of
    [X] are requested twice in one [scan_network] call. *)
Lemma C3_refetch_after_failure :
  exists net self',
    scan_network (logged (lift_pure officers_fail_facade)) (fresh_scanner (tt, []))
      ["X"; "X"]%string 2 100 false 10 = Some (net, self') /\
    snd (api_state self') =
      [CallProfile "X"; CallOfficers "X"; CallProfile "X"; CallOfficers "X"].
Proof. eexists; eexists; split; reflexivity. Qed.

(** ** C4 *)

(** C4 (counterexample): with [max_companies = -1] the snapshot has zero
    companies, and [0 <= -1] does not hold. *)
Lemma C4_negative_cap :
  exists net self',
    scan_network (lift_pure two_paths_facade) (fresh_scanner tt) ["S"%string] 2 (-1) true 10
      = Some (net, self') /\
    ~ (Z.of_nat (List.length (n_companies net)) <= -1).
Proof. eexists; eexists; split; [reflexivity|]. simpl. lia. Qed.

(** ** C6 *)

(** C6 (counterexample): the exact match JOHN SMITH is the sixth search
    result, outside the top five that are checked; the crawler takes the
    first result and fetches the appointments of [p1]. *)
Lemma C6_exact_match_beyond_top_five :
  best_match "JOHN SMITH" six_results = hd_error six_results /\
  (exists r, In r six_results /\ upper (sr_title r) = upper "JOHN SMITH" /\
             Some r <> hd_error six_results) /\
  exists net self',
    scan_network (logged (lift_pure sixth_match_facade)) (fresh_scanner (tt, []))
      ["AA111111"%string] 2 100 true 10 = Some (net, self') /\
    snd (api_state self') =
      [CallProfile "AA111111"; CallOfficers "AA111111"; CallSearch "JOHN SMITH";
       CallAppointments "p1"].
Proof.
  split; [reflexivity|]. split.
  - exists (mkSearchResult "John Smith" (officer_link "p6")).
    split; [simpl; tauto|]. split; [reflexivity|]. discriminate.
  - eexists; eexists; split; reflexivity.
Qed.

(** ** C7 *)

(** C7 (failing input): companies [A] and [B] share the identity
    [JOHN SMITH_2020-01-01]; when the officer search raises, or returns a
    [links.self] without ['/'] (so that [split('/')[-2]] raises), the
    identity is never added to [scanned_officers] and the search is issued
    twice. *)
Lemma C7_officer_not_marked_on_failure :
  (exists net self',
     scan_network (logged (lift_pure search_fails_facade)) (fresh_scanner (tt, []))
       ["A"; "B"]%string 1 100 true 10 = Some (net, self') /\
     mem "JOHN SMITH_2020-01-01" (scanned_officers self') = false /\
     snd (api_state self') =
       [CallProfile "A"; CallOfficers "A"; CallSearch "JOHN SMITH";
        CallProfile "B"; CallOfficers "B"; CallSearch "JOHN SMITH"]) /\
  (exists net self',
     scan_network (logged (lift_pure bad_link_facade)) (fresh_scanner (tt, []))
       ["A"; "B"]%string 1 100 true 10 = Some (net, self') /\
     mem "JOHN SMITH_2020-01-01" (scanned_officers self') = false /\
     snd (api_state self') =
       [CallProfile "A"; CallOfficers "A"; CallSearch "JOHN SMITH";
        CallProfile "B"; CallOfficers "B"; CallSearch "JOHN SMITH"]).
Proof. split; eexists; eexists; split; try reflexivity; split; reflexivity. Qed.
